(** * swagger_gin: the schema synthesis engine of [swagger/swagger.go]

    A shallow embedding of the walker that derives OpenAPI schemas from Go
    types by reflection, and the properties of it that the specification
    states.

    Conventions of the embedding.
    - A Go string is a [string]; a Go map is a [gmap]; a nil map and an empty
      map are both [∅] (the source guards every write to a nil map with
      [make]).
    - [reflect.Type] is the inductive [GoType]; a declared type is known by
      the name [Type.Name()] returns and its declaration is found in a type
      environment.  Two declared types of the same name in different
      packages are one type here, as they are for every test of the source
      that goes by [Name()]; [time.Time] and [multipart.FileHeader] are the
      declared types [Time] and [FileHeader].
    - A value handed to the walker as [interface{}] is known by its dynamic
      type: the walker never looks at more of a value than its type, whether
      a pointer is nil (it then allocates a fresh one) and, for an
      interface-typed field, what it holds.  Values are zero values, as in
      [router.New(handler, ...)] and [Model: TestResponse{}]; [None] is the
      nil interface.
    - A panic is the result [Panic]; recursion of the source that Go bounds
      only by its stack is bounded here by fuel, [OutOfFuel] standing for a
      call that has not returned yet. *)

From stdpp Require Import gmap strings list fin_maps.
From Stdlib Require Import ZArith Ascii Permutation.

Local Open Scope string_scope.

(** ** Strings, as package [strings] has them *)

Module strings.

(** [strings.Split(s, sep)] for a separator of one byte: the pieces between
    the separators, a single piece when there is none. *)
Fixpoint Split (s : string) (sep : ascii) : list string :=
  match s with
  | EmptyString => [EmptyString]
  | String c r =>
      if Ascii.eqb c sep then EmptyString :: Split r sep
      else match Split r sep with
           | [] => [String c EmptyString]
           | p :: ps => String c p :: ps
           end
  end.

(** [strings.HasSuffix(s, "]")] and [strings.TrimSuffix(s, "]")], for a
    suffix of one byte. *)
Fixpoint HasSuffix (s : string) (suf : ascii) : bool :=
  match s with
  | EmptyString => false
  | String c EmptyString => Ascii.eqb c suf
  | String _ r => HasSuffix r suf
  end.

Fixpoint TrimSuffix (s : string) (suf : ascii) : string :=
  match s with
  | EmptyString => EmptyString
  | String c EmptyString => if Ascii.eqb c suf then EmptyString else s
  | String c r => String c (TrimSuffix r suf)
  end.

(** [strings.Contains(s, c)] for one byte. *)
Fixpoint ContainsByte (s : string) (c : ascii) : bool :=
  match s with
  | EmptyString => false
  | String d r => Ascii.eqb d c || ContainsByte r c
  end.

End strings.

(** [split[len(split)-1]] and [split[0]]; [strings.Split] never returns an
    empty slice, so neither index is out of range. *)
Definition lastOf (l : list string) : string := List.last l EmptyString.
Definition firstOf (l : list string) : string := List.hd EmptyString l.

(** ** The reference namer *)

Definition generateRefName (structName : string) : string :=
  "#/components/schemas/" +:+ structName.

Definition removePackageName (name : string) : string :=
  if negb (strings.HasSuffix name "]") then
    lastOf (strings.Split name ".")
  else
    let structSplit := strings.Split name "." in
    let templatesplit := strings.Split name "[" in
    strings.TrimSuffix (lastOf structSplit) "]" +:+ firstOf templatesplit.

(** ** Path rewriting

    [fixPath] is [regexp.MustCompile("/:([0-9a-zA-Z]+)").ReplaceAllString(path,
    "/{${1}}")].  The regexp package is not part of the repository; for this
    pattern its leftmost, greedy, non-overlapping matching is the scanner
    below: outside a name, a slash followed by a colon and an alphanumeric
    byte opens a match; inside a name, the match runs on as long as the bytes
    are alphanumeric and is closed by the first one that is not. *)

Definition isAlnum (c : ascii) : bool :=
  let n := nat_of_ascii c in
  ((48 <=? n)%nat && (n <=? 57)%nat) || ((65 <=? n)%nat && (n <=? 90)%nat)
  || ((97 <=? n)%nat && (n <=? 122)%nat).

Fixpoint replaceAll (inName : bool) (s : string) : string :=
  match s with
  | EmptyString => if inName then "}" else EmptyString
  | String c r =>
      if inName && isAlnum c then String c (replaceAll true r)
      else
        (if inName then "}" else EmptyString) +:+
        match r with
        | String ":" (String d r') =>
            if Ascii.eqb c "/" && isAlnum d
            then "/{" +:+ String d (replaceAll true r')
            else String c (replaceAll false r)
        | _ => String c (replaceAll false r)
        end
  end.

Definition fixPath (path : string) : string := replaceAll false path.

(** ** Reflection: kinds, types and declarations *)

Module reflect.

Inductive Kind :=
  | Invalid | Bool
  | Int | Int8 | Int16 | Int32 | Int64
  | Uint | Uint8 | Uint16 | Uint32 | Uint64 | Uintptr
  | Float32 | Float64 | Complex64 | Complex128
  | Array | Chan | Func | Interface | Map | Ptr | Slice
  | String | Struct | UnsafePointer.

#[global] Instance Kind_eq_dec : EqDecision Kind.
Proof. solve_decision. Defined.

End reflect.

(** [reflect.Type].  A predeclared type ([int], [string], ...) is [TPrim]; a
    declared type is [TNamed] with the name that [Type.Name()] returns (for an
    instantiated generic type that name carries the type arguments, as in
    [Page[main.Item]]); [TOther] stands for the unnamed types of the remaining
    kinds (channels, functions, arrays). *)
Inductive GoType :=
  | TPrim (k : reflect.Kind)
  | TNamed (name : string)
  | TPtr (elem : GoType)
  | TSlice (elem : GoType)
  | TMap (key elem : GoType)
  | TIface
  | TOther (k : reflect.Kind).

#[global] Instance GoType_eq_dec : EqDecision GoType.
Proof. solve_decision. Defined.

(** The types the walker knows by identity. *)
Definition time_Time : GoType := TNamed "Time".
Definition multipart_FileHeader : GoType := TNamed "FileHeader".
Definition bytes_t : GoType := TSlice (TPrim reflect.Uint8).

(** A constant an enumerable type lists: a Go value of a basic type.  Two
    interface values are equal when their dynamic types and their values
    are, so a constant carries its type. *)
Inductive Const :=
  | CInt (t : GoType) (z : Z)
  | CString (t : GoType) (s : string)
  | CBool (t : GoType) (b : bool).

#[global] Instance Const_eq_dec : EqDecision Const.
Proof. solve_decision. Defined.

Definition constType (c : Const) : GoType :=
  match c with CInt t _ | CString t _ | CBool t _ => t end.

(** A struct field: its name, its type and what [structtag.Parse] makes of
    its tag: [None] when the tag is malformed, otherwise the (key, name)
    pairs in the order of the tag.  The structtag package is not part of the
    repository. *)
Record StructField := {
  Name : string;
  Typ : GoType;
  Tag : option (list (string * string))
}.

(** What a declared type is declared as: a struct, or a type literal (the
    underlying type of [type Color int] is [TPrim reflect.Int]); and the map
    its [Enums()] method returns when it has one with a value receiver, the
    type then being [EnumAble].  The map is given as the list of its entries
    in the order in which [range] visits them, which Go leaves unspecified:
    the list stands for one visit, and another visit of the same map may
    go in another order. *)
Inductive Underlying :=
  | UStruct (fields : list StructField)
  | UType (t : GoType).

Record TypeDecl := {
  underlying : Underlying;
  Enums : option (list (string * Const))
}.

Definition TypeEnv := string -> TypeDecl.

Section Reflection.

Variable env : TypeEnv.

Definition litKind (t : GoType) : reflect.Kind :=
  match t with
  | TPrim k => k
  | TNamed _ => reflect.Invalid
  | TPtr _ => reflect.Ptr
  | TSlice _ => reflect.Slice
  | TMap _ _ => reflect.Map
  | TIface => reflect.Interface
  | TOther k => k
  end.

(** [Type.Kind()] *)
Definition kindOf (t : GoType) : reflect.Kind :=
  match t with
  | TNamed n =>
      match underlying (env n) with
      | UStruct _ => reflect.Struct
      | UType u => litKind u
      end
  | _ => litKind t
  end.

(** [Type.Name()]: empty for an unnamed type. *)
Definition nameOf (t : GoType) : string :=
  match t with
  | TNamed n => n
  | TPrim reflect.Bool => "bool"
  | TPrim reflect.Int => "int"
  | TPrim reflect.Int8 => "int8"
  | TPrim reflect.Int16 => "int16"
  | TPrim reflect.Int32 => "int32"
  | TPrim reflect.Int64 => "int64"
  | TPrim reflect.Uint => "uint"
  | TPrim reflect.Uint8 => "uint8"
  | TPrim reflect.Uint16 => "uint16"
  | TPrim reflect.Uint32 => "uint32"
  | TPrim reflect.Uint64 => "uint64"
  | TPrim reflect.Uintptr => "uintptr"
  | TPrim reflect.Float32 => "float32"
  | TPrim reflect.Float64 => "float64"
  | TPrim reflect.Complex64 => "complex64"
  | TPrim reflect.Complex128 => "complex128"
  | TPrim reflect.String => "string"
  | TPrim reflect.UnsafePointer => "Pointer"
  | _ => EmptyString
  end.

Definition litElem (t : GoType) : option GoType :=
  match t with
  | TPtr e | TSlice e | TMap _ e => Some e
  | _ => None
  end.

(** [Type.Elem()], which panics on a type that has no element type. *)
Definition elemOf (t : GoType) : option GoType :=
  match t with
  | TNamed n =>
      match underlying (env n) with
      | UStruct _ => None
      | UType u => litElem u
      end
  | _ => litElem t
  end.

(** The fields [Type.Field(0)], ..., [Type.Field(NumField()-1)] of a struct
    type; [NumField] panics on a type of another kind. *)
Definition fieldsOf (t : GoType) : option (list StructField) :=
  match t with
  | TNamed n =>
      match underlying (env n) with
      | UStruct fs => Some fs
      | UType _ => None
      end
  | _ => None
  end.

(** The map a value of the type returns from [Enums()], when the type
    implements [EnumAble]. *)
Definition enumsOf (t : GoType) : option (list (string * Const)) :=
  match t with
  | TNamed n => Enums (env n)
  | _ => None
  end.

(** [reflect.New(t).Elem().Interface()], the zero value of the type, as the
    dynamic type the walker sees: the zero value of an interface type is the
    nil interface. *)
Definition zeroOf (t : GoType) : option GoType :=
  if decide (kindOf t = reflect.Interface) then None else Some t.

End Reflection.

(** [StructField.IsExported()]: the name starts with an upper-case letter. *)
Definition IsExported (f : StructField) : bool :=
  match Name f with
  | String c _ => (65 <=? nat_of_ascii c)%nat && (nat_of_ascii c <=? 90)%nat
  | EmptyString => false
  end.

(** [tags.Get(key)]: the first tag with that key, an error when there is
    none. *)
Definition tagsGet (tags : list (string * string)) (key : string) : option string :=
  snd <$> List.find (fun kv => String.eqb (fst kv) key) tags.

Definition DEFAULT := "default".
Definition VALIDATE := "validate".
Definition DESCRIPTION := "description".
Definition QUERY := "query".
Definition FORM := "form".
Definition URI := "uri".
Definition HEADER := "header".
Definition COOKIE := "cookie".
Definition JSON := "json".

Definition isRequiredTags (tags : list (string * string)) : bool :=
  match tagsGet tags VALIDATE with
  | Some name => existsb (String.eqb "required") (strings.Split name ",")
  | None => false
  end.

Definition isBuiltinType (k : reflect.Kind) : bool :=
  match k with
  | reflect.Bool | reflect.Int | reflect.Int8 | reflect.Int16 | reflect.Int32
  | reflect.Int64 | reflect.Uint | reflect.Uint8 | reflect.Uint16
  | reflect.Uint32 | reflect.Uint64 | reflect.Uintptr | reflect.Float32
  | reflect.Float64 | reflect.Complex64 | reflect.Complex128 | reflect.String
  | reflect.UnsafePointer => true
  | _ => false
  end.

(** ** The schema document, as package [openapi3] of kin-openapi has it

    Only the fields the walker writes are kept.  [Min] is a [*float64] in the
    library; the walker only ever stores a pointer to [0]. *)

Module openapi3.

Record SchemaRefOf (S : Type) := mkSchemaRef { Ref : string; Value : option S }.
Arguments mkSchemaRef {S}.
Arguments Ref {S}.
Arguments Value {S}.

#[local] Unset Elimination Schemes.
Inductive Schema := mkSchema {
  Types : list string;
  Format : string;
  Title : string;
  Description : string;
  Default : option string;
  Enum : list Const;
  Min : option Z;
  Items : option (SchemaRefOf Schema);
  Properties : gmap string (SchemaRefOf Schema);
  Required : list string;
  AdditionalPropertiesHas : option bool;
  AdditionalPropertiesSchema : option (SchemaRefOf Schema);
  XEnumVarnames : option (list string)
}.
#[local] Set Elimination Schemes.

Abbreviation SchemaRef := (SchemaRefOf Schema).

Definition NewSchemaRef (ref : string) (value : option Schema) : SchemaRef :=
  mkSchemaRef ref value.

Definition NewSchema (ty : list string) (format : string) : Schema :=
  mkSchema ty format EmptyString EmptyString None [] None None ∅ [] None None None.

Definition TypeInteger := "integer".
Definition TypeNumber := "number".
Definition TypeString := "string".
Definition TypeBoolean := "boolean".
Definition TypeObject := "object".
Definition TypeArray := "array".

Definition NewIntegerSchema := NewSchema [TypeInteger] EmptyString.
Definition NewInt32Schema := NewSchema [TypeInteger] "int32".
Definition NewInt64Schema := NewSchema [TypeInteger] "int64".
Definition NewFloat64Schema := NewSchema [TypeNumber] EmptyString.
Definition NewStringSchema := NewSchema [TypeString] EmptyString.
Definition NewBoolSchema := NewSchema [TypeBoolean] EmptyString.
Definition NewDateTimeSchema := NewSchema [TypeString] "date-time".
Definition NewBytesSchema := NewSchema [TypeString] "byte".
Definition NewObjectSchema := NewSchema [TypeObject] EmptyString.
Definition NewArraySchema := NewSchema [TypeArray] EmptyString.

(** Assignments to the fields of a schema. *)
Definition setTypes (v : list string) (s : Schema) : Schema :=
  mkSchema v (Format s) (Title s) (Description s) (Default s) (Enum s) (Min s)
    (Items s) (Properties s) (Required s) (AdditionalPropertiesHas s)
    (AdditionalPropertiesSchema s) (XEnumVarnames s).
Definition setFormat (v : string) (s : Schema) : Schema :=
  mkSchema (Types s) v (Title s) (Description s) (Default s) (Enum s) (Min s)
    (Items s) (Properties s) (Required s) (AdditionalPropertiesHas s)
    (AdditionalPropertiesSchema s) (XEnumVarnames s).
Definition setTitle (v : string) (s : Schema) : Schema :=
  mkSchema (Types s) (Format s) v (Description s) (Default s) (Enum s) (Min s)
    (Items s) (Properties s) (Required s) (AdditionalPropertiesHas s)
    (AdditionalPropertiesSchema s) (XEnumVarnames s).
Definition setDescription (v : string) (s : Schema) : Schema :=
  mkSchema (Types s) (Format s) (Title s) v (Default s) (Enum s) (Min s)
    (Items s) (Properties s) (Required s) (AdditionalPropertiesHas s)
    (AdditionalPropertiesSchema s) (XEnumVarnames s).
Definition setDefault (v : option string) (s : Schema) : Schema :=
  mkSchema (Types s) (Format s) (Title s) (Description s) v (Enum s) (Min s)
    (Items s) (Properties s) (Required s) (AdditionalPropertiesHas s)
    (AdditionalPropertiesSchema s) (XEnumVarnames s).
Definition setEnum (v : list Const) (s : Schema) : Schema :=
  mkSchema (Types s) (Format s) (Title s) (Description s) (Default s) v (Min s)
    (Items s) (Properties s) (Required s) (AdditionalPropertiesHas s)
    (AdditionalPropertiesSchema s) (XEnumVarnames s).
Definition setMin (v : option Z) (s : Schema) : Schema :=
  mkSchema (Types s) (Format s) (Title s) (Description s) (Default s) (Enum s) v
    (Items s) (Properties s) (Required s) (AdditionalPropertiesHas s)
    (AdditionalPropertiesSchema s) (XEnumVarnames s).
Definition setItems (v : option SchemaRef) (s : Schema) : Schema :=
  mkSchema (Types s) (Format s) (Title s) (Description s) (Default s) (Enum s)
    (Min s) v (Properties s) (Required s) (AdditionalPropertiesHas s)
    (AdditionalPropertiesSchema s) (XEnumVarnames s).
Definition setProperties (v : gmap string SchemaRef) (s : Schema) : Schema :=
  mkSchema (Types s) (Format s) (Title s) (Description s) (Default s) (Enum s)
    (Min s) (Items s) v (Required s) (AdditionalPropertiesHas s)
    (AdditionalPropertiesSchema s) (XEnumVarnames s).
Definition setRequired (v : list string) (s : Schema) : Schema :=
  mkSchema (Types s) (Format s) (Title s) (Description s) (Default s) (Enum s)
    (Min s) (Items s) (Properties s) v (AdditionalPropertiesHas s)
    (AdditionalPropertiesSchema s) (XEnumVarnames s).
Definition setAdditionalProperties (has : option bool) (v : option SchemaRef)
    (s : Schema) : Schema :=
  mkSchema (Types s) (Format s) (Title s) (Description s) (Default s) (Enum s)
    (Min s) (Items s) (Properties s) (Required s) has v (XEnumVarnames s).
Definition setXEnumVarnames (v : option (list string)) (s : Schema) : Schema :=
  mkSchema (Types s) (Format s) (Title s) (Description s) (Default s) (Enum s)
    (Min s) (Items s) (Properties s) (Required s) (AdditionalPropertiesHas s)
    (AdditionalPropertiesSchema s) v.

(** [schema.Properties[name] = ref] *)
Definition setProperty (name : string) (ref : SchemaRef) (s : Schema) : Schema :=
  setProperties (<[name := ref]> (Properties s)) s.

Definition ParameterInQuery := "query".
Definition ParameterInPath := "path".
Definition ParameterInHeader := "header".
Definition ParameterInCookie := "cookie".

Record Parameter_ := mkParameter {
  In : string;
  PName : string;
  PDescription : string;
  PRequired : bool;
  PSchema : option SchemaRef
}.

Record ParameterRef := mkParameterRef {
  PRef : string;
  PValue : Parameter_
}.

End openapi3.

Abbreviation Schema := openapi3.Schema.
Abbreviation SchemaRef := (openapi3.SchemaRefOf openapi3.Schema).

(** ** Results: a value, a panic, or a call that has not returned *)

Inductive result (A : Type) :=
  | Ok (a : A)
  | Panic (msg : string)
  | OutOfFuel.
Arguments Ok {A}.
Arguments Panic {A}.
Arguments OutOfFuel {A}.

#[global] Instance result_ret : MRet result := fun A a => Ok a.
#[global] Instance result_bind : MBind result := fun A B f m =>
  match m with
  | Ok a => f a
  | Panic msg => Panic msg
  | OutOfFuel => OutOfFuel
  end.

(** A [for] loop over the fields of a struct; a body that returns its state
    early is a [continue]. *)
Fixpoint forFields {St : Type} (body : St -> StructField -> result St)
    (fields : list StructField) (st : St) : result St :=
  match fields with
  | [] => Ok st
  | f :: fs => st' ← body st f; forFields body fs st'
  end.

(** ** The type classifier *)

Definition getBasicSchemaByType (typ : reflect.Kind) : option Schema :=
  let m := 0%Z in
  match typ with
  | reflect.Int | reflect.Int8 | reflect.Int16 =>
      Some openapi3.NewIntegerSchema
  | reflect.Uint | reflect.Uint8 | reflect.Uint16 =>
      Some (openapi3.setMin (Some m) openapi3.NewIntegerSchema)
  | reflect.Int32 => Some openapi3.NewInt32Schema
  | reflect.Uint32 => Some (openapi3.setMin (Some m) openapi3.NewInt32Schema)
  | reflect.Int64 => Some openapi3.NewInt64Schema
  | reflect.Uint64 => Some (openapi3.setMin (Some m) openapi3.NewInt64Schema)
  | reflect.String => Some openapi3.NewStringSchema
  | reflect.Float32 => Some (openapi3.setFormat "float" openapi3.NewFloat64Schema)
  | reflect.Float64 => Some (openapi3.setFormat "double" openapi3.NewFloat64Schema)
  | reflect.Bool => Some openapi3.NewBoolSchema
  | _ => None
  end.

Definition NewEnumSchema (name : string) (kind : reflect.Kind) : result Schema :=
  match kind with
  | reflect.Bool => Ok openapi3.NewBoolSchema
  | reflect.Int8 | reflect.Int16 | reflect.Int
  | reflect.Uint8 | reflect.Uint16 | reflect.Uint => Ok openapi3.NewIntegerSchema
  | reflect.Int32 | reflect.Uint32 => Ok openapi3.NewInt32Schema
  | reflect.Int64 | reflect.Uint64 => Ok openapi3.NewInt64Schema
  | reflect.Float32 => Ok (openapi3.setFormat "float" openapi3.NewFloat64Schema)
  | reflect.Float64 => Ok (openapi3.setFormat "double" openapi3.NewFloat64Schema)
  | reflect.String => Ok openapi3.NewStringSchema
  | _ => Panic ("'" +:+ name +:+ "' invalid Enum type")
  end.

(** ** The registry and the validator

    [swagger.OpenAPI.Components.Schemas] and the table of custom type
    functions of [router.Validate].  The function that [getSchemaByValue]
    registers is a closure over the name and the kind of the enumerable type
    and over the set of its values; it is kept as those three.

    [Stored] is not a field of the source: it keeps, latest first, the
    stores [Schemas[k] = v] in the order in which they happen.  No function
    reads it; it is there for the properties that speak of what a synthesis
    stored. *)

Record CustomTypeFunc := {
  ctfName : string;
  ctfKind : reflect.Kind;
  valMap : list Const
}.

Record Swagger := mkSwagger {
  Schemas : gmap string SchemaRef;
  Validate : list (GoType * CustomTypeFunc);
  Stored : list (string * SchemaRef)
}.

Definition setSchema (k : string) (v : SchemaRef) (swagger : Swagger) : Swagger :=
  mkSwagger (<[k := v]> (Schemas swagger)) (Validate swagger)
    ((k, v) :: Stored swagger).

(** [RegisterCustomTypeFunc(fn, types...)]: [customFuncs[reflect.TypeOf(t)] =
    fn] for each [t]; the latest registration for a type is found first. *)
Definition RegisterCustomTypeFunc (fn : CustomTypeFunc) (types : list Const)
    (swagger : Swagger) : Swagger :=
  mkSwagger (Schemas swagger)
    (foldl (fun tbl t => (constType t, fn) :: tbl) (Validate swagger) types)
    (Stored swagger).

(** The test of the loop of [checkSchemaExist]. *)
Definition titled (name : string) (schema : SchemaRef) : bool :=
  match openapi3.Value schema with
  | Some v => String.eqb (openapi3.Title v) name
  | None => false
  end.

(** The loop returns true at the first entry that passes the test, in
    whatever order [range] visits the map. *)
Definition checkSchemaExist (swagger : Swagger) (name : string) : bool :=
  existsb (fun kv => titled name (snd kv)) (map_to_list (Schemas swagger)).

(** ** The value and type walker *)

(** The cases of the type switch of [getSchemaByValue], in its order.  Only
    the predeclared types match the basic cases: a declared type such as
    [type Color int] does not match [case int].  A pointer to an enumerable
    type has [Enums] in its method set too, and calling it through a nil
    pointer panics. *)
Inductive TypeCase :=
  | CaseInt | CaseUint | CaseInt32 | CaseUint32 | CaseInt64 | CaseUint64
  | CaseString | CaseTime | CaseFloat32 | CaseFloat64 | CaseBool | CaseBytes
  | CaseFileHeader | CaseFileHeaders
  | CaseEnumAble (val : GoType) (valEnums : list (string * Const))
  | CaseEnumAbleNil
  | CaseDefault.

Section Walker.

Variable env : TypeEnv.

Definition typeSwitch (t : option GoType) : TypeCase :=
  match t with
  | None => CaseDefault
  | Some val =>
      match val with
      | TPrim reflect.Int | TPrim reflect.Int8 | TPrim reflect.Int16 => CaseInt
      | TPrim reflect.Uint | TPrim reflect.Uint8 | TPrim reflect.Uint16 => CaseUint
      | TPrim reflect.Int32 => CaseInt32
      | TPrim reflect.Uint32 => CaseUint32
      | TPrim reflect.Int64 => CaseInt64
      | TPrim reflect.Uint64 => CaseUint64
      | TPrim reflect.String => CaseString
      | TPrim reflect.Float32 => CaseFloat32
      | TPrim reflect.Float64 => CaseFloat64
      | TPrim reflect.Bool => CaseBool
      | _ =>
          if decide (val = time_Time) then CaseTime
          else if decide (val = bytes_t) then CaseBytes
          else if decide (val = TPtr multipart_FileHeader) then CaseFileHeader
          else if decide (val = TSlice (TPtr multipart_FileHeader)) then CaseFileHeaders
          else match val with
               | TNamed n =>
                   match Enums (env n) with
                   | Some valEnums => CaseEnumAble val valEnums
                   | None => CaseDefault
                   end
               | TPtr (TNamed n) =>
                   match Enums (env n) with
                   | Some _ => CaseEnumAbleNil
                   | None => CaseDefault
                   end
               | _ => CaseDefault
               end
      end
  end.

(** [t.Elem()] *)
Definition Elem (t : GoType) : result GoType :=
  match elemOf env t with
  | Some e => Ok e
  | None => Panic "reflect: Elem of invalid type"
  end.

(** [if t.Kind() == reflect.Ptr { t = t.Elem() }] *)
Definition deref (t : GoType) : result GoType :=
  if decide (kindOf env t = reflect.Ptr) then Elem t else Ok t.

(** [structtag.Parse(string(field.Tag))], with the panic of the walker on
    its error. *)
Definition parseTag (field : StructField) : result (list (string * string)) :=
  match Tag field with
  | Some tags => Ok tags
  | None => Panic "structtag: bad syntax for struct tag"
  end.

(** [fieldvalue.Interface()] after the dereference of the field loops: a nil
    pointer was replaced by a fresh [reflect.New(fieldType)], which may be
    read whatever the field; the value of an unexported field may not. *)
Definition derefInterface (field : StructField) (fieldType : GoType)
    : result (option GoType) :=
  if decide (kindOf env (Typ field) = reflect.Ptr) then Ok (zeroOf env fieldType)
  else if IsExported field then Ok (zeroOf env fieldType)
  else Panic "reflect.Value.Interface: unexported field".

(** [value_.Field(i).Interface()] *)
Definition fieldInterface (field : StructField) : result (option GoType) :=
  if IsExported field then Ok (zeroOf env (Typ field))
  else Panic "reflect.Value.Interface: unexported field".

(** The description and default annotations overwrite the attributes of the
    schema of the field. *)
Definition applyDescription (tags : list (string * string)) (s : Schema) : Schema :=
  match tagsGet tags DESCRIPTION with
  | Some d => openapi3.setDescription d s
  | None => s
  end.

Definition applyDefault (tags : list (string * string)) (s : Schema) : Schema :=
  match tagsGet tags DEFAULT with
  | Some d => openapi3.setDefault (Some d) s
  | None => s
  end.

Definition nilModelSchema : Schema :=
  openapi3.setItems (Some (openapi3.mkSchemaRef EmptyString (Some openapi3.NewObjectSchema)))
    openapi3.NewObjectSchema.

Definition binarySchema : Schema :=
  openapi3.NewSchema [openapi3.TypeString] "binary".

(** The [EnumAble] case of the type switch: the schema of the enumerable
    type is built, stored in the registry under the name of the type, and
    the coercion of its values is registered with the validator.

    The entry is the schema as it is when the case returns.  In the source
    the entry and the schema returned are one object, so the description
    and the default that a caller writes into the schema afterwards show in
    the entry too; these later writes are not followed here. *)
Definition enumSchema (swagger : Swagger) (typ_ : GoType)
    (valEnums : list (string * Const)) : result (Swagger * (string * Schema)) :=
  let name := nameOf typ_ in
  let enums := snd <$> valEnums in
  let names := fst <$> valEnums in
  let ref := generateRefName name in
  schema ← NewEnumSchema name (kindOf env typ_);
  let schema := openapi3.setTitle name schema in
  let schema := openapi3.setEnum enums schema in
  let schema := openapi3.setXEnumVarnames (Some names) schema in
  let swagger :=
    setSchema name (openapi3.NewSchemaRef EmptyString (Some schema)) swagger in
  let swagger :=
    RegisterCustomTypeFunc
      {| ctfName := name; ctfKind := kindOf env typ_; valMap := enums |}
      enums swagger in
  Ok (swagger, (ref, schema)).

(** The signature of [getSchemaByValue] and of the two walkers of a model,
    and that of [getComponentByModel], once their fuel is given: the bodies
    of the field loops below take the functions they call in this form. *)
Definition SchemaWalker : Type :=
  Swagger -> option GoType -> result (Swagger * (string * Schema)).
Definition ComponentWalker : Type :=
  Swagger -> option GoType -> result Swagger.

(** The body of the field loop of [getRequestSchemaByModel]. *)
Definition requestField (getSchemaByValue : SchemaWalker)
    (st : Swagger * Schema) (field : StructField) : result (Swagger * Schema) :=
  let '(swagger, schema) := st in
  tags ← parseTag field;
  match tagsGet tags FORM with
  | None => Ok (swagger, schema)
  | Some tagName =>
      fieldType ← deref (Typ field);
      fieldvalue ← derefInterface field fieldType;
      '(swagger, (fieldRef, fieldSchema)) ← getSchemaByValue swagger fieldvalue;
      let fieldSchema := applyDescription tags fieldSchema in
      let fieldSchema := applyDefault tags fieldSchema in
      Ok (swagger,
          openapi3.setProperty tagName
            (openapi3.NewSchemaRef fieldRef (Some fieldSchema)) schema)
  end.

(** The body of the field loop of [getResponseSchemaByModel]. *)
Definition responseField (getSchemaByValue : SchemaWalker)
    (st : Swagger * Schema) (fieldType : StructField) : result (Swagger * Schema) :=
  let '(swagger, schema) := st in
  if IsExported fieldType then
    '(swagger, (fieldRef, fieldSchema)) ←
      getSchemaByValue swagger (zeroOf env (Typ fieldType));
    tags ← parseTag fieldType;
    match tagsGet tags JSON with
    | None => Ok (swagger, schema)
    | Some tagName =>
        let schema :=
          if isRequiredTags tags
          then openapi3.setRequired (openapi3.Required schema ++ [tagName])%list schema
          else schema in
        let fieldSchema := applyDescription tags fieldSchema in
        let fieldSchema := applyDefault tags fieldSchema in
        Ok (swagger,
            openapi3.setProperty tagName
              (openapi3.NewSchemaRef fieldRef (Some fieldSchema)) schema)
    end
  else Ok (swagger, schema).

Fixpoint getSchemaByValue (fuel : nat) (swagger : Swagger) (t : option GoType)
    (request : bool) {struct fuel} : result (Swagger * (string * Schema)) :=
  match fuel with
  | O => OutOfFuel
  | S fuel =>
    let m := 0%Z in
    match typeSwitch t with
    | CaseInt => Ok (swagger, (EmptyString, openapi3.NewIntegerSchema))
    | CaseUint =>
        Ok (swagger, (EmptyString, openapi3.setMin (Some m) openapi3.NewIntegerSchema))
    | CaseInt32 => Ok (swagger, (EmptyString, openapi3.NewInt32Schema))
    | CaseUint32 =>
        Ok (swagger, (EmptyString, openapi3.setMin (Some m) openapi3.NewInt32Schema))
    | CaseInt64 => Ok (swagger, (EmptyString, openapi3.NewInt64Schema))
    | CaseUint64 =>
        Ok (swagger, (EmptyString, openapi3.setMin (Some m) openapi3.NewInt64Schema))
    | CaseString => Ok (swagger, (EmptyString, openapi3.NewStringSchema))
    | CaseTime => Ok (swagger, (EmptyString, openapi3.NewDateTimeSchema))
    | CaseFloat32 =>
        Ok (swagger, (EmptyString, openapi3.setFormat "float" openapi3.NewFloat64Schema))
    | CaseFloat64 =>
        Ok (swagger, (EmptyString, openapi3.setFormat "double" openapi3.NewFloat64Schema))
    | CaseBool => Ok (swagger, (EmptyString, openapi3.NewBoolSchema))
    | CaseBytes => Ok (swagger, (EmptyString, openapi3.NewBytesSchema))
    | CaseFileHeader =>
        Ok (swagger, (EmptyString, openapi3.setFormat "binary" openapi3.NewStringSchema))
    | CaseFileHeaders =>
        Ok (swagger, (EmptyString,
              openapi3.setItems (Some (openapi3.mkSchemaRef EmptyString (Some binarySchema)))
                openapi3.NewArraySchema))
    | CaseEnumAble typ_ valEnums => enumSchema swagger typ_ valEnums
    | CaseEnumAbleNil =>
        Panic "value method Enums called using nil pointer"
    | CaseDefault =>
        if request then getRequestSchemaByModel fuel swagger t
        else getResponseSchemaByModel fuel swagger t
    end
  end

with getRequestSchemaByModel (fuel : nat) (swagger : Swagger)
    (model : option GoType) {struct fuel} : result (Swagger * (string * Schema)) :=
  match fuel with
  | O => OutOfFuel
  | S fuel =>
    match model with
    | None => Ok (swagger, (EmptyString, nilModelSchema))
    | Some mt =>
      type_ ← deref mt;
      match kindOf env type_ with
      | reflect.Struct =>
          '(swagger, schema) ←
            forFields
              (requestField (fun swagger t => getSchemaByValue fuel swagger t true))
              (default [] (fieldsOf env type_)) (swagger, openapi3.NewObjectSchema);
          Ok (swagger, (EmptyString, schema))
      | reflect.Slice =>
          elem ← Elem type_;
          '(swagger, (ref, refSchema)) ←
            getRequestSchemaByModel fuel swagger (zeroOf env elem);
          Ok (swagger, (EmptyString,
                openapi3.setItems (Some (openapi3.mkSchemaRef ref (Some refSchema)))
                  openapi3.NewArraySchema))
      | reflect.Map =>
          elem ← Elem type_;
          '(swagger, (ref, refSchema)) ←
            getRequestSchemaByModel fuel swagger (zeroOf env elem);
          Ok (swagger, (EmptyString,
                openapi3.setItems (Some (openapi3.mkSchemaRef ref (Some refSchema)))
                  openapi3.NewObjectSchema))
      | _ => getSchemaByValue fuel swagger model true
      end
    end
  end

with getResponseSchemaByModel (fuel : nat) (swagger : Swagger)
    (model : option GoType) {struct fuel} : result (Swagger * (string * Schema)) :=
  match fuel with
  | O => OutOfFuel
  | S fuel =>
    match model with
    | None => Ok (swagger, (EmptyString, nilModelSchema))
    | Some mt =>
      type_ ← deref mt;
      match kindOf env type_ with
      | reflect.Struct =>
          let ref := generateRefName (nameOf type_) in
          '(swagger, schema) ←
            forFields
              (responseField (fun swagger t => getSchemaByValue fuel swagger t false))
              (default [] (fieldsOf env type_)) (swagger, openapi3.NewObjectSchema);
          Ok (swagger, (ref, schema))
      | reflect.Slice =>
          elem ← Elem type_;
          '(swagger, (ref, schemaRef)) ←
            getResponseSchemaByModel fuel swagger (zeroOf env elem);
          Ok (swagger, (EmptyString,
                openapi3.setItems (Some (openapi3.mkSchemaRef ref (Some schemaRef)))
                  openapi3.NewArraySchema))
      | reflect.Map =>
          elem ← Elem type_;
          '(swagger, (ref, schemaRef)) ←
            getResponseSchemaByModel fuel swagger (zeroOf env elem);
          Ok (swagger, (EmptyString,
                openapi3.setItems (Some (openapi3.mkSchemaRef ref (Some schemaRef)))
                  openapi3.NewObjectSchema))
      | _ => getSchemaByValue fuel swagger (zeroOf env type_) false
      end
    end
  end.

(** ** Components *)

(** The schema a struct field of kind map gets: a dictionary, whose
    [additionalProperties] describe the values. *)
Definition mapFieldSchema (has : option bool) (ap : option SchemaRef) : Schema :=
  openapi3.setAdditionalProperties has ap openapi3.NewObjectSchema.

(** [if !swagger.checkSchemaExist(name) { swagger.getComponentByModel(model,
    isRequest) }] *)
Definition unlessExists (getComponentByModel : ComponentWalker)
    (swagger : Swagger) (name : string) (model : option GoType) : result Swagger :=
  if negb (checkSchemaExist swagger name) then getComponentByModel swagger model
  else Ok swagger.

(** The name a field gets in the component of its struct. *)
Definition componentFieldName (isRequest : bool) (tags : list (string * string))
    (field : StructField) : string :=
  if isRequest then default EmptyString (tagsGet tags FORM)
  else match tagsGet tags JSON with
       | Some jsonName => jsonName
       | None => Name field
       end.

(** The body of the field loop of [getComponentByModel]. *)
Definition componentField (getSchemaByValue : SchemaWalker)
    (getComponentByModel : ComponentWalker) (isRequest : bool)
    (st : Swagger * Schema) (field : StructField) : result (Swagger * Schema) :=
  let '(swagger, schema) := st in
  tags ← parseTag field;
  let tag := tagsGet tags FORM in
  if bool_decide (tag = None) && isRequest then Ok (swagger, schema)
  else
    fieldType ← deref (Typ field);
    let fieldName := componentFieldName isRequest tags field in
    let schema :=
      if isRequiredTags tags
      then openapi3.setRequired (openapi3.Required schema ++ [fieldName])%list schema
      else schema in
    match kindOf env fieldType with
    | reflect.Struct =>
        if String.eqb (nameOf fieldType) "Time" then
          fieldvalue ← derefInterface field fieldType;
          '(swagger, (fieldRef, fieldSchema)) ← getSchemaByValue swagger fieldvalue;
          let fieldSchema := openapi3.setFormat "date-time" fieldSchema in
          let fieldSchema := openapi3.setTypes [openapi3.TypeString] fieldSchema in
          Ok (swagger,
              openapi3.setProperty fieldName
                (openapi3.NewSchemaRef fieldRef (Some fieldSchema)) schema)
        else
          swagger ←
            unlessExists getComponentByModel swagger (nameOf fieldType)
              (zeroOf env fieldType);
          let fieldSchemaRef :=
            openapi3.NewSchemaRef (generateRefName (nameOf fieldType)) None in
          Ok (swagger, openapi3.setProperty fieldName fieldSchemaRef schema)
    | reflect.Slice =>
        fieldvalue ← derefInterface field fieldType;
        '(swagger, (fieldRef, fieldSchema)) ← getSchemaByValue swagger fieldvalue;
        elem ← Elem fieldType;
        if negb (isBuiltinType (kindOf env elem)) then
          let subFieldValue := zeroOf env elem in
          match subFieldValue with
          | None => Panic "invalid memory address or nil pointer dereference"
          | Some subFieldType =>
              subFieldType ← deref subFieldType;
              swagger ←
                unlessExists getComponentByModel swagger (nameOf subFieldType)
                  subFieldValue;
              let fieldSchemaRef :=
                openapi3.NewSchemaRef (generateRefName (nameOf subFieldType)) None in
              let fieldSchema := openapi3.setItems (Some fieldSchemaRef) fieldSchema in
              Ok (swagger,
                  openapi3.setProperty fieldName
                    (openapi3.NewSchemaRef fieldRef (Some fieldSchema)) schema)
          end
        else
          let fieldSchema := applyDescription tags fieldSchema in
          let fieldSchema := applyDefault tags fieldSchema in
          Ok (swagger,
              openapi3.setProperty fieldName
                (openapi3.NewSchemaRef fieldRef (Some fieldSchema)) schema)
    | reflect.Map =>
        mapValueType ← Elem fieldType;
        '(swagger, fieldSchema) ←
          match kindOf env mapValueType with
          | reflect.Interface => Ok (swagger, mapFieldSchema (Some true) None)
          | reflect.Struct =>
              swagger ←
                unlessExists getComponentByModel swagger (nameOf mapValueType)
                  (zeroOf env mapValueType);
              Ok (swagger,
                  mapFieldSchema None
                    (Some (openapi3.NewSchemaRef
                             (generateRefName (nameOf mapValueType)) None)))
          | kind =>
              let schema := getBasicSchemaByType kind in
              Ok (swagger,
                  mapFieldSchema None (Some (openapi3.NewSchemaRef EmptyString schema)))
          end;
        Ok (swagger,
            openapi3.setProperty fieldName
              (openapi3.NewSchemaRef EmptyString (Some fieldSchema)) schema)
    | reflect.Interface =>
        Ok (swagger,
            openapi3.setProperty fieldName
              (openapi3.NewSchemaRef EmptyString (Some openapi3.NewObjectSchema))
              schema)
    | _ =>
        fieldvalue ← derefInterface field fieldType;
        '(swagger, (fieldRef, fieldSchema)) ← getSchemaByValue swagger fieldvalue;
        let fieldSchema := applyDescription tags fieldSchema in
        let fieldSchema := applyDefault tags fieldSchema in
        Ok (swagger,
            openapi3.setProperty fieldName
              (openapi3.NewSchemaRef fieldRef (Some fieldSchema)) schema)
    end.

(** The end of [getComponentByModel]: the schema gets its title and is
    stored under it. *)
Definition registerComponent (type_ : GoType) (st : Swagger * Schema) : Swagger :=
  let '(swagger, schema) := st in
  let schema := openapi3.setTitle (removePackageName (nameOf type_)) schema in
  setSchema (openapi3.Title schema)
    (openapi3.mkSchemaRef EmptyString (Some schema)) swagger.

Fixpoint getComponentByModel (fuel : nat) (swagger : Swagger)
    (model : option GoType) (isRequest : bool) {struct fuel} : result Swagger :=
  match fuel with
  | O => OutOfFuel
  | S fuel =>
    match model with
    | None => Ok swagger
    | Some mt =>
      type_ ← deref mt;
      st ←
        (if decide (kindOf env type_ = reflect.Struct) then
           forFields
             (componentField
                (fun swagger t => getSchemaByValue fuel swagger t isRequest)
                (fun swagger model => getComponentByModel fuel swagger model isRequest)
                isRequest)
             (default [] (fieldsOf env type_)) (swagger, openapi3.NewObjectSchema)
         else Ok (swagger, openapi3.NewObjectSchema));
      Ok (registerComponent type_ st)
    end
  end.

(** ** The parameter extractor *)

Definition setLocation (location name : string) (p : openapi3.Parameter_)
    : openapi3.Parameter_ :=
  openapi3.mkParameter location name (openapi3.PDescription p)
    (openapi3.PRequired p) (openapi3.PSchema p).

(** The four location annotations, examined one after the other, each one
    that is present assigning the location and the name. *)
Definition locate (tags : list (string * string)) : openapi3.Parameter_ :=
  let parameter := openapi3.mkParameter EmptyString EmptyString EmptyString false None in
  let parameter :=
    match tagsGet tags QUERY with
    | Some name => setLocation openapi3.ParameterInQuery name parameter
    | None => parameter
    end in
  let parameter :=
    match tagsGet tags URI with
    | Some name => setLocation openapi3.ParameterInPath name parameter
    | None => parameter
    end in
  let parameter :=
    match tagsGet tags HEADER with
    | Some name => setLocation openapi3.ParameterInHeader name parameter
    | None => parameter
    end in
  match tagsGet tags COOKIE with
  | Some name => setLocation openapi3.ParameterInCookie name parameter
  | None => parameter
  end.

(** The body of the field loop of [getParametersByModel]. *)
Definition parameterField (getSchemaByValue : SchemaWalker)
    (st : Swagger * list openapi3.ParameterRef) (field : StructField)
    : result (Swagger * list openapi3.ParameterRef) :=
  let '(swagger, parameters) := st in
  tags ← parseTag field;
  let parameter := locate tags in
  if String.eqb (openapi3.In parameter) EmptyString then Ok (swagger, parameters)
  else
    let description :=
      default (openapi3.PDescription parameter) (tagsGet tags DESCRIPTION) in
    let required := isRequiredTags tags || openapi3.PRequired parameter in
    value ← fieldInterface field;
    '(swagger, (ref, schema)) ← getSchemaByValue swagger value;
    let schema := applyDefault tags schema in
    let parameter :=
      openapi3.mkParameter (openapi3.In parameter) (openapi3.PName parameter)
        description required
        (Some (openapi3.mkSchemaRef EmptyString (Some schema))) in
    Ok (swagger, (parameters ++ [openapi3.mkParameterRef ref parameter])%list).

Definition getParametersByModel (fuel : nat) (swagger : Swagger)
    (model : option GoType) : result (Swagger * list openapi3.ParameterRef) :=
  let parameters := [] in
  match model with
  | None => Ok (swagger, parameters)
  | Some mt =>
    type_ ← deref mt;
    match fieldsOf env type_ with
    | None => Panic "reflect: NumField of non-struct type"
    | Some fields =>
        forFields
          (parameterField (fun swagger t => getSchemaByValue fuel swagger t true))
          fields (swagger, parameters)
    end
  end.

End Walker.

(** ** The coercion registered for an enumerable type *)

Section Coercion.

(** The conversions [gconv.Bool], [gconv.Int8], ... of the gf library, which
    is not part of the repository, by the kind they convert to. *)
Variable gconv : reflect.Kind -> Const -> Const.

Definition GetEnumVal (name : string) (kind : reflect.Kind) (val : Const)
    : result Const :=
  match kind with
  | reflect.Bool | reflect.Int8 | reflect.Int16 | reflect.Int
  | reflect.Uint8 | reflect.Uint16 | reflect.Uint
  | reflect.Int32 | reflect.Uint32 | reflect.Int64 | reflect.Uint64
  | reflect.Float32 | reflect.Float64 | reflect.String => Ok (gconv kind val)
  | _ => Panic ("'" +:+ name +:+ "' invalid Enum val")
  end.

(** The body of the function [getSchemaByValue] registers, applied to
    [field.Interface()]. *)
Definition callCustomTypeFunc (fn : CustomTypeFunc) (val : Const) : result Const :=
  if bool_decide (val ∈ valMap fn) then GetEnumVal (ctfName fn) (ctfKind fn) val
  else Panic ("enum '" +:+ ctfName fn +:+ "' invalid value").

(** The function the validator calls for a field of a type: the latest one
    registered for it. *)
Definition customTypeFunc (swagger : Swagger) (t : GoType) : option CustomTypeFunc :=
  snd <$> List.find (fun e => bool_decide (fst e = t)) (Validate swagger).

End Coercion.

(** * Properties *)

Local Open Scope list_scope.

(** ** Primitive classification *)




(** ** Path templates *)

(** A path template read as its positional segments: each is a name, written
    [/:name] in the router's form and [/{name}] in the document's, followed
    by the literal text up to the next one. *)
Fixpoint colonForm (segs : list (string * string)) : string :=
  match segs with
  | [] => EmptyString
  | (name, lit) :: segs => "/:" +:+ name +:+ lit +:+ colonForm segs
  end.

Fixpoint braceForm (segs : list (string * string)) : string :=
  match segs with
  | [] => EmptyString
  | (name, lit) :: segs => "/{" +:+ name +:+ "}" +:+ lit +:+ braceForm segs
  end.

Fixpoint allAlnum (s : string) : bool :=
  match s with
  | EmptyString => true
  | String c r => isAlnum c && allAlnum r
  end.

Definition startsAlnum (s : string) : bool :=
  match s with
  | String c _ => isAlnum c
  | EmptyString => false
  end.

(** The text holds a slash, a colon and an alphanumeric byte in a row. *)
Fixpoint hasSegment (s : string) : bool :=
  match s with
  | EmptyString => false
  | String c r =>
      (Ascii.eqb c "/" &&
       match r with String ":" (String d _) => isAlnum d | _ => false end)
      || hasSegment r
  end.

(** A name is a non-empty run of alphanumeric bytes that the text after it
    does not continue, and that text holds no segment of its own. *)
Definition segmentOk (seg : string * string) : Prop :=
  fst seg ≠ EmptyString ∧ allAlnum (fst seg) = true
  ∧ startsAlnum (snd seg) = false ∧ hasSegment (snd seg) = false.

(** ** Names of instantiated generic types *)


(** ** Parameters *)

(** The location the four annotations leave a parameter with: each
    annotation that is present overrides the ones examined before it, so the
    last present of query, path, header and cookie decides. *)
Definition locationOf (tags : list (string * string)) : option (string * string) :=
  match tagsGet tags COOKIE with
  | Some name => Some ("cookie", name)
  | None =>
      match tagsGet tags HEADER with
      | Some name => Some ("header", name)
      | None =>
          match tagsGet tags URI with
          | Some name => Some ("path", name)
          | None =>
              match tagsGet tags QUERY with
              | Some name => Some ("query", name)
              | None => None
              end
          end
      end
  end.

Definition fieldLocation (field : StructField) : option (string * string) :=
  tags ← Tag field; locationOf tags.

Definition parameterLocation (p : openapi3.ParameterRef) : string * string :=
  (openapi3.In (openapi3.PValue p), openapi3.PName (openapi3.PValue p)).

(** A request model whose one field of interest carries a query and a header
    annotation at once. *)
Definition tokenEnv : TypeEnv := fun name =>
  if String.eqb name "Search" then
    {| underlying := UStruct
         [ {| Name := "Token"; Typ := TPrim reflect.String;
              Tag := Some [("query", "token"); ("header", "X-Token")] |};
           {| Name := "Page"; Typ := TPrim reflect.Int;
              Tag := Some [("query", "page")] |};
           {| Name := "Note"; Typ := TPrim reflect.String;
              Tag := Some [("json", "note")] |} ];
       Enums := None |}
  else {| underlying := UStruct []; Enums := None |}.

Definition emptySwagger : Swagger := mkSwagger ∅ [] [].

(** ** Field names in outbound traversal *)

(** The key of an exported field in a response schema: the name its
    serialized-name annotation gives, when it has one. *)
Definition jsonName (field : StructField) : option string :=
  if IsExported field then tags ← Tag field; tagsGet tags JSON else None.

(** The key of a field in the component of a response model. *)
Definition outboundName (field : StructField) : string :=
  componentFieldName false (default [] (Tag field)) field.

(** A response model with a field that has no annotation. *)
Definition plainEnv : TypeEnv := fun name =>
  if String.eqb name "Plain" then
    {| underlying := UStruct
         [ {| Name := "Code"; Typ := TPrim reflect.Int; Tag := Some [] |};
           {| Name := "Message"; Typ := TPrim reflect.String;
              Tag := Some [("json", "message")] |} ];
       Enums := None |}
  else {| underlying := UStruct []; Enums := None |}.

(** ** Enumerable types *)

(** [type Color int] with [Enums()] returning [{"A": Color(1), "B":
    Color(2)}], the entries in one of the two orders [range] may visit
    them in. *)
Definition Color : GoType := TNamed "Color".

Definition colorEnv (valEnums : list (string * Const)) : TypeEnv := fun name =>
  if String.eqb name "Color" then
    {| underlying := UType (TPrim reflect.Int); Enums := Some valEnums |}
  else if String.eqb name "Paint" then
    {| underlying := UStruct
         [ {| Name := "Shade"; Typ := Color; Tag := Some [("json", "shade")] |} ];
       Enums := None |}
  else {| underlying := UStruct []; Enums := None |}.

Definition colorsAB : list (string * Const) :=
  [("A", CInt Color 1); ("B", CInt Color 2)].
Definition colorsBA : list (string * Const) :=
  [("B", CInt Color 2); ("A", CInt Color 1)].

(** A conversion as the gf library does it on integers: the number is kept
    and becomes a value of the predeclared type of the kind. *)
Definition convInt (kind : reflect.Kind) (val : Const) : Const :=
  match val with
  | CInt _ z => CInt (TPrim kind) z
  | _ => val
  end.

(** ** Cyclic types *)

(** [type Node struct { Next *Node }], and [Left] and [Right] that refer to
    each other. *)
Definition cyclicEnv : TypeEnv := fun name =>
  if String.eqb name "Node" then
    {| underlying := UStruct
         [ {| Name := "Next"; Typ := TPtr (TNamed "Node");
              Tag := Some [("json", "next"); ("form", "next")] |} ];
       Enums := None |}
  else if String.eqb name "Left" then
    {| underlying := UStruct
         [ {| Name := "Peer"; Typ := TPtr (TNamed "Right");
              Tag := Some [("json", "peer"); ("form", "peer")] |} ];
       Enums := None |}
  else if String.eqb name "Right" then
    {| underlying := UStruct
         [ {| Name := "Peer"; Typ := TPtr (TNamed "Left");
              Tag := Some [("json", "peer"); ("form", "peer")] |} ];
       Enums := None |}
  else {| underlying := UStruct []; Enums := None |}.

(** A struct whose first field refers to the struct [target], directly or
    through a pointer, and takes part in the traversal. *)
Definition firstFieldRefers (env : TypeEnv) (n target : string) (isRequest : bool)
    : Prop :=
  ∃ f rest tags,
    underlying (env n) = UStruct (f :: rest)
    ∧ (Typ f = TPtr (TNamed target) ∨ Typ f = TNamed target)
    ∧ Tag f = Some tags
    ∧ (isRequest = true -> tagsGet tags FORM ≠ None)
    ∧ (∃ fields, underlying (env target) = UStruct fields)
    ∧ target ≠ "Time".

(** ** The registry *)

(** An entry stored under its own title. *)
Definition keyedByTitle (k : string) (r : SchemaRef) : Prop :=
  ∃ v, openapi3.Value r = Some v ∧ openapi3.Title v = k.

(** Every entry of the registry is stored under its title. *)
Definition keyed (swagger : Swagger) : Prop :=
  ∀ k r, Schemas swagger !! k = Some r -> keyedByTitle k r.

(** Every entry of [after] is an entry of [before] or is stored under its
    title: what was inserted in between is. *)
Definition insertsKeyed (before after : Swagger) : Prop :=
  ∀ k r, Schemas after !! k = Some r ->
         Schemas before !! k = Some r ∨ keyedByTitle k r.

Definition schemaWalkerKeyed (gsv : SchemaWalker) : Prop :=
  ∀ swagger t swagger' x, gsv swagger t = Ok (swagger', x) -> insertsKeyed swagger swagger'.

Definition componentWalkerKeyed (gcm : ComponentWalker) : Prop :=
  ∀ swagger model swagger', gcm swagger model = Ok swagger' -> insertsKeyed swagger swagger'.

(** ** A second synthesis *)

(** The registry after the stores of [stores], the latest first, on [m]. *)
Definition replay (stores : list (string * SchemaRef))
    (m : gmap string SchemaRef) : gmap string SchemaRef :=
  foldr (fun e m => <[e.1 := e.2]> m) m stores.

(** From [before] to [after] the stores of [stores] happened, each under
    the title of its schema, and nothing else happened to the registry. *)
Definition grows (before after : Swagger) (stores : list (string * SchemaRef)) : Prop :=
  Stored after = stores ++ Stored before
  ∧ Schemas after = replay stores (Schemas before)
  ∧ ∀ k v, (k, v) ∈ stores -> keyedByTitle k v.

(** The registry holds every one of the stores. *)
Definition covers (swagger : Swagger) (stores : list (string * SchemaRef)) : Prop :=
  ∀ k v, (k, v) ∈ stores -> Schemas swagger !! k = Some v.

(** Every title the existence check finds in [a] it finds in [b]. *)
Definition titlesIncl (a b : Swagger) : Prop :=
  ∀ name, checkSchemaExist a name = true -> checkSchemaExist b name = true.

(** No two stores put different entries under one key. *)
Definition storesAgree (stores : list (string * SchemaRef)) : Prop :=
  ∀ k v v', (k, v) ∈ stores -> (k, v') ∈ stores -> v = v'.

(** A step of the synthesis is absorbed by the registries that hold what it
    stores: where it returns from some registry, it returns the same from
    any registry that holds its stores and has the titles of the first, and
    leaves the schemas of that registry as they are. *)
Definition absorbed {Y : Type} (step : Swagger -> result (Swagger * Y)) : Prop :=
  ∀ a b y, step a = Ok (b, y) ->
    ∃ stores, grows a b stores
      ∧ ∀ r, covers r stores -> titlesIncl a r ->
          ∃ r', step r = Ok (r', y) ∧ Schemas r' = Schemas r.

Definition absorbed0 (step : Swagger -> result Swagger) : Prop :=
  ∀ a b, step a = Ok b ->
    ∃ stores, grows a b stores
      ∧ ∀ r, covers r stores -> titlesIncl a r ->
          ∃ r', step r = Ok r' ∧ Schemas r' = Schemas r.

(** A response model in which two instantiations of one generic type, which
    get the same title, are reached at different depths. *)
Definition pairEnv : TypeEnv := fun name =>
  if String.eqb name "Report" then
    {| underlying := UStruct
         [ {| Name := "First"; Typ := TNamed "Pair[int,main.A]";
              Tag := Some [("json", "first")] |};
           {| Name := "Rest"; Typ := TNamed "Holder";
              Tag := Some [("json", "rest")] |} ];
       Enums := None |}
  else if String.eqb name "Holder" then
    {| underlying := UStruct
         [ {| Name := "Second"; Typ := TNamed "Pair[string,main.A]";
              Tag := Some [("json", "second")] |} ];
       Enums := None |}
  else if String.eqb name "Pair[int,main.A]" then
    {| underlying := UStruct
         [ {| Name := "Key"; Typ := TPrim reflect.Int; Tag := Some [("json", "key")] |} ];
       Enums := None |}
  else if String.eqb name "Pair[string,main.A]" then
    {| underlying := UStruct
         [ {| Name := "Key"; Typ := TPrim reflect.String; Tag := Some [("json", "key")] |} ];
       Enums := None |}
  else {| underlying := UStruct []; Enums := None |}.

(** A response model without enumerable types whose struct [Party] is
    reached twice:
    [type Invoice struct { Buyer Party `json:"buyer"`; Seller *Party
    `json:"seller"`; Lines []Line `json:"lines"` }],
    [type Party struct { Name string `json:"name"` }] and
    [type Line struct { Item string `json:"item"`; Count uint `json:"count"` }]. *)
Definition invoiceEnv : TypeEnv := fun name =>
  if String.eqb name "Invoice" then
    {| underlying := UStruct
         [ {| Name := "Buyer"; Typ := TNamed "Party"; Tag := Some [("json", "buyer")] |};
           {| Name := "Seller"; Typ := TPtr (TNamed "Party");
              Tag := Some [("json", "seller")] |};
           {| Name := "Lines"; Typ := TSlice (TNamed "Line");
              Tag := Some [("json", "lines")] |} ];
       Enums := None |}
  else if String.eqb name "Party" then
    {| underlying := UStruct
         [ {| Name := "Name"; Typ := TPrim reflect.String;
              Tag := Some [("json", "name")] |} ];
       Enums := None |}
  else if String.eqb name "Line" then
    {| underlying := UStruct
         [ {| Name := "Item"; Typ := TPrim reflect.String;
              Tag := Some [("json", "item")] |};
           {| Name := "Count"; Typ := TPrim reflect.Uint;
              Tag := Some [("json", "count")] |} ];
       Enums := None |}
  else {| underlying := UStruct []; Enums := None |}.

(** The types of the property [key] of the schema stored under [APair]. *)
Definition pairKeyTypes (m : gmap string SchemaRef) : option (list string) :=
  r ← m !! "APair"; s ← openapi3.Value r;
  p ← openapi3.Properties s !! "key"; v ← openapi3.Value p;
  Some (openapi3.Types v).

Definition schemaWalkerAbsorbed (gsv : SchemaWalker) : Prop :=
  ∀ t, absorbed (fun a => gsv a t).

Definition componentWalkerAbsorbed (gcm : ComponentWalker) : Prop :=
  ∀ model, absorbed0 (fun a => gcm a model).

(** ** Unsupported kinds *)

(** [type Events struct { M map[string]chan int `json:"m"` }] *)
Definition chanEnv : TypeEnv := fun name =>
  if String.eqb name "Events" then
    {| underlying := UStruct
         [ {| Name := "M";
              Typ := TMap (TPrim reflect.String) (TOther reflect.Chan);
              Tag := Some [("json", "m")] |} ];
       Enums := None |}
  else {| underlying := UStruct []; Enums := None |}.

(** The [additionalProperties] of the property [m] of the component
    [Events]. *)
Definition eventsAdditionalProperties (swagger : Swagger) : option SchemaRef :=
  r ← Schemas swagger !! "Events"; s ← openapi3.Value r;
  p ← openapi3.Properties s !! "m"; v ← openapi3.Value p;
  openapi3.AdditionalPropertiesSchema v.

(** ** Flat models *)

(** A field of a flat model: exported, with a well-formed tag and of a
    predeclared type the classifier has a schema for. *)
Definition plainField (f : StructField) : Prop :=
  IsExported f = true ∧ is_Some (Tag f)
  ∧ ∃ k, Typ f = TPrim k ∧ is_Some (getBasicSchemaByType k).


(** * Further definitions *)

(** ** Types the walkers neither classify nor enter *)

(** The kinds the walkers of a model have no branch for: not a pointer, a
    struct, a slice or a map, and not an interface. *)
Definition leafKind (k : reflect.Kind) : bool :=
  match k with
  | reflect.Ptr | reflect.Struct | reflect.Slice | reflect.Map
  | reflect.Interface => false
  | _ => true
  end.

(** [type UserID int64], without an [Enums] method, a model with a field of
    that type that has a form annotation, and one with a field of that type
    that has none. *)
Definition userIDEnv : TypeEnv := fun name =>
  if String.eqb name "UserID" then
    {| underlying := UType (TPrim reflect.Int64); Enums := None |}
  else if String.eqb name "User" then
    {| underlying := UStruct
         [ {| Name := "ID"; Typ := TNamed "UserID";
              Tag := Some [("form", "id"); ("json", "id")] |} ];
       Enums := None |}
  else if String.eqb name "Visitor" then
    {| underlying := UStruct
         [ {| Name := "ID"; Typ := TNamed "UserID"; Tag := Some [("json", "id")] |} ];
       Enums := None |}
  else {| underlying := UStruct []; Enums := None |}.

(** ** The fields of a component and its required list *)

(** A field takes part in the component of its struct: every field in the
    component of a response model, the fields with a form annotation in the
    component of a request model. *)
Definition participates (isRequest : bool) (f : StructField) : bool :=
  negb isRequest
  || bool_decide ((Tag f ≫= fun tags => tagsGet tags FORM) ≠ None).

(** The key of a field in the component. *)
Definition componentName (isRequest : bool) (f : StructField) : string :=
  componentFieldName isRequest (default [] (Tag f)) f.

(** The entry the code gives a field in the required list of the
    component, and in that of a response schema. *)
Definition listedName (isRequest : bool) (f : StructField) : option string :=
  if participates isRequest f && isRequiredTags (default [] (Tag f))
  then Some (componentName isRequest f) else None.

Definition listedJsonName (f : StructField) : option string :=
  if isRequiredTags (default [] (Tag f)) then jsonName f else None.

(** ** The names of the tags

    [structtag.Parse] splits the value of an annotation at its commas: the
    text before the first comma is the name of the tag and the rest are its
    options, which no function of the source looks at.  So
    [validate:"required,email"] has the name [required], and
    [validate:"omitempty,required"] the name [omitempty]. *)

(** The name of the tag of an annotation of that value. *)
Definition tagName (value : string) : string :=
  firstOf (strings.Split value ",").

(** The tags of the annotations of a field, given as (key, value) pairs. *)
Definition parseTags (annotations : list (string * string))
    : list (string * string) :=
  (fun kv => (fst kv, tagName (snd kv))) <$> annotations.

(** What the parser returns: no name holds a comma. *)
Definition commaFree (tags : list (string * string)) : Prop :=
  Forall (fun kv => strings.ContainsByte (snd kv) "," = false) tags.

Definition parsedField (f : StructField) : Prop :=
  ∀ tags, Tag f = Some tags -> commaFree tags.

(** The name of the validate tag is [required]. *)
Definition namesRequired (tags : list (string * string)) : bool :=
  bool_decide (tagsGet tags VALIDATE = Some "required").

(** The entry of a field in the required list of the component: the key of
    a field that takes part and whose validate tag has the name
    [required]. *)
Definition requiredName (isRequest : bool) (f : StructField) : option string :=
  if participates isRequest f && namesRequired (default [] (Tag f))
  then Some (componentName isRequest f) else None.

(** The entry of a field in the required list of a response schema. *)
Definition requiredJsonName (f : StructField) : option string :=
  if namesRequired (default [] (Tag f)) then jsonName f else None.

(** [type Signup struct { Email string `form:"email" json:"email"
    validate:"required,email"`; Nick string `form:"nick" json:"nick"
    validate:"omitempty,required"`; Source string `json:"source"
    validate:"required"` }] *)
Definition signupFields : list StructField :=
  [ {| Name := "Email"; Typ := TPrim reflect.String;
       Tag := Some (parseTags [("form", "email"); ("json", "email");
                               ("validate", "required,email")]) |};
    {| Name := "Nick"; Typ := TPrim reflect.String;
       Tag := Some (parseTags [("form", "nick"); ("json", "nick");
                               ("validate", "omitempty,required")]) |};
    {| Name := "Source"; Typ := TPrim reflect.String;
       Tag := Some (parseTags [("json", "source");
                               ("validate", "required")]) |} ].

Definition signupEnv : TypeEnv := fun name =>
  if String.eqb name "Signup" then
    {| underlying := UStruct signupFields; Enums := None |}
  else {| underlying := UStruct []; Enums := None |}.

(** A request model with a required field and a field without a form
    annotation. *)
Definition loginEnv : TypeEnv := fun name =>
  if String.eqb name "Login" then
    {| underlying := UStruct
         [ {| Name := "Username"; Typ := TPrim reflect.String;
              Tag := Some [("form", "username"); ("json", "user");
                           ("validate", "required")] |};
           {| Name := "Remember"; Typ := TPrim reflect.Bool;
              Tag := Some [("form", "remember")] |};
           {| Name := "Trace"; Typ := TPrim reflect.String;
              Tag := Some [("json", "trace"); ("validate", "required")] |} ];
       Enums := None |}
  else {| underlying := UStruct []; Enums := None |}.

(** The key of a field in the schema of a request model: the name of its
    form annotation. *)
Definition formName (f : StructField) : option string :=
  tags ← Tag f; tagsGet tags FORM.

(** ** References to the components of struct fields *)

(** A reference names a key of the registry, as it is or after the
    normalisation of [removePackageName]. *)
Definition refResolves (swagger : Swagger) (r : SchemaRef) : Prop :=
  ∃ n, openapi3.Ref r = generateRefName n
    ∧ (n ∈ dom (Schemas swagger) ∨ removePackageName n ∈ dom (Schemas swagger)).

(** A reference and nothing else. *)
Definition bare (r : SchemaRef) : Prop :=
  openapi3.Value r = None ∧ openapi3.Ref r ≠ EmptyString.

(** The items and the additional properties of the schema, where they are a
    reference and nothing else, resolve. *)
Definition innerResolve (swagger : Swagger) (s : Schema) : Prop :=
  ∀ r,
    openapi3.Items s = Some r ∨ openapi3.AdditionalPropertiesSchema s = Some r ->
    bare r -> refResolves swagger r.

(** Neither the items nor the additional properties of the schema are a
    reference and nothing else. *)
Definition inline (s : Schema) : Prop :=
  ∀ r,
    openapi3.Items s = Some r ∨ openapi3.AdditionalPropertiesSchema s = Some r ->
    ¬ bare r.

(** Every property of the schema that is a reference and nothing else
    resolves, and so do the items and the additional properties of the
    properties that are given by value. *)
Definition resolves (swagger : Swagger) (schema : Schema) : Prop :=
  ∀ key p,
    openapi3.Properties schema !! key = Some p ->
    match openapi3.Value p with
    | None => refResolves swagger p
    | Some s => innerResolve swagger s
    end.

Definition registryResolves (swagger : Swagger) : Prop :=
  ∀ k r schema,
    Schemas swagger !! k = Some r -> openapi3.Value r = Some schema ->
    resolves swagger schema.

(** No key of [before] is lost in [after], and every entry of [after] is an
    entry of [before] or resolves in [after]. *)
Definition insertsResolved (before after : Swagger) : Prop :=
  dom (Schemas before) ⊆ dom (Schemas after)
  ∧ ∀ k r schema,
      Schemas after !! k = Some r -> openapi3.Value r = Some schema ->
      Schemas before !! k = Some r ∨ resolves after schema.

Definition schemaWalkerResolved (gsv : SchemaWalker) : Prop :=
  ∀ swagger t swagger' x,
    gsv swagger t = Ok (swagger', x) ->
    insertsResolved swagger swagger' ∧ inline (snd x).

Definition componentWalkerResolved (env : TypeEnv) (gcm : ComponentWalker) : Prop :=
  ∀ swagger model swagger',
    keyed swagger -> gcm swagger model = Ok swagger' ->
    insertsResolved swagger swagger'
    ∧ ∀ mt, model = Some mt ->
        ∃ type_, deref env mt = Ok type_
          ∧ removePackageName (nameOf type_) ∈ dom (Schemas swagger').

(** [type Order struct { Customer Customer `json:"customer"`; Past []*Customer
    `json:"past"`; Note string `json:"note"` }] and [type Customer struct {
    Name string `json:"name"` }] *)
Definition orderEnv : TypeEnv := fun name =>
  if String.eqb name "Order" then
    {| underlying := UStruct
         [ {| Name := "Customer"; Typ := TNamed "Customer";
              Tag := Some [("json", "customer")] |};
           {| Name := "Past"; Typ := TSlice (TPtr (TNamed "Customer"));
              Tag := Some [("json", "past")] |};
           {| Name := "Note"; Typ := TPrim reflect.String;
              Tag := Some [("json", "note")] |} ];
       Enums := None |}
  else if String.eqb name "Customer" then
    {| underlying := UStruct
         [ {| Name := "Name"; Typ := TPrim reflect.String;
              Tag := Some [("json", "name")] |} ];
       Enums := None |}
  else {| underlying := UStruct []; Enums := None |}.

(** * The document

    [getPaths] and [BuildOpenAPI] assemble the document from the routers.
    Package [router] is not among the sources at hand: a [Router] is the
    record of the fields that [swagger.go] and [swagin.go] read and write,
    and a [security.ISecurity] is what its two methods return. *)

Module http.
Definition MethodGet := "GET".
Definition MethodHead := "HEAD".
Definition MethodPost := "POST".
Definition MethodPut := "PUT".
Definition MethodPatch := "PATCH".
Definition MethodDelete := "DELETE".
Definition MethodConnect := "CONNECT".
Definition MethodOptions := "OPTIONS".
Definition MethodTrace := "TRACE".
End http.

Module binding.
Definition MIMEJSON := "application/json".
End binding.

Module security.

Record SecurityScheme := mkSecurityScheme {
  Type_ : string;
  In : string;
  Name : string
}.

Record ISecurity := mkSecurity {
  Provider : string;
  Scheme : SecurityScheme
}.

End security.

Module router.

Record ResponseItem := mkResponseItem {
  RDescription : string;
  RModel : option GoType;
  RHeaders : list string
}.

(** [type Response map[string]ResponseItem]: the entries, in the order in
    which [range] visits them. *)
Abbreviation Response := (list (string * ResponseItem)).

Record Router := mkRouter {
  Exclude : bool;
  Model : option GoType;
  Response_ : Response;
  Tags : list string;
  OperationID : string;
  Summary : string;
  Description : string;
  Deprecated : bool;
  ResponseContentType : string;
  RequestContentType : string;
  Securities : list security.ISecurity;
  Method : string;
  Path : string
}.

End router.

(** The types of package [openapi3] that make up the operations. *)
Module operation.

Record MediaType := mkMediaType { MSchema : option SchemaRef }.
Definition NewMediaType : MediaType := mkMediaType None.
Definition WithSchemaRef (r : SchemaRef) (m : MediaType) : MediaType :=
  mkMediaType (Some r).

Abbreviation Content := (gmap string MediaType).

Record RequestBody := mkRequestBody {
  BRequired : bool;
  BContent : Content
}.
Definition NewRequestBody : RequestBody := mkRequestBody false ∅.

Record Response := mkResponse {
  RDescription : string;
  RContent : Content;
  RHeaders : list string
}.
Abbreviation Responses := (gmap string Response).

(** [NewSecurityRequirement().Authenticate(provider)] *)
Abbreviation SecurityRequirement := (gmap string (list string)).
Definition Authenticate (provider : string) : SecurityRequirement :=
  {[ provider := [] ]}.
Abbreviation SecurityRequirements := (list SecurityRequirement).

Record Operation := mkOperation {
  Tags : list string;
  OperationID : string;
  Summary : string;
  Description : string;
  Deprecated : bool;
  Responses_ : Responses;
  Parameters : list openapi3.ParameterRef;
  Security : SecurityRequirements;
  RequestBody_ : option RequestBody
}.

Definition setRequestBody (b : option RequestBody) (o : Operation) : Operation :=
  mkOperation (Tags o) (OperationID o) (Summary o) (Description o) (Deprecated o)
    (Responses_ o) (Parameters o) (Security o) b.

Record PathItem := mkPathItem {
  Get : option Operation;
  Post : option Operation;
  Delete : option Operation;
  Put : option Operation;
  Patch : option Operation;
  Head : option Operation;
  Options : option Operation;
  Connect : option Operation;
  Trace : option Operation
}.

Definition emptyPathItem : PathItem :=
  mkPathItem None None None None None None None None None.

Abbreviation Paths := (gmap string PathItem).

End operation.

(** [swagger.OpenAPI.Components]: the registry of schemas, with the
    validator it feeds, and the security schemes. *)
Record Components := mkComponents {
  Registry : Swagger;
  SecuritySchemes : gmap string security.SecurityScheme
}.

(** A [for] loop over a slice or over the entries of a map. *)
Fixpoint forEach {St X : Type} (body : St -> X -> result St)
    (l : list X) (st : St) : result St :=
  match l with
  | [] => Ok st
  | x :: xs => st' ← body st x; forEach body xs st'
  end.

(** The body of the loop of [getSecurityRequirements]. *)
Definition securityRequirement
    (st : Components * operation.SecurityRequirements) (s : security.ISecurity)
    : Components * operation.SecurityRequirements :=
  let '(components, securityRequirements) := st in
  let provide := security.Provider s in
  (mkComponents (Registry components)
     (<[provide := security.Scheme s]> (SecuritySchemes components)),
   (securityRequirements ++ [operation.Authenticate provide])%list).

Definition getSecurityRequirements (components : Components)
    (securities : list security.ISecurity)
    : Components * operation.SecurityRequirements :=
  foldl securityRequirement (components, []) securities.

Definition getRequestBodyRef (name contentType : string) : operation.RequestBody :=
  let body := operation.NewRequestBody in
  let body := operation.mkRequestBody true (operation.BContent body) in
  let contentType :=
    if String.eqb contentType EmptyString then binding.MIMEJSON else contentType in
  let schemaRef :=
    openapi3.NewSchemaRef (generateRefName (removePackageName name)) None in
  operation.mkRequestBody (operation.BRequired body)
    (<[contentType := operation.WithSchemaRef schemaRef operation.NewMediaType]> ∅).

Section Document.

Variable env : TypeEnv.

(** [url.JoinPath] of package [net/url], [None] standing for its error. *)
Variable JoinPath : string -> string -> option string.

(** What [openapi3.NewResponses()] returns. *)
Variable NewResponses : operation.Responses.

(** The body of the loop of [getResponsesRef]; the content type, once it has
    been defaulted, stays so for the entries that follow. *)
Definition responseRef (st : operation.Responses * string)
    (kv : string * router.ResponseItem) : operation.Responses * string :=
  let '(ret, contentType) := st in
  let '(k, v) := kv in
  match router.RModel v with
  | None => (ret, contentType)
  | Some type_ =>
      let schemaRef :=
        openapi3.NewSchemaRef
          (generateRefName (removePackageName (nameOf type_))) None in
      let contentType :=
        if String.eqb contentType EmptyString then binding.MIMEJSON
        else contentType in
      let content : operation.Content :=
        {[ contentType := operation.WithSchemaRef schemaRef operation.NewMediaType ]} in
      (<[k := operation.mkResponse (router.RDescription v) content (router.RHeaders v)]> ret,
       contentType)
  end.

Definition getResponsesRef (response : router.Response) (contentType : string)
    : operation.Responses :=
  fst (foldl responseRef (NewResponses, contentType) response).

(** The chain of tests on the method at the end of the loop over the
    routers of a path. *)
Definition setOperation (method : string) (operation : operation.Operation)
    (requestBody : option operation.RequestBody) (pathItem : operation.PathItem)
    : operation.PathItem :=
  let '(operation.mkPathItem get post delete put patch head options connect trace) :=
    pathItem in
  if String.eqb method http.MethodGet then
    operation.mkPathItem (Some operation) post delete put patch head options connect trace
  else if String.eqb method http.MethodPost then
    operation.mkPathItem get (Some (operation.setRequestBody requestBody operation))
      delete put patch head options connect trace
  else if String.eqb method http.MethodDelete then
    operation.mkPathItem get post (Some operation) put patch head options connect trace
  else if String.eqb method http.MethodPut then
    operation.mkPathItem get post delete
      (Some (operation.setRequestBody requestBody operation))
      patch head options connect trace
  else if String.eqb method http.MethodPatch then
    operation.mkPathItem get post delete put (Some operation) head options connect trace
  else if String.eqb method http.MethodHead then
    operation.mkPathItem get post delete put patch (Some operation) options connect trace
  else if String.eqb method http.MethodOptions then
    operation.mkPathItem get post delete put patch head (Some operation) connect trace
  else if String.eqb method http.MethodConnect then
    operation.mkPathItem get post delete put patch head options (Some operation) trace
  else if String.eqb method http.MethodTrace then
    operation.mkPathItem get post delete put patch head options connect (Some operation)
  else pathItem.

(** The body of the loop of [getPaths] over the routers of a path.  The
    responses are visited twice, by the loop that registers their
    components and by [getResponsesRef]; what the latter returns does not
    depend on the order in which it visits them. *)
Definition routerOperation (fuel : nat)
    (st : Components * operation.PathItem) (mr : string * router.Router)
    : result (Components * operation.PathItem) :=
  let '(components, pathItem) := st in
  let '(method, r) := mr in
  if router.Exclude r then Ok (components, pathItem)
  else
    swagger ← getComponentByModel env fuel (Registry components) (router.Model r) true;
    swagger ←
      forEach
        (fun swagger resp =>
           getComponentByModel env fuel swagger (router.RModel (snd resp)) false)
        (router.Response_ r) swagger;
    let model := router.Model r in
    let responses :=
      getResponsesRef (router.Response_ r) (router.ResponseContentType r) in
    '(swagger, parameters) ← getParametersByModel env fuel swagger model;
    let '(components, security) :=
      getSecurityRequirements (mkComponents swagger (SecuritySchemes components))
        (router.Securities r) in
    let operation :=
      operation.mkOperation (router.Tags r) (router.OperationID r)
        (router.Summary r) (router.Description r) (router.Deprecated r)
        responses parameters security None in
    let requestBody :=
      match router.Model r with
      | None => None
      | Some reqType =>
          Some (getRequestBodyRef (nameOf reqType) (router.RequestContentType r))
      end in
    Ok (components, setOperation method operation requestBody pathItem).

(** The body of the loop over the paths of a group, whose base path is
    [basePath]. *)
Definition pathOperations (fuel : nat) (basePath : string)
    (st : Components * operation.Paths)
    (pm : string * list (string * router.Router))
    : result (Components * operation.Paths) :=
  let '(components, paths) := st in
  let '(path, m) := pm in
  match JoinPath basePath path with
  | None => Panic "url.JoinPath"
  | Some path =>
      '(components, pathItem) ←
        forEach (routerOperation fuel) m (components, operation.emptyPathItem);
      Ok (components, <[fixPath path := pathItem]> paths)
  end.

(** [swagger.Routers], a map from the groups to the maps from the paths to
    the maps from the methods to the routers: the entries of each map in the
    order in which [range] visits them, a group being known by its base
    path. *)
Abbreviation Routers :=
  (list (string * list (string * list (string * router.Router)))).

Definition getPaths (fuel : nat) (components : Components) (routers : Routers)
    : result (Components * operation.Paths) :=
  forEach
    (fun st group =>
       forEach (pathOperations fuel (fst group)) (snd group) st)
    routers (components, ∅).

Record Contact := mkContact { CName : string; CURL : string; CEmail : string }.
Record License := mkLicense { LName : string; LURL : string }.

Record Info := mkInfo {
  ITitle : string;
  IDescription : string;
  ITermsOfService : string;
  IContact : option Contact;
  ILicense : option License;
  IVersion : string
}.

(** [swagger.OpenAPI] *)
Record T := mkT {
  OpenAPI : string;
  Info_ : Info;
  Servers : list string;
  Components_ : Components;
  Paths_ : operation.Paths
}.

(** [BuildOpenAPI]: the components start empty; the validator is the
    package-level one and keeps what was registered with it. *)
Definition BuildOpenAPI (fuel : nat) (info : Info) (servers : list string)
    (validate : list (GoType * CustomTypeFunc)) (routers : Routers) : result T :=
  let components := mkComponents (mkSwagger ∅ validate []) ∅ in
  '(components, paths) ← getPaths fuel components routers;
  Ok (mkT "3.0.0" info servers components paths).

End Document.

(** ** The properties of the document *)

(** The content type an empty content type stands for. *)
Definition contentTypeOr (contentType : string) : string :=
  if String.eqb contentType EmptyString then binding.MIMEJSON else contentType.

(** The content of a request body or of a response: one media type, with a
    reference to the component of the name. *)
Definition contentOf (contentType name : string) : operation.Content :=
  {[ contentTypeOr contentType :=
       operation.mkMediaType
         (Some (openapi3.mkSchemaRef (generateRefName (removePackageName name)) None)) ]}.

Definition defaultResponses : operation.Responses :=
  {[ "default" := operation.mkResponse EmptyString ∅ [] ]}.

Definition okCreated : router.Response :=
  [ ("200", router.mkResponseItem "ok" (Some (TNamed "Order")) []);
    ("201", router.mkResponseItem "created" (Some (TPtr (TNamed "Customer"))) []);
    ("204", router.mkResponseItem "no content" None []) ].

(** The scheme of a security. *)
Definition schemeOf (m : gmap string security.SecurityScheme)
    (s : security.ISecurity) : gmap string security.SecurityScheme :=
  <[security.Provider s := security.Scheme s]> m.

(** Every provider a requirement of the operation names has a scheme. *)
Definition securityResolves (components : Components)
    (security : operation.SecurityRequirements) : Prop :=
  ∀ req provider,
    req ∈ security -> provider ∈ dom req ->
    provider ∈ dom (SecuritySchemes components).

(** An [ApiKey] of package [security], by its fields [Name] and [In]; the
    provider stands for the constant [ApiKeyAuth], which is declared outside
    the sources at hand. *)
Definition ApiKey (name in_ : string) : security.ISecurity :=
  security.mkSecurity "ApiKeyAuth" (security.mkSecurityScheme "apiKey" in_ name).

(** The operations of a path item. *)
Definition slots (item : operation.PathItem) : list (option operation.Operation) :=
  [ operation.Get item; operation.Post item; operation.Delete item;
    operation.Put item; operation.Patch item; operation.Head item;
    operation.Options item; operation.Connect item; operation.Trace item ].

Definition operationsOf (item : operation.PathItem) : list operation.Operation :=
  omap id (slots item).

(** No operation but those of POST and PUT has a request body. *)
Definition bodiless (item : operation.PathItem) : Prop :=
  ∀ o,
    Some o ∈ [ operation.Get item; operation.Delete item; operation.Patch item;
               operation.Head item; operation.Options item;
               operation.Connect item; operation.Trace item ] ->
    operation.RequestBody_ o = None.

Definition itemSound (components : Components) (item : operation.PathItem) : Prop :=
  (∀ o, o ∈ operationsOf item ->
        securityResolves components (operation.Security o))
  ∧ bodiless item.

(** A registry whose entries are stored under their titles and whose
    references to the components of struct fields resolve. *)
Definition sound (swagger : Swagger) : Prop :=
  keyed swagger ∧ registryResolves swagger.

(** [url.JoinPath] on paths that need no cleaning. *)
Definition joinPlain (base path : string) : option string := Some (base +:+ path).

(** A router with a request model, three responses and a security, and a
    router that is left out of the document, under a path with a
    parameter. *)
Definition orderRouter : router.Router :=
  router.mkRouter false (Some (TNamed "Login")) okCreated ["orders"] "createOrder"
    "create an order" EmptyString false EmptyString EmptyString
    [ApiKey "X-Api-Key" "header"] EmptyString EmptyString.

Definition hiddenRouter : router.Router :=
  router.mkRouter true (Some (TSlice (TNamed "Order"))) [] [] EmptyString
    EmptyString EmptyString false EmptyString EmptyString [] EmptyString EmptyString.

Definition shopEnv : TypeEnv := fun name =>
  if String.eqb name "Login" then loginEnv name else orderEnv name.

Definition shopRouters :
    list (string * list (string * list (string * router.Router))) :=
  [ ("/api",
     [ ("/orders/:id", [ (http.MethodPost, orderRouter);
                         (http.MethodGet, hiddenRouter) ]) ]) ].

(** The document so far: a sound registry, and under every key, which has
    no parameter in colon form left, a sound path item. *)
Definition documentSound (components : Components) (paths : operation.Paths) : Prop :=
  sound (Registry components)
  ∧ ∀ key item,
      paths !! key = Some item ->
      hasSegment key = false ∧ itemSound components item.

(** From [a] to [b] no key of the registry and no security scheme is lost. *)
Definition extends (a b : Components) : Prop :=
  dom (Schemas (Registry a)) ⊆ dom (Schemas (Registry b))
  ∧ dom (SecuritySchemes a) ⊆ dom (SecuritySchemes b).

Definition shopInfo : Info := mkInfo "Shop" "Orders of the shop" EmptyString None None "0.1.0".

(** The methods [getPaths] has a place for in a path item. *)
Definition knownMethods : list string :=
  [ http.MethodGet; http.MethodPost; http.MethodDelete; http.MethodPut;
    http.MethodPatch; http.MethodHead; http.MethodOptions; http.MethodConnect;
    http.MethodTrace ].

(** The operation of a method in a path item. *)
Definition operationAt (method : string) (item : operation.PathItem)
    : option operation.Operation :=
  if String.eqb method http.MethodGet then operation.Get item
  else if String.eqb method http.MethodPost then operation.Post item
  else if String.eqb method http.MethodDelete then operation.Delete item
  else if String.eqb method http.MethodPut then operation.Put item
  else if String.eqb method http.MethodPatch then operation.Patch item
  else if String.eqb method http.MethodHead then operation.Head item
  else if String.eqb method http.MethodOptions then operation.Options item
  else if String.eqb method http.MethodConnect then operation.Connect item
  else if String.eqb method http.MethodTrace then operation.Trace item
  else None.

Definition takesBody (method : string) : bool :=
  String.eqb method http.MethodPost || String.eqb method http.MethodPut.

(** The request body of a model. *)
Definition bodyOf (contentType : string) (model : GoType) : operation.RequestBody :=
  operation.mkRequestBody true (contentOf contentType (nameOf model)).

(** A router whose request model is a slice. *)
Definition batchRouter : router.Router :=
  router.mkRouter false (Some (TSlice (TNamed "Order"))) [] [] EmptyString
    EmptyString EmptyString false EmptyString EmptyString [] EmptyString EmptyString.

(** * The registration of the routers ([swagin.go])

    A [*gin.RouterGroup] and a [*router.Router] are addresses; [Heap] holds
    the routers the addresses point to, so that two routes registered with
    one router share it. *)

Record SwaGin := mkSwaGin {
  RouterGroup : positive;
  Routers : gmap positive (gmap string (gmap string positive));
  Heap : gmap positive router.Router
}.

(** [r.Method = method; r.Path = path] *)
Definition setMethodPath (method path : string) (r : router.Router) : router.Router :=
  router.mkRouter (router.Exclude r) (router.Model r) (router.Response_ r)
    (router.Tags r) (router.OperationID r) (router.Summary r)
    (router.Description r) (router.Deprecated r) (router.ResponseContentType r)
    (router.RequestContentType r) (router.Securities r) method path.

Definition Handle (g : SwaGin) (group : positive) (path method : string)
    (r : positive) : result SwaGin :=
  match Heap g !! r with
  | None => Panic "invalid memory address or nil pointer dereference"
  | Some router =>
      let heap := <[r := setMethodPath method path router]> (Heap g) in
      let byPath := default ∅ (Routers g !! group) in
      let byMethod := default ∅ (byPath !! path) in
      Ok (mkSwaGin (RouterGroup g)
            (<[group := <[path := <[method := r]> byMethod]> byPath]> (Routers g))
            heap)
  end.

Definition handle (g : SwaGin) (path method : string) (r : positive) : result SwaGin :=
  Handle g (RouterGroup g) path method r.

Definition GET (g : SwaGin) (path : string) (r : positive) : result SwaGin :=
  handle g path http.MethodGet r.

Definition POST (g : SwaGin) (path : string) (r : positive) : result SwaGin :=
  handle g path http.MethodPost r.

(** [g.Routers[group][path][method]], and the router it points to. *)
Definition routeAt (g : SwaGin) (group : positive) (path method : string)
    : option positive :=
  byPath ← Routers g !! group; byMethod ← byPath !! path; byMethod !! method.

Definition routerAt (g : SwaGin) (group : positive) (path method : string)
    : option router.Router :=
  r ← routeAt g group path method; Heap g !! r.

Definition oneRouter : SwaGin :=
  mkSwaGin 1%positive ∅ {[ 7%positive := orderRouter ]}.

(** ** The attributes of a parameter *)

(** What the tags of a field say of its parameter: the location and the
    name, the description, whether it is required, and the default of its
    schema, which is given by value.  Each is the name of a tag, the text
    of the annotation before its first comma. *)
Definition describes (field : StructField) (p : openapi3.ParameterRef) : Prop :=
  ∃ tags schema,
    Tag field = Some tags
    ∧ locationOf tags = Some (parameterLocation p)
    ∧ openapi3.PDescription (openapi3.PValue p)
      = default EmptyString (tagsGet tags DESCRIPTION)
    ∧ openapi3.PRequired (openapi3.PValue p) = namesRequired tags
    ∧ openapi3.PSchema (openapi3.PValue p)
      = Some (openapi3.mkSchemaRef EmptyString (Some schema))
    ∧ ∀ d, tagsGet tags DEFAULT = Some d -> openapi3.Default schema = Some d.

(** [type Lookup struct { ID int `uri:"id" description:"the order"`; Lang
    string `header:"Accept-Language" validate:"required,len=2" default:"en"`;
    Page int `query:"page" validate:"omitempty,required"`; Body string
    `json:"body"` }] *)
Definition lookupFields : list StructField :=
  [ {| Name := "ID"; Typ := TPrim reflect.Int;
       Tag := Some (parseTags [("uri", "id"); ("description", "the order")]) |};
    {| Name := "Lang"; Typ := TPrim reflect.String;
       Tag := Some (parseTags [("header", "Accept-Language");
                               ("validate", "required,len=2");
                               ("default", "en")]) |};
    {| Name := "Page"; Typ := TPrim reflect.Int;
       Tag := Some (parseTags [("query", "page");
                               ("validate", "omitempty,required")]) |};
    {| Name := "Body"; Typ := TPrim reflect.String;
       Tag := Some (parseTags [("json", "body")]) |} ].

Definition lookupEnv : TypeEnv := fun name =>
  if String.eqb name "Lookup" then
    {| underlying := UStruct lookupFields; Enums := None |}
  else {| underlying := UStruct []; Enums := None |}.

(** ** Flat routers *)







(** ** Unexported fields *)


(** ** Tags that do not parse *)

(** * Theorems *)

#[local] Set Warnings "-clear-no-such-hyp".



(** ** Kinds the classifier has no schema for *)

(** The walk of a value of a channel type goes from the type switch to the
    walker of a model and back, and has not returned whatever the fuel. *)
Lemma channel_walk_diverges (env : TypeEnv) (fuel : nat) :
  (∀ swagger request,
     getSchemaByValue env fuel swagger (Some (TOther reflect.Chan)) request = OutOfFuel)
  ∧ (∀ swagger,
       getRequestSchemaByModel env fuel swagger (Some (TOther reflect.Chan)) = OutOfFuel)
  ∧ (∀ swagger,
       getResponseSchemaByModel env fuel swagger (Some (TOther reflect.Chan)) = OutOfFuel).
Proof.
  induction fuel as [|fuel (IHv & IHq & IHp)]; [repeat split |].
  split; [| split].
  - intros swagger [|]; [exact (IHq swagger) | exact (IHp swagger)].
  - intros swagger. exact (IHv swagger true).
  - intros swagger. exact (IHv swagger false).
Qed.

(** C4. For a channel or a function kind, and for every kind outside its
    cases, [getBasicSchemaByType] returns the nil schema to its caller, where
    [NewEnumSchema] panics; and the walk of a value of a channel type by
    [getSchemaByValue] neither fails nor returns. *)
Theorem getBasicSchemaByType_unsupported_nil (env : TypeEnv) (fuel : nat)
    (swagger : Swagger) (request : bool) :
  getBasicSchemaByType reflect.Chan = None
  ∧ getBasicSchemaByType reflect.Func = None
  ∧ (∀ k, k ∉ [reflect.Int; reflect.Int8; reflect.Int16; reflect.Int32; reflect.Int64;
               reflect.Uint; reflect.Uint8; reflect.Uint16; reflect.Uint32;
               reflect.Uint64; reflect.String; reflect.Float32; reflect.Float64;
               reflect.Bool]
          <-> getBasicSchemaByType k = None)
  ∧ (∀ name, ∃ msg, NewEnumSchema name reflect.Chan = Panic msg)
  ∧ getSchemaByValue env fuel swagger (Some (TOther reflect.Chan)) request = OutOfFuel.
Proof.
  split; [reflexivity |]. split; [reflexivity |]. split; [| split].
  - intros k. rewrite list_elem_of_In. split.
    + destruct k; try reflexivity; simpl; intros Hk; exfalso; apply Hk; tauto.
    + destruct k; try discriminate; intros _; simpl; intuition discriminate.
  - intros name. eexists. reflexivity.
  - apply (channel_walk_diverges env fuel).
Qed.

(** The nil schema of the classifier ends in the document: the component of
    a struct with a map of channels has [additionalProperties] that are a
    reference without a pointer and without a schema. *)
Example map_of_channels_gets_nil_schema :
  ∃ swagger',
    getComponentByModel chanEnv 1 emptySwagger (Some (TNamed "Events")) false
      = Ok swagger'
    ∧ eventsAdditionalProperties swagger'
      = Some (openapi3.mkSchemaRef EmptyString None).
Proof. eexists. split; vm_compute; reflexivity. Qed.

(** ** Path rewriting *)

Lemma append_nil (b : string) : EmptyString +:+ b = b.
Proof. reflexivity. Qed.

Lemma append_cons (c : ascii) (a b : string) :
  String c a +:+ b = String c (a +:+ b).
Proof. reflexivity. Qed.


Lemma colonForm_head (segs : list (string * string)) :
  colonForm segs = EmptyString ∨ ∃ r, colonForm segs = String "/" r.
Proof. destruct segs as [|[name lit] segs]; simpl; eauto. Qed.

(** Outside a name, a byte that opens no segment is copied. *)
Lemma replaceAll_copy (c : ascii) (r : string) :
  (Ascii.eqb c "/" &&
   match r with String ":" (String d _) => isAlnum d | _ => false end) = false ->
  replaceAll false (String c r) = String c (replaceAll false r).
Proof.
  intros H. cbn [replaceAll andb]. rewrite append_nil.
  destruct r as [|e r]; [reflexivity |].
  destruct r as [|d r].
  - destruct e as [[] [] [] [] [] [] [] []]; reflexivity.
  - destruct (Ascii.eqb_spec e ":") as [-> | Hne].
    + now rewrite H.
    + destruct e as [[] [] [] [] [] [] [] []]; try reflexivity.
      now contradiction Hne.
Qed.

(** Text without a segment is copied as it is, up to a following slash. *)
Lemma replaceAll_literal (lit rest : string) :
  hasSegment lit = false ->
  (rest = EmptyString ∨ ∃ r, rest = String "/" r) ->
  replaceAll false (lit +:+ rest) = lit +:+ replaceAll false rest.
Proof.
  intros Hlit Hrest. induction lit as [|c lit IH]; [reflexivity |].
  simpl in Hlit. apply orb_false_iff in Hlit as [Hc Hlit].
  rewrite !append_cons, replaceAll_copy, (IH Hlit); [reflexivity |].
  destruct lit as [|e lit]; rewrite ?append_nil, ?append_cons.
  - destruct Hrest as [-> | [r ->]]; [apply andb_false_r |].
    destruct r as [|d r]; apply andb_false_r.
  - destruct lit as [|d lit]; rewrite ?append_nil, ?append_cons; [| exact Hc].
    destruct Hrest as [-> | [r ->]];
      destruct e as [[] [] [] [] [] [] [] []]; apply andb_false_r.
Qed.

(** Inside a name, the alphanumeric bytes are copied and the brace closes
    the name at the first byte that is not one. *)
Lemma replaceAll_name (name rest : string) :
  allAlnum name = true -> startsAlnum rest = false ->
  replaceAll true (name +:+ rest) = name +:+ "}" +:+ replaceAll false rest.
Proof.
  intros Hname Hrest. induction name as [|c name IH].
  - rewrite !append_nil. destruct rest as [|c r]; [reflexivity |].
    simpl in Hrest. cbn [replaceAll andb]. now rewrite Hrest.
  - simpl in Hname. apply andb_true_iff in Hname as [Hc Hname].
    rewrite !append_cons. cbn [replaceAll andb]. rewrite Hc, (IH Hname).
    reflexivity.
Qed.

Lemma replaceAll_segment (name rest : string) :
  name ≠ EmptyString -> allAlnum name = true -> startsAlnum rest = false ->
  replaceAll false ("/:" +:+ name +:+ rest)
  = "/{" +:+ name +:+ "}" +:+ replaceAll false rest.
Proof.
  intros Hne Hname Hrest. destruct name as [|d name]; [congruence |].
  pose proof Hname as Hd. simpl in Hd. apply andb_true_iff in Hd as [Hd Hn].
  rewrite !append_cons, !append_nil. cbn [replaceAll andb]. rewrite Hd.
  change (Ascii.eqb "/" "/") with true. cbn [andb].
  rewrite (replaceAll_name name rest Hn Hrest). reflexivity.
Qed.

Lemma replaceAll_segments (segs : list (string * string)) :
  Forall segmentOk segs ->
  replaceAll false (colonForm segs) = braceForm segs.
Proof.
  induction 1 as [|[name lit] segs (Hne & Hname & Hstart & Hlit) _ IH];
    [reflexivity |].
  cbn [fst snd colonForm braceForm] in *.
  assert (Hrest : startsAlnum (lit +:+ colonForm segs) = false).
  { destruct lit; [| exact Hstart]. rewrite append_nil.
    destruct (colonForm_head segs) as [-> | [r ->]]; reflexivity. }
  rewrite (replaceAll_segment _ _ Hne Hname Hrest).
  rewrite (replaceAll_literal _ _ Hlit (colonForm_head segs)), IH.
  reflexivity.
Qed.

(** C9. The path [/user/:id/post/:postId] is rewritten to
    [/user/{id}/post/{postId}]; and a path that is some text without a
    segment followed by positional segments [/:name], each name a maximal
    alphanumeric run, is rewritten to the same text with every [/:name]
    turned into [/{name}], all other bytes unchanged. *)
Theorem fixPath_rewrites (lit0 : string) (segs : list (string * string)) :
  hasSegment lit0 = false -> Forall segmentOk segs ->
  fixPath "/user/:id/post/:postId" = "/user/{id}/post/{postId}"
  ∧ fixPath (lit0 +:+ colonForm segs) = lit0 +:+ braceForm segs.
Proof.
  intros Hlit Hsegs. split; [reflexivity |].
  unfold fixPath.
  rewrite (replaceAll_literal _ _ Hlit (colonForm_head segs)).
  now rewrite (replaceAll_segments segs Hsegs).
Qed.

Lemma fixPath_rewrites_witness :
  fixPath ("/user" +:+ colonForm [("id", "/post"); ("postId", EmptyString)])
  = "/user" +:+ braceForm [("id", "/post"); ("postId", EmptyString)].
Proof.
  apply (fixPath_rewrites "/user" [("id", "/post"); ("postId", EmptyString)]).
  - reflexivity.
  - repeat constructor; simpl; congruence.
Defined.

(** ** The reference namer *)



Lemma Split_whole (x : string) (sep : ascii) :
  strings.ContainsByte x sep = false -> strings.Split x sep = [x].
Proof.
  induction x as [|c x IH]; [reflexivity |]. simpl.
  intros [Hc Hx]%orb_false_iff. now rewrite Hc, (IH Hx).
Qed.














(** ** Reasoning on results and on the field loops *)

Lemma bind_Ok {A B : Type} (m : result A) (f : A -> result B) (b : B) :
  (m ≫= f) = Ok b <-> ∃ a, m = Ok a ∧ f a = Ok b.
Proof.
  destruct m as [a | msg |]; simpl; split.
  - eauto.
  - intros (a' & [= <-] & H). exact H.
  - discriminate.
  - intros (a' & [=] & _).
  - discriminate.
  - intros (a' & [=] & _).
Qed.

(** From [x ← m; k x = Ok b], the value of [m] and the rest. *)
Ltac bind_ok H :=
  let a := fresh "a" in
  let Ha := fresh "Ha" in
  apply bind_Ok in H as (a & Ha & H).


(** An invariant of the state that every round of the loop keeps holds of
    what the loop returns. *)
Lemma forFields_invariant {St : Type} (body : St -> StructField -> result St)
    (I : St -> Prop) (fields : list StructField) :
  (∀ st f st', f ∈ fields -> I st -> body st f = Ok st' -> I st') ->
  ∀ st st', I st -> forFields body fields st = Ok st' -> I st'.
Proof.
  induction fields as [|f fields IH]; intros Hbody st st' Hst H; simpl in H.
  - now injection H as <-.
  - bind_ok H. eapply IH; [| | exact H].
    + intros ? ? ? ?. apply Hbody. now right.
    + eapply Hbody; [left | exact Hst | exact Ha].
Qed.

(** One unfolding of [getComponentByModel]. *)
Lemma getComponentByModel_S (env : TypeEnv) (fuel : nat) (swagger : Swagger)
    (mt : GoType) (isRequest : bool) :
  getComponentByModel env (S fuel) swagger (Some mt) isRequest
  = (type_ ← deref env mt;
     st ← (if decide (kindOf env type_ = reflect.Struct) then
             forFields
               (componentField env
                  (fun swagger t => getSchemaByValue env fuel swagger t isRequest)
                  (fun swagger model => getComponentByModel env fuel swagger model isRequest)
                  isRequest)
               (default [] (fieldsOf env type_)) (swagger, openapi3.NewObjectSchema)
           else Ok (swagger, openapi3.NewObjectSchema));
     Ok (registerComponent type_ st)).
Proof. reflexivity. Qed.

(** ** Flat models: the walkers return *)

Lemma getSchemaByValue_plain (env : TypeEnv) (k : reflect.Kind) :
  is_Some (getBasicSchemaByType k) ->
  kindOf env (TPrim k) = k
  ∧ deref env (TPrim k) = Ok (TPrim k)
  ∧ zeroOf env (TPrim k) = Some (TPrim k)
  ∧ ∀ fuel swagger request,
      ∃ s, getSchemaByValue env (S fuel) swagger (Some (TPrim k)) request
           = Ok (swagger, (EmptyString, s)).
Proof.
  intros [s Hs]. destruct k; try discriminate Hs;
    (split; [reflexivity |]; split; [reflexivity |]; split; [reflexivity |];
     intros; eexists; reflexivity).
Qed.

Lemma parameterFields_return (env : TypeEnv) (fuel : nat) (fields : list StructField) :
  Forall plainField fields ->
  ∀ swagger parameters,
    ∃ parameters',
      forFields
        (parameterField env (fun swagger t => getSchemaByValue env (S fuel) swagger t true))
        fields (swagger, parameters)
      = Ok (swagger, parameters').
Proof.
  induction 1 as [|f fields (Hexp & [tags Htag] & k & Htyp & Hk) _ IH];
    intros swagger parameters; [eexists; reflexivity |].
  destruct (getSchemaByValue_plain env k Hk) as (_ & _ & Hzero & Hrun).
  destruct (Hrun fuel swagger true) as [s Hs].
  assert (Hbody : ∃ parameters1,
             parameterField env
               (fun swagger t => getSchemaByValue env (S fuel) swagger t true)
               (swagger, parameters) f
             = Ok (swagger, parameters1)).
  { unfold parameterField, parseTag, fieldInterface.
    rewrite Htag, Hexp, Htyp, Hzero. cbn [mbind result_bind].
    destruct (String.eqb (openapi3.In (locate tags)) EmptyString);
      [eexists; reflexivity |].
    rewrite Hs. cbn [mbind result_bind]. eexists; reflexivity. }
  destruct Hbody as [parameters1 Hbody].
  cbn [forFields]. rewrite Hbody. cbn [mbind result_bind]. apply IH.
Qed.

Lemma responseFields_return (env : TypeEnv) (fuel : nat) (fields : list StructField) :
  Forall plainField fields ->
  ∀ swagger schema,
    ∃ schema',
      forFields
        (responseField env (fun swagger t => getSchemaByValue env (S fuel) swagger t false))
        fields (swagger, schema)
      = Ok (swagger, schema').
Proof.
  induction 1 as [|f fields (Hexp & [tags Htag] & k & Htyp & Hk) _ IH];
    intros swagger schema; [eexists; reflexivity |].
  destruct (getSchemaByValue_plain env k Hk) as (_ & _ & Hzero & Hrun).
  destruct (Hrun fuel swagger false) as [s Hs].
  assert (Hbody : ∃ schema1,
             responseField env
               (fun swagger t => getSchemaByValue env (S fuel) swagger t false)
               (swagger, schema) f
             = Ok (swagger, schema1)).
  { unfold responseField, parseTag.
    rewrite Hexp, Htyp, Hzero, Hs. cbn [mbind result_bind].
    rewrite Htag. cbn [mbind result_bind].
    destruct (tagsGet tags JSON); eexists; reflexivity. }
  destruct Hbody as [schema1 Hbody].
  cbn [forFields]. rewrite Hbody. cbn [mbind result_bind]. apply IH.
Qed.

Lemma componentFields_return (env : TypeEnv) (fuel : nat) (gcm : ComponentWalker)
    (fields : list StructField) :
  Forall plainField fields ->
  ∀ swagger schema,
    ∃ schema',
      forFields
        (componentField env
           (fun swagger t => getSchemaByValue env (S fuel) swagger t false) gcm false)
        fields (swagger, schema)
      = Ok (swagger, schema').
Proof.
  induction 1 as [|f fields (Hexp & [tags Htag] & k & Htyp & Hk) _ IH];
    intros swagger schema; [eexists; reflexivity |].
  destruct (getSchemaByValue_plain env k Hk) as (Hkind & Hderef & Hzero & Hrun).
  destruct (Hrun fuel swagger false) as [s Hs].
  assert (Hbody : ∃ schema1,
             componentField env
               (fun swagger t => getSchemaByValue env (S fuel) swagger t false)
               gcm false (swagger, schema) f
             = Ok (swagger, schema1)).
  { unfold componentField, parseTag, derefInterface.
    rewrite Htag, Htyp, Hderef. cbn [mbind result_bind].
    rewrite andb_false_r, Hkind, Hexp, Hzero.
    destruct Hk as [s' Hs']. destruct k; try discriminate Hs';
      (destruct (decide _); [discriminate |]);
      cbn [mbind result_bind]; rewrite Hs; cbn [mbind result_bind];
      eexists; reflexivity. }
  destruct Hbody as [schema1 Hbody].
  cbn [forFields]. rewrite Hbody. cbn [mbind result_bind]. apply IH.
Qed.

(** ** The parameter extractor *)

Lemma locate_locationOf (tags : list (string * string)) :
  match locationOf tags with
  | Some loc =>
      (openapi3.In (locate tags), openapi3.PName (locate tags)) = loc
      ∧ String.eqb (openapi3.In (locate tags)) EmptyString = false
  | None => String.eqb (openapi3.In (locate tags)) EmptyString = true
  end.
Proof.
  unfold locationOf, locate.
  destruct (tagsGet tags COOKIE), (tagsGet tags HEADER), (tagsGet tags URI),
    (tagsGet tags QUERY); simpl; auto.
Qed.

Lemma parameterField_location (gsv : SchemaWalker) (env : TypeEnv)
    (swagger swagger' : Swagger) (parameters parameters' : list openapi3.ParameterRef)
    (field : StructField) :
  parameterField env gsv (swagger, parameters) field = Ok (swagger', parameters') ->
  parameterLocation <$> parameters'
  = (parameterLocation <$> parameters) ++ option_list (fieldLocation field).
Proof.
  unfold parameterField, fieldLocation, parseTag. intros H.
  destruct (Tag field) as [tags |]; [| discriminate]. simpl in H |- *.
  pose proof (locate_locationOf tags) as Hloc.
  destruct (locationOf tags) as [loc |].
  - destruct Hloc as [Hloc Hin]. rewrite Hin in H.
    bind_ok H. bind_ok H. destruct a0 as [sw [ref schema]].
    injection H as _ <-. rewrite fmap_app. simpl.
    unfold parameterLocation at 2. simpl. now rewrite Hloc.
  - rewrite Hloc in H. injection H as _ <-. simpl. now rewrite app_nil_r.
Qed.

Lemma parameterFields_locations (gsv : SchemaWalker) (env : TypeEnv)
    (fields : list StructField) :
  ∀ swagger swagger' parameters parameters',
    forFields (parameterField env gsv) fields (swagger, parameters)
      = Ok (swagger', parameters') ->
    parameterLocation <$> parameters'
    = (parameterLocation <$> parameters) ++ omap fieldLocation fields.
Proof.
  induction fields as [|f fields IH]; intros sw sw' ps ps' H; simpl in H.
  - injection H as _ <-. simpl. now rewrite app_nil_r.
  - bind_ok H. destruct a as [sw1 ps1].
    rewrite (IH _ _ _ _ H), (parameterField_location _ _ _ _ _ _ _ Ha).
    rewrite <- app_assoc. f_equal. simpl.
    destruct (fieldLocation f); reflexivity.
Qed.

(** C2, as the code has it.  The four annotations are examined in the order
    query, path, header, cookie, and each one that is present overrides the
    ones before it: a field that carries a query and a header annotation
    (and no cookie annotation) is assigned to header.  The parameters
    returned are one for every field that has a location annotation, in the
    order of the fields, so such a field yields one descriptor and not two,
    and none for a field without a location annotation; and on a flat model
    the extractor returns. *)
Theorem getParametersByModel_locations (env : TypeEnv) (fuel : nat)
    (swagger : Swagger) (mt type_ : GoType) (fields : list StructField) :
  deref env mt = Ok type_ -> fieldsOf env type_ = Some fields ->
  (∀ swagger' parameters,
     getParametersByModel env fuel swagger (Some mt) = Ok (swagger', parameters) ->
     parameterLocation <$> parameters = omap fieldLocation fields)
  ∧ (Forall plainField fields ->
     ∃ parameters,
       getParametersByModel env (S fuel) swagger (Some mt) = Ok (swagger, parameters))
  ∧ ∀ tags q h,
      tagsGet tags QUERY = Some q -> tagsGet tags HEADER = Some h ->
      tagsGet tags COOKIE = None ->
      locationOf tags = Some ("header", h)
      ∧ openapi3.In (locate tags) = openapi3.ParameterInHeader.
Proof.
  intros Hderef Hfields. split; [| split].
  - intros swagger' parameters H.
    unfold getParametersByModel in H. rewrite Hderef in H. simpl in H.
    rewrite Hfields in H.
    now rewrite (parameterFields_locations _ _ _ _ _ _ _ H).
  - intros Hplain. unfold getParametersByModel. rewrite Hderef.
    cbn [mbind result_bind]. rewrite Hfields.
    apply parameterFields_return, Hplain.
  - intros tags q h Hq Hh Hc. unfold locationOf, locate.
    rewrite Hq, Hh, Hc. destruct (tagsGet tags URI); split; reflexivity.
Qed.

Lemma getParametersByModel_locations_witness :
  ∃ swagger' parameters,
    getParametersByModel tokenEnv 1 emptySwagger (Some (TNamed "Search"))
      = Ok (swagger', parameters)
    ∧ parameterLocation <$> parameters = [("header", "X-Token"); ("query", "page")].
Proof.
  destruct (getParametersByModel_locations tokenEnv 0 emptySwagger
              (TNamed "Search") (TNamed "Search") _ eq_refl eq_refl)
    as (_ & Hreturns & _).
  destruct Hreturns as [parameters Hrun].
  { repeat constructor; try (eexists; reflexivity).
    all: eexists; split; [reflexivity | eexists; reflexivity]. }
  destruct (getParametersByModel_locations tokenEnv 1 emptySwagger
              (TNamed "Search") (TNamed "Search") _ eq_refl eq_refl)
    as (Hloc & _ & _).
  exists emptySwagger, parameters. split; [exact Hrun |].
  exact (Hloc _ _ Hrun).
Defined.

(** The claim of C2 fails on a field that carries a query and a header
    annotation: its one parameter is a header parameter. *)
Lemma query_header_field_is_header :
  ∃ swagger' p rest,
    getParametersByModel tokenEnv 1 emptySwagger (Some (TNamed "Search"))
      = Ok (swagger', p :: rest)
    ∧ openapi3.In (openapi3.PValue p) = "header"
    ∧ openapi3.In (openapi3.PValue p) ≠ "query".
Proof.
  vm_compute. do 3 eexists. split; [reflexivity |]. split; [reflexivity | discriminate].
Qed.

(** ** Field names in outbound traversal *)

Lemma fieldsOf_Struct (env : TypeEnv) (t : GoType) (fields : list StructField) :
  fieldsOf env t = Some fields -> kindOf env t = reflect.Struct.
Proof.
  destruct t; try discriminate. simpl.
  destruct (underlying (env name)); [reflexivity | discriminate].
Qed.

(** Takes a hypothesis [H : e = Ok r] apart along the binds, the matches and
    the conditionals of [e]. *)
Ltac walk H :=
  repeat first
    [ progress (cbn beta iota zeta in H)
    | match type of H with
      | (_ ≫= _) = Ok _ => bind_ok H
      | Panic _ = Ok _ => discriminate H
      | OutOfFuel = Ok _ => discriminate H
      | (let '(_, _) := ?p in _) = Ok _ => destruct p
      | (match ?x with _ => _ end) = Ok _ => destruct x eqn:?
      end ].

(** The same on every hypothesis of that form. *)
Ltac walk_all :=
  repeat match goal with
    | H : (_ ≫= _) = Ok _ |- _ => bind_ok H
    | H : Panic _ = Ok _ |- _ => discriminate H
    | H : OutOfFuel = Ok _ |- _ => discriminate H
    | H : (let '(_, _) := ?p in _) = Ok _ |- _ => destruct p
    | H : (match ?x with _ => _ end) = Ok _ |- _ => destruct x eqn:?
    | H : _ = Ok _ |- _ => progress (cbn beta iota zeta in H)
    end.

Lemma responseField_dom (env : TypeEnv) (gsv : SchemaWalker)
    (swagger swagger' : Swagger) (schema schema' : Schema) (f : StructField) :
  responseField env gsv (swagger, schema) f = Ok (swagger', schema') ->
  dom (openapi3.Properties schema')
  = dom (openapi3.Properties schema) ∪ list_to_set (option_list (jsonName f)).
Proof.
  unfold responseField, jsonName, parseTag. intros H.
  destruct (IsExported f); [| injection H as <- <-; set_solver].
  bind_ok H. destruct a as [sw [ref s]].
  destruct (Tag f) as [tags |]; [| discriminate]. simpl in H |- *.
  destruct (tagsGet tags JSON) as [tagName |]; injection H as <- <-; simpl.
  - rewrite dom_insert_L. destruct (isRequiredTags tags); simpl; set_solver.
  - set_solver.
Qed.

Lemma responseFields_dom (env : TypeEnv) (gsv : SchemaWalker)
    (fields : list StructField) :
  ∀ swagger swagger' schema schema',
    forFields (responseField env gsv) fields (swagger, schema)
      = Ok (swagger', schema') ->
    dom (openapi3.Properties schema')
    = dom (openapi3.Properties schema) ∪ list_to_set (omap jsonName fields).
Proof.
  induction fields as [|f fields IH]; intros sw sw' s s' H; simpl in H.
  - injection H as _ <-. set_solver.
  - bind_ok H. destruct a as [sw1 s1].
    rewrite (IH _ _ _ _ H), (responseField_dom _ _ _ _ _ _ _ Ha). simpl.
    destruct (jsonName f); set_solver.
Qed.

Lemma componentField_dom (env : TypeEnv) (gsv : SchemaWalker)
    (gcm : ComponentWalker) (swagger swagger' : Swagger)
    (schema schema' : Schema) (f : StructField) :
  componentField env gsv gcm false (swagger, schema) f = Ok (swagger', schema') ->
  dom (openapi3.Properties schema')
  = {[outboundName f]} ∪ dom (openapi3.Properties schema).
Proof.
  unfold componentField, outboundName, parseTag. intros H.
  destruct (Tag f) as [tags |]; [| discriminate]. cbn [mbind result_bind] in H.
  rewrite andb_false_r in H.
  walk H; injection H as <- <-; simpl; rewrite ?dom_insert_L;
    destruct (isRequiredTags tags); reflexivity.
Qed.

Lemma componentFields_dom (env : TypeEnv) (gsv : SchemaWalker)
    (gcm : ComponentWalker) (fields : list StructField) :
  ∀ swagger swagger' schema schema',
    forFields (componentField env gsv gcm false) fields (swagger, schema)
      = Ok (swagger', schema') ->
    dom (openapi3.Properties schema')
    = list_to_set (outboundName <$> fields) ∪ dom (openapi3.Properties schema).
Proof.
  induction fields as [|f fields IH]; intros sw sw' s s' H; simpl in H.
  - injection H as _ <-. set_solver.
  - bind_ok H. destruct a as [sw1 s1].
    rewrite (IH _ _ _ _ H), (componentField_dom _ _ _ _ _ _ _ _ Ha). set_solver.
Qed.

(** C6, as the code has it.  In the response schema of a struct
    ([getResponseSchemaByModel]) the properties are keyed by the
    serialized-name annotations of the exported fields, and a field without
    that annotation has no property.  In the component of a response model
    ([getComponentByModel], outbound) every field has a property: under the
    name of its serialized-name annotation when it has one, under its
    declared name otherwise.  On a flat model both walks return. *)
Theorem outbound_field_names (env : TypeEnv) (fuel : nat)
    (swagger : Swagger) (mt type_ : GoType) (fields : list StructField) :
  deref env mt = Ok type_ -> fieldsOf env type_ = Some fields ->
  (∀ swagger' ref schema,
     getResponseSchemaByModel env fuel swagger (Some mt) = Ok (swagger', (ref, schema)) ->
     dom (openapi3.Properties schema) = list_to_set (omap jsonName fields))
  ∧ (∀ swagger',
       getComponentByModel env fuel swagger (Some mt) false = Ok swagger' ->
       ∃ schema,
         Schemas swagger' !! removePackageName (nameOf type_)
           = Some (openapi3.mkSchemaRef EmptyString (Some schema))
         ∧ dom (openapi3.Properties schema) = list_to_set (outboundName <$> fields))
  ∧ (Forall plainField fields ->
     (∃ ref schema,
        getResponseSchemaByModel env (S (S fuel)) swagger (Some mt)
        = Ok (swagger, (ref, schema)))
     ∧ ∃ swagger',
         getComponentByModel env (S (S fuel)) swagger (Some mt) false = Ok swagger').
Proof.
  intros Hderef Hfields. pose proof (fieldsOf_Struct _ _ _ Hfields) as Hkind.
  split; [| split].
  - intros sw' ref schema H. destruct fuel as [|fuel]; [discriminate |].
    simpl in H. rewrite Hderef in H. simpl in H. rewrite Hkind, Hfields in H.
    simpl in H. bind_ok H. destruct a as [sw1 s1]. injection H as _ _ <-.
    rewrite (responseFields_dom _ _ _ _ _ _ _ Ha). set_solver.
  - intros sw' H. destruct fuel as [|fuel]; [discriminate |].
    simpl in H. rewrite Hderef in H. simpl in H. rewrite Hkind, Hfields in H.
    simpl in H. bind_ok H. destruct a as [sw1 s1]. injection H as <-.
    eexists. split.
    + simpl. apply lookup_insert_eq.
    + simpl. rewrite (componentFields_dom _ _ _ _ _ _ _ _ Ha). set_solver.
  - intros Hplain. split.
    + destruct (responseFields_return env fuel fields Hplain swagger
                  openapi3.NewObjectSchema) as [schema Hloop].
      cbn [getResponseSchemaByModel]. rewrite Hderef. cbn [mbind result_bind].
      rewrite Hkind, Hfields. cbn [default from_option id].
      rewrite Hloop. cbn [mbind result_bind]. eauto.
    + destruct (componentFields_return env fuel
                  (fun swagger model =>
                     getComponentByModel env (S fuel) swagger model false)
                  fields Hplain swagger openapi3.NewObjectSchema)
        as [schema Hloop].
      rewrite getComponentByModel_S, Hderef. cbn [mbind result_bind].
      rewrite Hkind, Hfields. cbn [default from_option id].
      destruct (decide (reflect.Struct = reflect.Struct)); [| congruence].
      rewrite Hloop. cbn [mbind result_bind]. eauto.
Qed.

Lemma outbound_field_names_witness :
  ∃ swagger' schema,
    getComponentByModel plainEnv 2 emptySwagger (Some (TNamed "Plain")) false
      = Ok swagger'
    ∧ Schemas swagger' !! "Plain" = Some (openapi3.mkSchemaRef EmptyString (Some schema))
    ∧ dom (openapi3.Properties schema) = {["Code"; "message"]}.
Proof.
  destruct (outbound_field_names plainEnv 0 emptySwagger (TNamed "Plain")
              (TNamed "Plain") _ eq_refl eq_refl) as (_ & _ & Hreturns).
  destruct Hreturns as [_ [swagger' Hrun]].
  { repeat constructor; try (eexists; reflexivity).
    all: eexists; split; [reflexivity | eexists; reflexivity]. }
  destruct (outbound_field_names plainEnv 2 emptySwagger (TNamed "Plain")
              (TNamed "Plain") _ eq_refl eq_refl) as (_ & Hnames & _).
  destruct (Hnames swagger' Hrun) as (schema & Hentry & Hdom).
  exists swagger', schema. split; [exact Hrun |]. split; [exact Hentry |].
  rewrite Hdom. set_solver.
Defined.

(** The claim of C6 fails in the component of a response model: a field
    without a serialized-name annotation is not skipped, it has a property
    under its declared name. *)
Lemma untagged_field_is_kept :
  ∃ swagger' schema,
    getComponentByModel plainEnv 2 emptySwagger (Some (TNamed "Plain")) false
      = Ok swagger'
    ∧ jsonName {| Name := "Code"; Typ := TPrim reflect.Int; Tag := Some [] |} = None
    ∧ Schemas swagger' !! "Plain" = Some (openapi3.mkSchemaRef EmptyString (Some schema))
    ∧ is_Some (openapi3.Properties schema !! "Code").
Proof.
  do 2 eexists. split; [vm_compute; reflexivity |].
  split; [reflexivity |]. split; [vm_compute; reflexivity |].
  vm_compute. eauto.
Qed.

(** ** Enumerable types *)

Lemma register_table (fn : CustomTypeFunc) (types : list Const)
    (tbl : list (GoType * CustomTypeFunc)) :
  foldl (fun tbl t => (constType t, fn) :: tbl) tbl types
  = reverse ((fun t => (constType t, fn)) <$> types) ++ tbl.
Proof.
  revert tbl. induction types as [|t types IH]; intros tbl; [reflexivity |].
  simpl. rewrite IH, reverse_cons, <- app_assoc. reflexivity.
Qed.

Lemma find_registered (fn : CustomTypeFunc) (ty : GoType)
    (new old : list (GoType * CustomTypeFunc)) :
  (∀ e, e ∈ new -> snd e = fn) -> (∃ e, e ∈ new ∧ fst e = ty) ->
  snd <$> List.find (fun e => bool_decide (fst e = ty)) (new ++ old) = Some fn.
Proof.
  induction new as [|e new IH]; intros Hall (e' & Hin & Hty).
  - inversion Hin.
  - simpl. destruct (bool_decide_reflect (e.1 = ty)) as [He | He].
    + simpl. f_equal. apply Hall. left.
    + apply IH.
      * intros e0 He0. apply Hall. now right.
      * exists e'. split; [| exact Hty].
        apply elem_of_cons in Hin as [-> | Hin]; [contradiction | exact Hin].
Qed.

(** The function registered for an enumerable type is the one the validator
    finds for the type of each of the values of the type. *)
Lemma customTypeFunc_registered (fn : CustomTypeFunc) (types : list Const)
    (swagger : Swagger) (v : Const) :
  v ∈ types ->
  customTypeFunc (RegisterCustomTypeFunc fn types swagger) (constType v) = Some fn.
Proof.
  intros Hv. unfold customTypeFunc, RegisterCustomTypeFunc. simpl.
  rewrite register_table. apply find_registered.
  - intros e He. apply elem_of_reverse, list_elem_of_fmap in He as (t & -> & _).
    reflexivity.
  - exists (constType v, fn). split; [| reflexivity].
    apply elem_of_reverse, list_elem_of_fmap. eauto.
Qed.

Lemma GetEnumVal_supported (gconv : reflect.Kind -> Const -> Const)
    (name : string) (kind : reflect.Kind) (base : Schema) (val : Const) :
  NewEnumSchema name kind = Ok base ->
  GetEnumVal gconv name kind val = Ok (gconv kind val).
Proof. destruct kind; simpl; intros H; try discriminate H; reflexivity. Qed.

(** C3. For an enumerable type whose [Enums()] map is [{"A": v1, "B": v2}],
    visited by [range] in whatever order, and whose kind is one an
    enumeration may have, the enum path of [getSchemaByValue] returns a
    schema whose value list holds exactly [v1] and [v2], stores it under
    the name of the type, and registers for the types of the values a
    coercion that converts a value that is [v1] or [v2] and panics on any
    other value.  With [v1] and [v2] the constants 1 and 2, the coercion
    accepts 1 and rejects 3. *)
Theorem enum_round_trip (gconv : reflect.Kind -> Const -> Const)
    (env : TypeEnv) (fuel : nat) (swagger : Swagger) (n : string)
    (request : bool) (valEnums : list (string * Const)) (v1 v2 : Const)
    (base : Schema) :
  n ≠ "Time" ->
  Enums (env n) = Some valEnums ->
  Permutation valEnums [("A", v1); ("B", v2)] ->
  NewEnumSchema n (kindOf env (TNamed n)) = Ok base ->
  ∃ swagger' schema,
    getSchemaByValue env (S fuel) swagger (Some (TNamed n)) request
      = Ok (swagger', (generateRefName n, schema))
    ∧ (∀ x, x ∈ openapi3.Enum schema <-> x = v1 ∨ x = v2)
    ∧ Schemas swagger' !! n = Some (openapi3.mkSchemaRef EmptyString (Some schema))
    ∧ ∀ v, v = v1 ∨ v = v2 ->
        ∃ fn, customTypeFunc swagger' (constType v) = Some fn
          ∧ (∀ val, val = v1 ∨ val = v2 ->
               callCustomTypeFunc gconv fn val
               = Ok (gconv (kindOf env (TNamed n)) val))
          ∧ (∀ val, val ≠ v1 -> val ≠ v2 ->
               ∃ msg, callCustomTypeFunc gconv fn val = Panic msg).
Proof.
  intros Hn Henums Hperm Hbase.
  assert (Hmem : ∀ x, x ∈ snd <$> valEnums <-> x = v1 ∨ x = v2).
  { intros x. rewrite Hperm. simpl.
    rewrite !elem_of_cons, elem_of_nil. tauto. }
  assert (Hswitch : typeSwitch env (Some (TNamed n)) = CaseEnumAble (TNamed n) valEnums).
  { unfold typeSwitch, time_Time.
    destruct (decide (TNamed n = TNamed "Time")) as [[= ->] | _]; [congruence |].
    repeat (destruct (decide _) as [[=] | _]). now rewrite Henums. }
  cbn [getSchemaByValue]. rewrite Hswitch. unfold enumSchema.
  cbn [nameOf]. rewrite Hbase. cbn [mbind result_bind].
  do 2 eexists. split; [reflexivity |].
  split; [exact Hmem |]. split; [apply lookup_insert_eq |].
  intros v Hv. eexists. split.
  - apply customTypeFunc_registered, Hmem, Hv.
  - unfold callCustomTypeFunc. cbn [valMap ctfName ctfKind]. split.
    + intros val Hval. rewrite bool_decide_eq_true_2 by now apply Hmem.
      eapply GetEnumVal_supported, Hbase.
    + intros val H1 H2. rewrite bool_decide_eq_false_2; [eauto |].
      rewrite Hmem. tauto.
Qed.

Lemma enum_round_trip_witness :
  ∃ swagger' schema fn,
    getSchemaByValue (colorEnv colorsBA) 1 emptySwagger (Some Color) true
      = Ok (swagger', ("#/components/schemas/Color", schema))
    ∧ (∀ x, x ∈ openapi3.Enum schema <-> x = CInt Color 1 ∨ x = CInt Color 2)
    ∧ customTypeFunc swagger' Color = Some fn
    ∧ callCustomTypeFunc convInt fn (CInt Color 1) = Ok (CInt (TPrim reflect.Int) 1)
    ∧ ∃ msg, callCustomTypeFunc convInt fn (CInt Color 3) = Panic msg.
Proof.
  destruct (enum_round_trip convInt (colorEnv colorsBA) 0 emptySwagger "Color" true
              colorsBA (CInt Color 1) (CInt Color 2) openapi3.NewIntegerSchema)
    as (swagger' & schema & Hrun & Henum & _ & Hfn).
  - discriminate.
  - reflexivity.
  - apply perm_swap.
  - reflexivity.
  - destruct (Hfn (CInt Color 1) (or_introl eq_refl)) as (fn & Hfind & Hok & Hbad).
    exists swagger', schema, fn. split; [exact Hrun |]. split; [exact Henum |].
    split; [exact Hfind |]. split.
    + exact (Hok _ (or_introl eq_refl)).
    + apply Hbad; discriminate.
Defined.

(** ** Cyclic types *)

Lemma struct_shape (env : TypeEnv) (n : string) (fields : list StructField) :
  underlying (env n) = UStruct fields ->
  kindOf env (TNamed n) = reflect.Struct
  ∧ deref env (TNamed n) = Ok (TNamed n)
  ∧ deref env (TPtr (TNamed n)) = Ok (TNamed n)
  ∧ fieldsOf env (TNamed n) = Some fields
  ∧ zeroOf env (TNamed n) = Some (TNamed n).
Proof.
  intros H. unfold deref, zeroOf, Elem. simpl. rewrite H. simpl. auto.
Qed.

(** The round of the field loop on a field that refers to a struct that is
    not in the registry returns what the walk of that struct returns, when
    that is not a value. *)
Lemma componentField_descends (env : TypeEnv) (gsv : SchemaWalker)
    (gcm : ComponentWalker) (isRequest : bool) (swagger : Swagger)
    (schema : Schema) (f : StructField) (target : string)
    (tags : list (string * string)) (fields : list StructField) :
  (Typ f = TPtr (TNamed target) ∨ Typ f = TNamed target) ->
  Tag f = Some tags ->
  (isRequest = true -> tagsGet tags FORM ≠ None) ->
  underlying (env target) = UStruct fields ->
  target ≠ "Time" ->
  checkSchemaExist swagger target = false ->
  gcm swagger (Some (TNamed target)) = OutOfFuel ->
  componentField env gsv gcm isRequest (swagger, schema) f = OutOfFuel.
Proof.
  intros Htyp Htag Hform Hdecl Htime Hcheck Hrec.
  destruct (struct_shape env target fields Hdecl) as (Hk & Hd & Hdp & _ & Hz).
  unfold componentField, parseTag. rewrite Htag. cbn [mbind result_bind].
  assert (Hskip : bool_decide (tagsGet tags FORM = None) && isRequest = false).
  { destruct isRequest; [| apply andb_false_r].
    rewrite bool_decide_eq_false_2; [reflexivity | now apply Hform]. }
  rewrite Hskip.
  assert (Hderef : deref env (Typ f) = Ok (TNamed target))
    by (destruct Htyp as [-> | ->]; assumption).
  rewrite Hderef. cbn [mbind result_bind]. rewrite Hk. cbn [nameOf].
  apply String.eqb_neq in Htime. rewrite Htime.
  unfold unlessExists. rewrite Hcheck, Hz. cbn [negb]. rewrite Hrec.
  reflexivity.
Qed.

(** A struct whose first field refers to itself: the walk of it, from a
    registry without its title, has not returned whatever the fuel. *)
Lemma self_reference_diverges (env : TypeEnv) (n : string) (isRequest : bool)
    (swagger : Swagger) :
  firstFieldRefers env n n isRequest ->
  checkSchemaExist swagger n = false ->
  ∀ fuel, getComponentByModel env fuel swagger (Some (TNamed n)) isRequest = OutOfFuel.
Proof.
  intros (f & rest & tags & Hdecl & Htyp & Htag & Hform & _ & Htime) Hcheck.
  destruct (struct_shape env n _ Hdecl) as (Hk & Hd & _ & Hfs & _).
  induction fuel as [|fuel IH]; [reflexivity |].
  rewrite getComponentByModel_S, Hd. cbn [mbind result_bind].
  rewrite Hk, Hfs. cbn [default from_option id].
  destruct (decide (reflect.Struct = reflect.Struct)); [| congruence].
  cbn [forFields].
  now rewrite (componentField_descends env _ _ isRequest swagger _ f n tags _
                 Htyp Htag Hform Hdecl Htime Hcheck IH).
Qed.

(** Two structs whose first fields refer to each other. *)
Lemma mutual_reference_diverges (env : TypeEnv) (a b : string) (isRequest : bool)
    (swagger : Swagger) :
  firstFieldRefers env a b isRequest -> firstFieldRefers env b a isRequest ->
  checkSchemaExist swagger a = false -> checkSchemaExist swagger b = false ->
  ∀ fuel,
    getComponentByModel env fuel swagger (Some (TNamed a)) isRequest = OutOfFuel
    ∧ getComponentByModel env fuel swagger (Some (TNamed b)) isRequest = OutOfFuel.
Proof.
  intros (fa & ra & ta & Hda & Htypa & Htaga & Hforma & [fsb Hdb'] & Htimeb)
         (fb & rb & tb & Hdb & Htypb & Htagb & Hformb & [fsa Hda'] & Htimea)
         Hca Hcb.
  destruct (struct_shape env a _ Hda) as (Hka & Hdera & _ & Hfsa & _).
  destruct (struct_shape env b _ Hdb) as (Hkb & Hderb & _ & Hfsb & _).
  induction fuel as [|fuel [IHa IHb]]; [split; reflexivity |].
  rewrite !getComponentByModel_S, Hdera, Hderb. cbn [mbind result_bind].
  rewrite Hka, Hkb, Hfsa, Hfsb. cbn [default from_option id].
  destruct (decide (reflect.Struct = reflect.Struct)); [| congruence].
  cbn [forFields].
  rewrite (componentField_descends env _ _ isRequest swagger _ fa b ta _
             Htypa Htaga Hforma Hdb Htimeb Hcb IHb).
  rewrite (componentField_descends env _ _ isRequest swagger _ fb a tb _
             Htypb Htagb Hformb Hda Htimea Hca IHa).
  split; reflexivity.
Qed.

(** C1, on the code.  The component of [Node], whose field [Next] is a
    pointer to [Node], is registered only after the loop over the fields of
    [Node] has ended, so the check made before the descent into the field
    does not find it: from the empty registry the synthesis has not
    returned whatever the fuel, for a request as for a response model, and
    the same holds of [Left] and [Right], which refer to each other. *)
Theorem cyclic_model_never_returns (fuel : nat) (isRequest : bool) :
  getComponentByModel cyclicEnv fuel emptySwagger (Some (TNamed "Node")) isRequest
    = OutOfFuel
  ∧ getComponentByModel cyclicEnv fuel emptySwagger (Some (TNamed "Left")) isRequest
    = OutOfFuel
  ∧ getComponentByModel cyclicEnv fuel emptySwagger (Some (TNamed "Right")) isRequest
    = OutOfFuel.
Proof.
  split.
  - apply self_reference_diverges; [| reflexivity].
    do 3 eexists. split; [reflexivity |]. split; [left; reflexivity |].
    split; [reflexivity |]. split; [discriminate |].
    split; [eexists; reflexivity | discriminate].
  - apply mutual_reference_diverges; try reflexivity;
      (do 3 eexists; split; [reflexivity |]; split; [left; reflexivity |];
       split; [reflexivity |]; split; [discriminate |];
       split; [eexists; reflexivity | discriminate]).
Qed.

(** Where the registry already holds the title of [Node], the check stops
    the descent and the synthesis returns. *)
Example registered_self_reference_returns :
  ∃ swagger',
    getComponentByModel cyclicEnv 1
      (setSchema "Node"
         (openapi3.mkSchemaRef EmptyString
            (Some (openapi3.setTitle "Node" openapi3.NewObjectSchema)))
         emptySwagger)
      (Some (TNamed "Node")) false
    = Ok swagger'.
Proof. eexists. vm_compute. reflexivity. Qed.

(** ** The registry: keys and titles *)

Lemma insertsKeyed_refl (swagger : Swagger) : insertsKeyed swagger swagger.
Proof. intros k r H. now left. Qed.

Lemma insertsKeyed_trans (a b c : Swagger) :
  insertsKeyed a b -> insertsKeyed b c -> insertsKeyed a c.
Proof.
  intros Hab Hbc k r H. destruct (Hbc k r H) as [Hb | Hk]; [| now right].
  exact (Hab k r Hb).
Qed.

Lemma insertsKeyed_setSchema (swagger : Swagger) (schema : Schema) (ref : string) :
  insertsKeyed swagger
    (setSchema (openapi3.Title schema) (openapi3.mkSchemaRef ref (Some schema)) swagger).
Proof.
  intros k r H. simpl in H.
  destruct (decide (openapi3.Title schema = k)) as [<- | Hne].
  - rewrite lookup_insert_eq in H. injection H as <-. right. now exists schema.
  - rewrite lookup_insert_ne in H by exact Hne. now left.
Qed.

Lemma insertsKeyed_keyed (before after : Swagger) :
  insertsKeyed before after -> keyed before -> keyed after.
Proof. intros Hins Hk k r H. destruct (Hins k r H) as [Hb | ?]; [eauto | assumption]. Qed.

Lemma enumSchema_keyed (env : TypeEnv) (swagger swagger' : Swagger) (typ_ : GoType)
    (valEnums : list (string * Const)) (x : string * Schema) :
  enumSchema env swagger typ_ valEnums = Ok (swagger', x) ->
  insertsKeyed swagger swagger'.
Proof.
  unfold enumSchema. intros H. bind_ok H. injection H as <- _.
  intros k r Hk. cbn [RegisterCustomTypeFunc Schemas] in Hk.
  revert k r Hk.
  exact (insertsKeyed_setSchema swagger
           (openapi3.setXEnumVarnames (Some (fst <$> valEnums))
              (openapi3.setEnum (snd <$> valEnums)
                 (openapi3.setTitle (nameOf typ_) a))) EmptyString).
Qed.

(** The loops thread the registry through the calls of their rounds. *)
Lemma forFields_keyed {X : Type} (body : Swagger * X -> StructField -> result (Swagger * X))
    (fields : list StructField) :
  (∀ swagger x f swagger' x',
     body (swagger, x) f = Ok (swagger', x') -> insertsKeyed swagger swagger') ->
  ∀ swagger x swagger' x',
    forFields body fields (swagger, x) = Ok (swagger', x') ->
    insertsKeyed swagger swagger'.
Proof.
  intros Hbody swagger x swagger' x' H.
  apply (forFields_invariant body (fun st => insertsKeyed swagger (fst st)) fields)
    with (st := (swagger, x)) (st' := (swagger', x')) in H.
  - exact H.
  - intros [sw1 x1] f [sw2 x2] _ Hst Hb. simpl in *.
    eapply insertsKeyed_trans; [exact Hst |]. exact (Hbody _ _ _ _ _ Hb).
  - apply insertsKeyed_refl.
Qed.

Lemma requestField_keyed (env : TypeEnv) (gsv : SchemaWalker) :
  schemaWalkerKeyed gsv ->
  ∀ swagger schema f swagger' schema',
    requestField env gsv (swagger, schema) f = Ok (swagger', schema') ->
    insertsKeyed swagger swagger'.
Proof.
  intros Hgsv swagger schema f swagger' schema' H. unfold requestField in H.
  walk H; injection H as <- _; eauto using insertsKeyed_refl.
Qed.

Lemma responseField_keyed (env : TypeEnv) (gsv : SchemaWalker) :
  schemaWalkerKeyed gsv ->
  ∀ swagger schema f swagger' schema',
    responseField env gsv (swagger, schema) f = Ok (swagger', schema') ->
    insertsKeyed swagger swagger'.
Proof.
  intros Hgsv swagger schema f swagger' schema' H. unfold responseField in H.
  walk H; injection H as <- _; eauto using insertsKeyed_refl.
Qed.

Lemma parameterField_keyed (env : TypeEnv) (gsv : SchemaWalker) :
  schemaWalkerKeyed gsv ->
  ∀ swagger ps f swagger' ps',
    parameterField env gsv (swagger, ps) f = Ok (swagger', ps') ->
    insertsKeyed swagger swagger'.
Proof.
  intros Hgsv swagger ps f swagger' ps' H. unfold parameterField in H.
  walk H; injection H as <- _; eauto using insertsKeyed_refl.
Qed.

Lemma unlessExists_keyed (gcm : ComponentWalker) (swagger swagger' : Swagger)
    (name : string) (model : option GoType) :
  componentWalkerKeyed gcm ->
  unlessExists gcm swagger name model = Ok swagger' -> insertsKeyed swagger swagger'.
Proof.
  intros Hgcm H. unfold unlessExists in H.
  destruct (negb (checkSchemaExist swagger name)); [eauto |].
  injection H as <-. apply insertsKeyed_refl.
Qed.

Lemma componentField_keyed (env : TypeEnv) (gsv : SchemaWalker)
    (gcm : ComponentWalker) (isRequest : bool) :
  schemaWalkerKeyed gsv -> componentWalkerKeyed gcm ->
  ∀ swagger schema f swagger' schema',
    componentField env gsv gcm isRequest (swagger, schema) f = Ok (swagger', schema') ->
    insertsKeyed swagger swagger'.
Proof.
  intros Hgsv Hgcm swagger schema f swagger' schema' H. unfold componentField in H.
  walk_all;
    repeat match goal with
      | H : Ok _ = Ok _ |- _ => injection H as H; subst
      end;
    eauto using insertsKeyed_refl, insertsKeyed_trans, unlessExists_keyed.
Qed.

(** The three walkers of a value, by induction on the fuel. *)
Lemma walkers_keyed (env : TypeEnv) (fuel : nat) :
  (∀ request, schemaWalkerKeyed (fun swagger t => getSchemaByValue env fuel swagger t request))
  ∧ schemaWalkerKeyed (getRequestSchemaByModel env fuel)
  ∧ schemaWalkerKeyed (getResponseSchemaByModel env fuel).
Proof.
  induction fuel as [|fuel (IHv & IHq & IHp)];
    [repeat split; repeat intro; discriminate |].
  assert (Hq : schemaWalkerKeyed (getRequestSchemaByModel env (S fuel))).
  { intros swagger t swagger' x H. cbn [getRequestSchemaByModel] in H.
    destruct t as [mt |]; [| injection H as <- _; apply insertsKeyed_refl].
    bind_ok H.
    destruct (kindOf env a); try exact (IHv true _ _ _ _ H).
    - bind_ok H. bind_ok H. destruct a1 as [sw1 [ref s]]. injection H as <- _.
      exact (IHq _ _ _ _ Ha1).
    - bind_ok H. bind_ok H. destruct a1 as [sw1 [ref s]]. injection H as <- _.
      exact (IHq _ _ _ _ Ha1).
    - bind_ok H. destruct a0 as [sw1 s]. injection H as <- _.
      eapply forFields_keyed; [| exact Ha0].
      apply requestField_keyed, IHv. }
  assert (Hp : schemaWalkerKeyed (getResponseSchemaByModel env (S fuel))).
  { intros swagger t swagger' x H. cbn [getResponseSchemaByModel] in H.
    destruct t as [mt |]; [| injection H as <- _; apply insertsKeyed_refl].
    bind_ok H.
    destruct (kindOf env a); try exact (IHv false _ _ _ _ H).
    - bind_ok H. bind_ok H. destruct a1 as [sw1 [ref s]]. injection H as <- _.
      exact (IHp _ _ _ _ Ha1).
    - bind_ok H. bind_ok H. destruct a1 as [sw1 [ref s]]. injection H as <- _.
      exact (IHp _ _ _ _ Ha1).
    - bind_ok H. destruct a0 as [sw1 s]. injection H as <- _.
      eapply forFields_keyed; [| exact Ha0].
      apply responseField_keyed, IHv. }
  split; [| split; assumption].
  intros request swagger t swagger' x H. cbn [getSchemaByValue] in H.
  destruct (typeSwitch env t);
    try (injection H as <- _; apply insertsKeyed_refl); try discriminate H.
  - exact (enumSchema_keyed _ _ _ _ _ _ H).
  - destruct request; [exact (IHq _ _ _ _ H) | exact (IHp _ _ _ _ H)].
Qed.

Lemma getComponentByModel_keyed (env : TypeEnv) (isRequest : bool) (fuel : nat) :
  componentWalkerKeyed
    (fun swagger model => getComponentByModel env fuel swagger model isRequest).
Proof.
  induction fuel as [|fuel IH]; intros swagger model swagger' H; [discriminate |].
  destruct model as [mt |]; [| injection H as <-; apply insertsKeyed_refl].
  rewrite getComponentByModel_S in H. bind_ok H. bind_ok H.
  destruct a0 as [sw1 schema]. injection H as <-.
  eapply insertsKeyed_trans; [| apply insertsKeyed_setSchema].
  destruct (decide (kindOf env a = reflect.Struct));
    [| injection Ha0 as <- _; apply insertsKeyed_refl].
  eapply forFields_keyed; [| exact Ha0].
  apply componentField_keyed; [| exact IH].
  apply (walkers_keyed env fuel).
Qed.

Lemma checkSchemaExist_true (swagger : Swagger) (name : string) :
  checkSchemaExist swagger name = true
  <-> ∃ k r v, Schemas swagger !! k = Some r
        ∧ openapi3.Value r = Some v ∧ openapi3.Title v = name.
Proof.
  unfold checkSchemaExist, titled. rewrite existsb_exists. split.
  - intros ([k r] & Hin & Ht). simpl in Ht.
    apply list_elem_of_In, elem_of_map_to_list in Hin.
    destruct (openapi3.Value r) as [v |] eqn:Hv; [| discriminate].
    apply String.eqb_eq in Ht. eauto 6.
  - intros (k & r & v & Hk & Hv & Ht). exists (k, r). split.
    + now apply list_elem_of_In, elem_of_map_to_list.
    + simpl. rewrite Hv. now apply String.eqb_eq.
Qed.

(** In a registry whose entries are stored under their titles, the search
    by title and the lookup by key agree. *)
Lemma checkSchemaExist_lookup (swagger : Swagger) (name : string) :
  keyed swagger ->
  (checkSchemaExist swagger name = true <-> is_Some (Schemas swagger !! name)).
Proof.
  intros Hkeyed. rewrite checkSchemaExist_true. split.
  - intros (k & r & v & Hk & Hv & Ht).
    destruct (Hkeyed k r Hk) as (v' & Hv' & Ht').
    rewrite Hv in Hv'. injection Hv' as <-. rewrite <- Ht, Ht'. eauto.
  - intros [r Hr]. destruct (Hkeyed name r Hr) as (v & Hv & Ht). eauto 6.
Qed.

(** C10. Every entry that a synthesis leaves in the registry was there
    before it or is stored under a key equal to the title of its schema,
    whether [getComponentByModel] inserted it or the enum path of
    [getSchemaByValue]; so from a registry whose entries are stored under
    their titles, the empty one for instance, the synthesis gives such a
    registry again, and in it the existence check, which searches the
    entries by title, agrees with the lookup by key. *)
Theorem registry_keyed_by_title (env : TypeEnv) (fuel : nat)
    (swagger swagger' : Swagger) (model : option GoType) (isRequest : bool) :
  (getComponentByModel env fuel swagger model isRequest = Ok swagger'
   ∨ ∃ x, getSchemaByValue env fuel swagger model isRequest = Ok (swagger', x)) ->
  insertsKeyed swagger swagger'
  ∧ (keyed swagger ->
     keyed swagger'
     ∧ ∀ name, checkSchemaExist swagger' name = true
               <-> is_Some (Schemas swagger' !! name)).
Proof.
  intros H.
  assert (Hins : insertsKeyed swagger swagger').
  { destruct H as [H | [x H]].
    - exact (getComponentByModel_keyed env isRequest fuel _ _ _ H).
    - exact (proj1 (walkers_keyed env fuel) isRequest _ _ _ _ H). }
  split; [exact Hins |]. intros Hkeyed.
  pose proof (insertsKeyed_keyed _ _ Hins Hkeyed) as Hkeyed'.
  split; [exact Hkeyed' |]. intros name. now apply checkSchemaExist_lookup.
Qed.

Lemma keyed_empty : keyed emptySwagger.
Proof. intros k r H. simpl in H. now rewrite lookup_empty in H. Qed.

Lemma registry_keyed_by_title_witness :
  ∃ swagger',
    getComponentByModel (colorEnv colorsAB) 3 emptySwagger (Some (TNamed "Paint")) false
      = Ok swagger'
    ∧ insertsKeyed emptySwagger swagger'
    ∧ keyed swagger'
    ∧ (checkSchemaExist swagger' "Color" = true
       <-> is_Some (Schemas swagger' !! "Color")).
Proof.
  destruct (getComponentByModel (colorEnv colorsAB) 3 emptySwagger
              (Some (TNamed "Paint")) false) as [swagger' | |] eqn:E;
    try (vm_compute in E; discriminate).
  destruct (registry_keyed_by_title (colorEnv colorsAB) 3 emptySwagger swagger'
              (Some (TNamed "Paint")) false (or_introl E)) as [Hins Hkeyed].
  destruct (Hkeyed keyed_empty) as [Hk Hcheck].
  exists swagger'. split; [reflexivity |]. split; [exact Hins |].
  split; [exact Hk | exact (Hcheck "Color")].
Defined.

(** ** A second synthesis *)

Lemma grows_refl (a : Swagger) : grows a a [].
Proof. repeat split. intros k v H. inversion H. Qed.

Lemma replay_app (l2 l1 : list (string * SchemaRef)) (m : gmap string SchemaRef) :
  replay (l2 ++ l1) m = replay l2 (replay l1 m).
Proof. unfold replay. apply foldr_app. Qed.

Lemma grows_trans (a b c : Swagger) (l1 l2 : list (string * SchemaRef)) :
  grows a b l1 -> grows b c l2 -> grows a c (l2 ++ l1).
Proof.
  intros (Hs1 & Hm1 & Hk1) (Hs2 & Hm2 & Hk2). split; [| split].
  - now rewrite Hs2, Hs1, app_assoc.
  - now rewrite Hm2, Hm1, replay_app.
  - intros k v [H | H]%elem_of_app; eauto.
Qed.

Lemma grows_setSchema (a : Swagger) (schema : Schema) (ref : string) :
  grows a
    (setSchema (openapi3.Title schema) (openapi3.mkSchemaRef ref (Some schema)) a)
    [(openapi3.Title schema, openapi3.mkSchemaRef ref (Some schema))].
Proof.
  repeat split. intros k v [= -> ->]%list_elem_of_singleton. now exists schema.
Qed.

Lemma replay_lookup (l : list (string * SchemaRef)) (m : gmap string SchemaRef)
    (k : string) (e : SchemaRef) :
  replay l m !! k = Some e -> (k, e) ∈ l ∨ m !! k = Some e.
Proof.
  induction l as [|[k' e'] l IH]; simpl; [now right |].
  destruct (decide (k' = k)) as [-> | Hne].
  - rewrite lookup_insert_eq. intros [= ->]. left. left.
  - rewrite lookup_insert_ne by exact Hne. intros H.
    destruct (IH H) as [Hin | Hm]; [left; now right | now right].
Qed.

Lemma covers_app (r : Swagger) (l2 l1 : list (string * SchemaRef)) :
  covers r (l2 ++ l1) <-> covers r l2 ∧ covers r l1.
Proof.
  unfold covers. split.
  - intros H. split; intros k v Hin; apply H, elem_of_app; auto.
  - intros [H2 H1] k v [Hin | Hin]%elem_of_app; auto.
Qed.

Lemma covers_ext (r r' : Swagger) (l : list (string * SchemaRef)) :
  Schemas r' = Schemas r -> covers r l -> covers r' l.
Proof. intros Heq H k v Hin. rewrite Heq. exact (H k v Hin). Qed.

Lemma checkSchemaExist_ext (r r' : Swagger) (name : string) :
  Schemas r' = Schemas r -> checkSchemaExist r' name = checkSchemaExist r name.
Proof. intros Heq. unfold checkSchemaExist. now rewrite Heq. Qed.

Lemma titlesIncl_ext (a r r' : Swagger) :
  Schemas r' = Schemas r -> titlesIncl a r -> titlesIncl a r'.
Proof. intros Heq H name Ha. rewrite (checkSchemaExist_ext r r' name Heq). auto. Qed.

(** The titles of a registry that grew are found where the titles of the
    registry it grew from and its stores are. *)
Lemma titlesIncl_grows (a b r : Swagger) (l : list (string * SchemaRef)) :
  grows a b l -> covers r l -> titlesIncl a r -> titlesIncl b r.
Proof.
  intros (_ & Hm & _) Hcov Hincl name Hb.
  apply checkSchemaExist_true in Hb as (k & e & v & Hk & Hv & Ht).
  rewrite Hm in Hk. apply replay_lookup in Hk as [Hin | Ha].
  - apply checkSchemaExist_true. exists k, e, v. auto.
  - apply Hincl, checkSchemaExist_true. eauto 6.
Qed.

Lemma setSchema_covered (r : Swagger) (k : string) (v : SchemaRef) :
  covers r [(k, v)] -> Schemas (setSchema k v r) = Schemas r.
Proof. intros H. simpl. apply insert_id, H. left. Qed.

(** *** Steps that are absorbed *)

Lemma absorbed_ret {Y : Type} (y : Y) : absorbed (fun a => Ok (a, y)).
Proof.
  intros a b y' [= <- <-]. exists []. split; [apply grows_refl |]. eauto.
Qed.

Lemma absorbed_Panic {Y : Type} (msg : string) :
  absorbed (fun _ => Panic msg : result (Swagger * Y)).
Proof. intros a b y [=]. Qed.

Lemma absorbed_OutOfFuel {Y : Type} :
  absorbed (fun _ => OutOfFuel : result (Swagger * Y)).
Proof. intros a b y [=]. Qed.

Lemma absorbed_bind {Y Z : Type} (m : Swagger -> result (Swagger * Y))
    (k : Swagger * Y -> result (Swagger * Z)) :
  absorbed m -> (∀ y, absorbed (fun a => k (a, y))) ->
  absorbed (fun a => m a ≫= k).
Proof.
  intros Hm Hk a c z H. bind_ok H. destruct a0 as [b y].
  destruct (Hm a b y Ha) as (l1 & Hg1 & Hr1).
  destruct (Hk y b c z H) as (l2 & Hg2 & Hr2).
  exists (l2 ++ l1). split; [exact (grows_trans _ _ _ _ _ Hg1 Hg2) |].
  intros r [Hc2 Hc1]%covers_app Hincl.
  destruct (Hr1 r Hc1 Hincl) as (r1 & Hrun1 & Heq1).
  destruct (Hr2 r1) as (r2 & Hrun2 & Heq2).
  - exact (covers_ext _ _ _ Heq1 Hc2).
  - apply (titlesIncl_ext _ r _ Heq1). exact (titlesIncl_grows _ _ _ _ Hg1 Hc1 Hincl).
  - exists r2. rewrite Hrun1. split; [exact Hrun2 | congruence].
Qed.

Lemma absorbed0_bind {Z : Type} (m : Swagger -> result Swagger)
    (k : Swagger -> result (Swagger * Z)) :
  absorbed0 m -> absorbed k -> absorbed (fun a => m a ≫= k).
Proof.
  intros Hm Hk a c z H. bind_ok H. rename a0 into b.
  destruct (Hm a b Ha) as (l1 & Hg1 & Hr1).
  destruct (Hk b c z H) as (l2 & Hg2 & Hr2).
  exists (l2 ++ l1). split; [exact (grows_trans _ _ _ _ _ Hg1 Hg2) |].
  intros r [Hc2 Hc1]%covers_app Hincl.
  destruct (Hr1 r Hc1 Hincl) as (r1 & Hrun1 & Heq1).
  destruct (Hr2 r1) as (r2 & Hrun2 & Heq2).
  - exact (covers_ext _ _ _ Heq1 Hc2).
  - apply (titlesIncl_ext _ r _ Heq1). exact (titlesIncl_grows _ _ _ _ Hg1 Hc1 Hincl).
  - exists r2. rewrite Hrun1. split; [exact Hrun2 | congruence].
Qed.

Lemma forFields_absorbed {X : Type}
    (body : Swagger * X -> StructField -> result (Swagger * X))
    (fields : list StructField) :
  (∀ x f, absorbed (fun a => body (a, x) f)) ->
  ∀ x, absorbed (fun a => forFields body fields (a, x)).
Proof.
  intros Hbody. induction fields as [|f fields IH]; intros x.
  - apply absorbed_ret.
  - cbn [forFields].
    apply (absorbed_bind (fun a => body (a, x) f) (forFields body fields)).
    + apply Hbody.
    + exact IH.
Qed.

(** Takes a goal [absorbed step] apart along the parts of [step] that do
    not depend on the registry. *)
Ltac pure_bind :=
  lazymatch goal with
  | |- absorbed (fun a => mbind _ ?e) =>
      destruct e as [? | |] eqn:?; cbn [mbind result_bind];
      [| apply absorbed_Panic | apply absorbed_OutOfFuel]
  end.

Ltac absorb_pure :=
  repeat first
    [ apply absorbed_ret | apply absorbed_Panic | apply absorbed_OutOfFuel
    | pure_bind
    | lazymatch goal with
      | |- absorbed (fun a => match ?e with _ => _ end) => destruct e eqn:?
      | |- absorbed (fun a => mbind _ (match ?e with _ => _ end)) => destruct e eqn:?
      end
    | progress cbn beta iota zeta
    | progress cbn [mbind result_bind] ].

(** The same, through the calls of walkers that are absorbed. *)
Ltac absorb :=
  repeat first
    [ progress absorb_pure
    | solve [eauto]
    | apply absorbed_bind;
      [ |
        let y := fresh "y" in
        intros y;
        lazymatch type of y with
        | (_ * _)%type => destruct y
        | _ => idtac
        end ]
    | apply absorbed0_bind; [ solve [eauto] |] ].

Lemma enumSchema_absorbed (env : TypeEnv) (typ_ : GoType)
    (valEnums : list (string * Const)) :
  absorbed (fun a => enumSchema env a typ_ valEnums).
Proof.
  intros a b y H. unfold enumSchema in *.
  destruct (NewEnumSchema (nameOf typ_) (kindOf env typ_)) as [base | |];
    [| discriminate ..].
  cbn [mbind result_bind] in *. injection H as <- <-.
  eexists [_]. split.
  - split; [| split]; [reflexivity | reflexivity |].
    intros k v [= -> ->]%list_elem_of_singleton. eexists. split; reflexivity.
  - intros r Hcov _. eexists. split; [reflexivity |].
    cbn [RegisterCustomTypeFunc Schemas]. exact (setSchema_covered _ _ _ Hcov).
Qed.

Lemma requestField_absorbed (env : TypeEnv) (gsv : SchemaWalker) :
  schemaWalkerAbsorbed gsv ->
  ∀ x f, absorbed (fun a => requestField env gsv (a, x) f).
Proof. intros Hgsv x f. unfold requestField. absorb. Qed.

Lemma responseField_absorbed (env : TypeEnv) (gsv : SchemaWalker) :
  schemaWalkerAbsorbed gsv ->
  ∀ x f, absorbed (fun a => responseField env gsv (a, x) f).
Proof. intros Hgsv x f. unfold responseField. absorb. Qed.

Lemma walkers_absorbed (env : TypeEnv) (fuel : nat) :
  (∀ request,
     schemaWalkerAbsorbed (fun a t => getSchemaByValue env fuel a t request))
  ∧ schemaWalkerAbsorbed (getRequestSchemaByModel env fuel)
  ∧ schemaWalkerAbsorbed (getResponseSchemaByModel env fuel).
Proof.
  induction fuel as [|fuel (IHv & IHq & IHp)].
  { repeat split; repeat intro; discriminate. }
  pose proof (IHv true) as IHvq. pose proof (IHv false) as IHvp.
  assert (Hq : schemaWalkerAbsorbed (getRequestSchemaByModel env (S fuel))).
  { intros t. cbn [getRequestSchemaByModel]. destruct t as [mt |]; absorb_pure;
      try exact (IHvq _);
      (apply absorbed_bind;
       [ first [ apply IHq | apply forFields_absorbed, requestField_absorbed, IHvq ]
       | intros [? ?]; absorb_pure ]). }
  assert (Hp : schemaWalkerAbsorbed (getResponseSchemaByModel env (S fuel))).
  { intros t. cbn [getResponseSchemaByModel]. destruct t as [mt |]; absorb_pure;
      try exact (IHvp _);
      (apply absorbed_bind;
       [ first [ apply IHp | apply forFields_absorbed, responseField_absorbed, IHvp ]
       | intros [? ?]; absorb_pure ]). }
  split; [| split; assumption].
  intros request t. cbn [getSchemaByValue].
  destruct (typeSwitch env t); absorb_pure;
    first [apply enumSchema_absorbed | apply IHq | apply IHp].
Qed.

Lemma unlessExists_absorbed (gcm : ComponentWalker) :
  componentWalkerAbsorbed gcm ->
  ∀ name model, absorbed0 (fun a => unlessExists gcm a name model).
Proof.
  intros Hgcm name model a b H. unfold unlessExists in H.
  destruct (checkSchemaExist a name) eqn:Hfound; cbn [negb] in H.
  - injection H as <-. exists []. split; [apply grows_refl |].
    intros r _ Hincl. exists r. unfold unlessExists.
    now rewrite (Hincl name Hfound).
  - destruct (Hgcm model a b H) as (l & Hg & Hr). exists l. split; [exact Hg |].
    intros r Hcov Hincl. unfold unlessExists.
    destruct (checkSchemaExist r name); cbn [negb]; [eauto | auto].
Qed.

Lemma componentField_absorbed (env : TypeEnv) (gsv : SchemaWalker)
    (gcm : ComponentWalker) (isRequest : bool) :
  schemaWalkerAbsorbed gsv -> componentWalkerAbsorbed gcm ->
  ∀ x f, absorbed (fun a => componentField env gsv gcm isRequest (a, x) f).
Proof.
  intros Hgsv Hgcm x f. unfold componentField.
  pose proof (unlessExists_absorbed gcm Hgcm) as Hunless.
  absorb.
Qed.

(** The end of [getComponentByModel] after a loop that is absorbed. *)
Lemma registerComponent_absorbed (type_ : GoType)
    (loop : Swagger -> result (Swagger * Schema)) :
  absorbed loop ->
  absorbed0 (fun a => loop a ≫= fun st => Ok (registerComponent type_ st)).
Proof.
  intros Hloop a b H. bind_ok H. destruct a0 as [a1 schema]. injection H as <-.
  destruct (Hloop a a1 schema Ha) as (l & Hg & Hr).
  eexists (_ :: l). split.
  - exact (grows_trans _ _ _ _ _ Hg (grows_setSchema a1 _ EmptyString)).
  - intros r Hcov Hincl. apply (covers_app r [_] l) in Hcov as [Hc1 Hcl].
    destruct (Hr r Hcl Hincl) as (r1 & Hrun & Heq).
    rewrite Hrun. eexists. split; [reflexivity |].
    unfold registerComponent. rewrite setSchema_covered; [exact Heq |].
    exact (covers_ext _ _ _ Heq Hc1).
Qed.

Lemma absorbed0_ext (step step' : Swagger -> result Swagger) :
  (∀ a, step a = step' a) -> absorbed0 step' -> absorbed0 step.
Proof.
  intros Hext H a b Hrun. rewrite Hext in Hrun.
  destruct (H a b Hrun) as (l & Hg & Hr). exists l. split; [exact Hg |].
  intros r Hcov Hincl. rewrite Hext. auto.
Qed.

Lemma getComponentByModel_absorbed (env : TypeEnv) (isRequest : bool) (fuel : nat) :
  componentWalkerAbsorbed
    (fun a model => getComponentByModel env fuel a model isRequest).
Proof.
  induction fuel as [|fuel IH]; intros model; [intros a b H; discriminate |].
  destruct model as [mt |].
  - apply (absorbed0_ext _ _ (fun a => getComponentByModel_S env fuel a mt isRequest)).
    destruct (deref env mt) as [type_ | |] eqn:Hderef; cbn [mbind result_bind];
      [| intros a b H; discriminate ..].
    apply (registerComponent_absorbed type_).
    destruct (decide (kindOf env type_ = reflect.Struct)); [| apply absorbed_ret].
    apply forFields_absorbed, componentField_absorbed; [| exact IH].
    apply (walkers_absorbed env fuel).
  - intros a b [= <-]. exists []. split; [apply grows_refl |]. eauto.
Qed.

(** *** The registry a synthesis leaves *)

Lemma replay_lookup_cases (l : list (string * SchemaRef))
    (m : gmap string SchemaRef) (k : string) :
  (∃ e, replay l m !! k = Some e ∧ (k, e) ∈ l) ∨ replay l m !! k = m !! k.
Proof.
  induction l as [|[k' e'] l IH]; simpl; [now right |].
  destruct (decide (k' = k)) as [-> | Hne].
  - left. exists e'. rewrite lookup_insert_eq. split; [reflexivity | left].
  - rewrite lookup_insert_ne by exact Hne.
    destruct IH as [(e & He & Hin) | IH]; [left | now right].
    exists e. split; [exact He | now right].
Qed.

Lemma replay_lookup_stored (l : list (string * SchemaRef))
    (m : gmap string SchemaRef) (k : string) (v : SchemaRef) :
  (k, v) ∈ l -> ∃ e, replay l m !! k = Some e ∧ (k, e) ∈ l.
Proof.
  induction l as [|[k' e'] l IH]; intros Hin; [inversion Hin |]. simpl.
  destruct (decide (k' = k)) as [-> | Hne].
  - exists e'. rewrite lookup_insert_eq. split; [reflexivity | left].
  - rewrite lookup_insert_ne by exact Hne.
    apply elem_of_cons in Hin as [[= -> ->] | Hin]; [contradiction |].
    destruct (IH Hin) as (e & He & Hin'). exists e. split; [exact He | now right].
Qed.

(** Stores that agree are all held by the registry they lead to. *)
Lemma covers_replay (a b : Swagger) (l : list (string * SchemaRef)) :
  grows a b l -> storesAgree l -> covers b l.
Proof.
  intros (_ & Hm & _) Hagree k v Hin. rewrite Hm.
  destruct (replay_lookup_stored l (Schemas a) k v Hin) as (e & He & Hin').
  rewrite He. f_equal. exact (Hagree k e v Hin' Hin).
Qed.

(** A registry whose entries are stored under their titles keeps its
    titles when it grows. *)
Lemma titlesIncl_keyed (a b : Swagger) (l : list (string * SchemaRef)) :
  keyed a -> grows a b l -> titlesIncl a b.
Proof.
  intros Hkeyed (_ & Hm & Hk) name Ha.
  apply checkSchemaExist_true in Ha as (k & e & v & Hlook & Hv & Ht).
  destruct (Hkeyed k e Hlook) as (v' & Hv' & Ht').
  rewrite Hv in Hv'. injection Hv' as <-.
  apply checkSchemaExist_true.
  destruct (replay_lookup_cases l (Schemas a) k) as [(e' & He' & Hin) | Hold].
  - destruct (Hk k e' Hin) as (w & Hw & Htw).
    exists k, e', w. rewrite Hm. split; [exact He' |]. split; [exact Hw | congruence].
  - exists k, e, v. rewrite Hm, Hold. auto.
Qed.

Lemma stores_unique (a b : Swagger) (l l' : list (string * SchemaRef)) :
  grows a b l -> Stored b = l' ++ Stored a -> l = l'.
Proof. intros (Hs & _) Hs'. rewrite Hs in Hs'. exact (app_inv_tail _ _ _ Hs'). Qed.

Lemma storesAgree_NoDup (l : list (string * SchemaRef)) :
  NoDup (l.*1) -> storesAgree l.
Proof.
  induction l as [|[k e] l IH]; intros Hnd k0 v v' Hv Hv'; [inversion Hv |].
  apply NoDup_cons in Hnd as [Hk Hnd].
  apply elem_of_cons in Hv as [Hv | Hv]; apply elem_of_cons in Hv' as [Hv' | Hv'].
  - congruence.
  - injection Hv as -> ->. exfalso. apply Hk, list_elem_of_fmap. now exists (k, v').
  - injection Hv' as -> ->. exfalso. apply Hk, list_elem_of_fmap. now exists (k, v).
  - exact (IH Hnd k0 v v' Hv Hv').
Qed.

(** C8, as the code has it.  Where no type has an [Enums] method, when a
    synthesis of a model, from a registry whose entries are stored under
    their titles, has returned, and no two of its stores put different
    entries under one title, a second synthesis of the same model returns
    and leaves the schemas of the registry as the first left them.  A store
    under a title overwrites the entry of that title: the registry has the
    new entry under the title and, when the title was present, the same
    keys as before, and as many.

    The enumerable types are left out because of what the source does with
    them: each synthesis visits the map of [Enums()] in an order of its
    own, and the entry of such a type is the very schema that the callers
    of [getSchemaByValue] write a description and a default into. *)
Theorem second_synthesis_unchanged (env : TypeEnv) (fuel : nat)
    (swagger swagger1 : Swagger) (model : option GoType) (isRequest : bool)
    (stores : list (string * SchemaRef)) :
  (∀ n, Enums (env n) = None) ->
  keyed swagger ->
  getComponentByModel env fuel swagger model isRequest = Ok swagger1 ->
  Stored swagger1 = stores ++ Stored swagger ->
  storesAgree stores ->
  (∃ swagger2,
     getComponentByModel env fuel swagger1 model isRequest = Ok swagger2
     ∧ Schemas swagger2 = Schemas swagger1)
  ∧ ∀ k v,
      Schemas (setSchema k v swagger1) !! k = Some v
      ∧ (is_Some (Schemas swagger1 !! k) ->
         dom (Schemas (setSchema k v swagger1)) = dom (Schemas swagger1)
         ∧ size (Schemas (setSchema k v swagger1)) = size (Schemas swagger1)).
Proof.
  intros _ Hkeyed Hrun Hstored Hagree. split.
  - destruct (getComponentByModel_absorbed env isRequest fuel model _ _ Hrun)
      as (l & Hg & Hr).
    rewrite <- (stores_unique _ _ _ _ Hg Hstored) in Hagree.
    apply Hr.
    + exact (covers_replay _ _ _ Hg Hagree).
    + exact (titlesIncl_keyed _ _ _ Hkeyed Hg).
  - intros k v. cbn [setSchema Schemas]. split; [apply lookup_insert_eq |].
    intros Hk. split.
    + apply dom_insert_lookup_L, Hk.
    + apply map_size_insert_Some, Hk.
Qed.

Lemma second_synthesis_unchanged_witness :
  ∃ swagger1 swagger2,
    getComponentByModel invoiceEnv 5 emptySwagger (Some (TNamed "Invoice")) false
      = Ok swagger1
    ∧ getComponentByModel invoiceEnv 5 swagger1 (Some (TNamed "Invoice")) false
      = Ok swagger2
    ∧ Schemas swagger2 = Schemas swagger1.
Proof.
  destruct (getComponentByModel invoiceEnv 5 emptySwagger
              (Some (TNamed "Invoice")) false) as [swagger1 | |] eqn:E;
    try (vm_compute in E; discriminate).
  assert (Hkeys : (Stored swagger1).*1 = ["Invoice"; "Line"; "Party"]).
  { vm_compute in E. injection E as <-. reflexivity. }
  assert (Hagree : storesAgree (Stored swagger1)).
  { apply storesAgree_NoDup. rewrite Hkeys. clear.
    repeat constructor; rewrite ?elem_of_cons, ?elem_of_nil;
      intros H; repeat destruct H as [H | H];
      first [exact H | discriminate H]. }
  assert (Hplain : ∀ n, Enums (invoiceEnv n) = None).
  { intros n. unfold invoiceEnv. repeat destruct (String.eqb n _); reflexivity. }
  destruct (second_synthesis_unchanged invoiceEnv 5 emptySwagger swagger1
              (Some (TNamed "Invoice")) false (Stored swagger1) Hplain keyed_empty E
              (eq_sym (app_nil_r _)) Hagree) as [(swagger2 & Hrun2 & Heq) _].
  exists swagger1, swagger2. split; [reflexivity |]. split; [exact Hrun2 | exact Heq].
Defined.

(** With an enumerable type the second synthesis need not leave the
    registry as it was: when it visits the map of [Enums()] in the other
    order, the entry of the type gets its values in the other order. *)
Example second_synthesis_other_order :
  ∃ swagger1 swagger2,
    getComponentByModel (colorEnv colorsAB) 3 emptySwagger (Some (TNamed "Paint")) false
      = Ok swagger1
    ∧ getComponentByModel (colorEnv colorsBA) 3 swagger1 (Some (TNamed "Paint")) false
      = Ok swagger2
    ∧ Schemas swagger2 ≠ Schemas swagger1.
Proof.
  destruct (getComponentByModel (colorEnv colorsAB) 3 emptySwagger
              (Some (TNamed "Paint")) false) as [swagger1 | |] eqn:E1;
    try (vm_compute in E1; discriminate).
  destruct (getComponentByModel (colorEnv colorsBA) 3 swagger1
              (Some (TNamed "Paint")) false) as [swagger2 | |] eqn:E2;
    try (vm_compute in E1; injection E1 as <-; vm_compute in E2; discriminate).
  exists swagger1, swagger2. split; [reflexivity |]. split; [exact E2 |].
  vm_compute in E1. injection E1 as <-. vm_compute in E2. injection E2 as <-.
  intros Heq. apply (f_equal (fun m => m !! "Color")) in Heq.
  vm_compute in Heq. discriminate.
Qed.

(** The claim of C8 fails where two types reached at different depths get
    the same title: the first synthesis of [Report] leaves under [APair]
    the schema of the pair of strings, stored last; the second finds
    [Holder] in the registry, does not descend into it, and leaves under
    [APair] the schema of the pair of ints. *)
Lemma second_synthesis_differs :
  ∃ swagger1 swagger2,
    getComponentByModel pairEnv 4 emptySwagger (Some (TNamed "Report")) false
      = Ok swagger1
    ∧ getComponentByModel pairEnv 4 swagger1 (Some (TNamed "Report")) false
      = Ok swagger2
    ∧ pairKeyTypes (Schemas swagger1) = Some ["string"]
    ∧ pairKeyTypes (Schemas swagger2) = Some ["integer"]
    ∧ Schemas swagger2 ≠ Schemas swagger1.
Proof.
  destruct (getComponentByModel pairEnv 4 emptySwagger (Some (TNamed "Report")) false)
    as [swagger1 | |] eqn:E1; try (vm_compute in E1; discriminate).
  destruct (getComponentByModel pairEnv 4 swagger1 (Some (TNamed "Report")) false)
    as [swagger2 | |] eqn:E2;
    try (vm_compute in E1; injection E1 as <-; vm_compute in E2; discriminate).
  assert (H1 : pairKeyTypes (Schemas swagger1) = Some ["string"]).
  { vm_compute in E1. injection E1 as <-. reflexivity. }
  assert (H2 : pairKeyTypes (Schemas swagger2) = Some ["integer"]).
  { vm_compute in E1. injection E1 as <-. vm_compute in E2. injection E2 as <-.
    reflexivity. }
  exists swagger1, swagger2. repeat split; try assumption.
  intros Heq. rewrite Heq, H1 in H2. discriminate.
Qed.

(** * Further properties of the code *)

(** ** Path rewriting leaves no positional segment *)

Lemma replaceAll_head (c : ascii) (r : string) :
  ∃ t, replaceAll false (String c r) = String c t.
Proof.
  cbn [replaceAll andb]. rewrite append_nil.
  destruct r as [|e [|d r]]; try (eexists; reflexivity).
  - destruct e as [[] [] [] [] [] [] [] []]; eexists; reflexivity.
  - destruct (Ascii.eqb_spec e ":") as [-> | Hne].
    + destruct (Ascii.eqb_spec c "/") as [-> | Hc]; cbn [andb].
      * destruct (isAlnum d); eexists; reflexivity.
      * eexists; reflexivity.
    + destruct e as [[] [] [] [] [] [] [] []]; try (eexists; reflexivity).
      now contradiction Hne.
Qed.

Lemma isAlnum_not_slash (c : ascii) : isAlnum c = true -> Ascii.eqb c "/" = false.
Proof.
  intros H. destruct (Ascii.eqb_spec c "/") as [-> |]; [discriminate | reflexivity].
Qed.

(** What opens a segment in the text: the test of the scanner. *)
Lemma replaceAll_false_cases (c : ascii) (r : string) :
  (∃ d r', r = String ":" (String d r') ∧ c = "/"%char ∧ isAlnum d = true
           ∧ replaceAll false (String c r)
             = String "/" (String "{" (String d (replaceAll true r'))))
  ∨ ((Ascii.eqb c "/" &&
      match r with String ":" (String d _) => isAlnum d | _ => false end) = false
     ∧ replaceAll false (String c r) = String c (replaceAll false r)).
Proof.
  destruct (Ascii.eqb c "/" &&
            match r with String ":" (String d _) => isAlnum d | _ => false end)
    eqn:Hopen.
  - left. apply andb_true_iff in Hopen as [Hc Hd].
    apply Ascii.eqb_eq in Hc as ->.
    destruct r as [|e [|d r']]; try discriminate.
    + destruct e as [[] [] [] [] [] [] [] []]; discriminate.
    + destruct (Ascii.eqb_spec e ":") as [-> | Hne].
      * exists d, r'. repeat split; [exact Hd |].
        cbn [replaceAll andb]. rewrite append_nil, Hd. reflexivity.
      * destruct e as [[] [] [] [] [] [] [] []]; try discriminate.
        now contradiction Hne.
  - right. split; [reflexivity |]. now apply replaceAll_copy.
Qed.

Lemma replaceAll_true_cases (c : ascii) (r : string) :
  (isAlnum c = true ∧ replaceAll true (String c r) = String c (replaceAll true r))
  ∨ (isAlnum c = false
     ∧ replaceAll true (String c r) = String "}" (replaceAll false (String c r))).
Proof.
  destruct (isAlnum c) eqn:Hc; [left | right]; split; try reflexivity.
  - cbn [replaceAll andb]. now rewrite Hc.
  - cbn [replaceAll andb]. now rewrite Hc.
Qed.

Lemma replaceAll_no_segment (n : nat) :
  ∀ s, String.length s <= n ->
       hasSegment (replaceAll false s) = false ∧ hasSegment (replaceAll true s) = false.
Proof.
  induction n as [|n IH]; intros s Hlen.
  { destruct s; [split; reflexivity | simpl in Hlen; lia]. }
  destruct s as [|c r]; [split; reflexivity |]. simpl in Hlen.
  assert (Hfalse : hasSegment (replaceAll false (String c r)) = false).
  { destruct (replaceAll_false_cases c r)
      as [(d & r' & -> & -> & Hd & ->) | [Hopen ->]].
    - cbn [hasSegment]. rewrite (isAlnum_not_slash d Hd).
      simpl in Hlen. apply (IH r'). lia.
    - cbn [hasSegment]. destruct (IH r ltac:(lia)) as [-> _].
      rewrite orb_false_r.
      destruct (Ascii.eqb_spec c "/") as [-> | Hc]; [| reflexivity]. cbn [andb].
      destruct r as [|e r1]; [reflexivity |].
      destruct (replaceAll_head e r1) as [t Ht]. rewrite Ht.
      destruct (Ascii.eqb_spec e ":") as [-> | He].
      + destruct r1 as [|d r']; cbn [andb] in Hopen.
        * cbn in Ht. injection Ht as <-. reflexivity.
        * destruct (replaceAll_false_cases ":" (String d r'))
            as [(? & ? & _ & [=] & _) | [_ Hcopy]].
          rewrite Hcopy in Ht.
          destruct (replaceAll_head d r') as [t' Ht']. rewrite Ht' in Ht.
          assert (Heq : t = String d t') by congruence.
          rewrite Heq. exact Hopen.
      + destruct e as [[] [] [] [] [] [] [] []]; try reflexivity.
        now contradiction He. }
  split; [exact Hfalse |].
  destruct (replaceAll_true_cases c r) as [[Hc ->] | [Hc ->]].
  - cbn [hasSegment]. rewrite (isAlnum_not_slash c Hc). cbn [andb orb].
    apply (IH r). lia.
  - cbn [hasSegment]. exact Hfalse.
Qed.

(** X1. What [fixPath] returns holds no positional segment [/:name] any
    more, so rewriting it again changes nothing; and a path without a
    positional segment is returned as it is. *)
Theorem fixPath_leaves_no_segment (path : string) :
  hasSegment (fixPath path) = false
  ∧ fixPath (fixPath path) = fixPath path
  ∧ (hasSegment path = false -> fixPath path = path).
Proof.
  assert (Hkeep : ∀ p, hasSegment p = false -> fixPath p = p).
  { intros p Hp. unfold fixPath.
    pose proof (replaceAll_literal p EmptyString Hp (or_introl eq_refl)) as H.
    assert (Hnil : ∀ s, s +:+ EmptyString = s).
    { induction s as [|c s IHs]; rewrite ?append_nil, ?append_cons;
        [reflexivity | now rewrite IHs]. }
    rewrite Hnil in H. rewrite H. cbn [replaceAll]. apply Hnil. }
  assert (Hno : hasSegment (fixPath path) = false)
    by exact (proj1 (replaceAll_no_segment (String.length path) path (le_n _))).
  split; [exact Hno |]. split; [exact (Hkeep _ Hno) | exact (Hkeep path)].
Qed.

Lemma fixPath_leaves_no_segment_witness :
  hasSegment (fixPath "/files/:id") = false
  ∧ fixPath (fixPath "/files/:id") = fixPath "/files/:id"
  ∧ fixPath "/health/live" = "/health/live".
Proof.
  destruct (fixPath_leaves_no_segment "/files/:id") as (H1 & H2 & _).
  destruct (fixPath_leaves_no_segment "/health/live") as (_ & _ & H3).
  split; [exact H1 |]. split; [exact H2 | exact (H3 eq_refl)].
Defined.

(** ** Types the walkers neither classify nor enter *)

Lemma leafKind_deref (env : TypeEnv) (t : GoType) :
  leafKind (kindOf env t) = true ->
  deref env t = Ok t ∧ zeroOf env t = Some t.
Proof.
  intros H. unfold deref, zeroOf.
  destruct (kindOf env t); try discriminate H; split; reflexivity.
Qed.

(** A value whose type no case of the type switch matches and whose kind the
    walkers of a model have no branch for is handed from the type switch to
    the walker of a model and back. *)
Lemma leaf_walk_diverges (env : TypeEnv) (t : GoType) :
  typeSwitch env (Some t) = CaseDefault -> leafKind (kindOf env t) = true ->
  ∀ fuel,
    (∀ swagger request, getSchemaByValue env fuel swagger (Some t) request = OutOfFuel)
    ∧ (∀ swagger, getRequestSchemaByModel env fuel swagger (Some t) = OutOfFuel)
    ∧ (∀ swagger, getResponseSchemaByModel env fuel swagger (Some t) = OutOfFuel).
Proof.
  intros Hswitch Hleaf. destruct (leafKind_deref env t Hleaf) as [Hderef Hzero].
  induction fuel as [|fuel (IHv & IHq & IHp)]; [repeat split |].
  split; [| split].
  - intros swagger request. cbn [getSchemaByValue]. rewrite Hswitch.
    destruct request; [apply IHq | apply IHp].
  - intros swagger. cbn [getRequestSchemaByModel]. rewrite Hderef.
    cbn [mbind result_bind].
    destruct (kindOf env t); try discriminate Hleaf; apply IHv.
  - intros swagger. cbn [getResponseSchemaByModel]. rewrite Hderef.
    cbn [mbind result_bind]. rewrite Hzero.
    destruct (kindOf env t); try discriminate Hleaf; apply IHv.
Qed.

(** X2. A value of a declared type that is not a pointer, struct, slice or
    map and that no case of the type switch matches, such as [type UserID
    int64] without an [Enums] method, is never given a schema: whatever the
    fuel, [getSchemaByValue] has not returned.  Neither has
    [getComponentByModel] on a struct whose first field is exported, has a
    well-formed tag, is of such a type and takes part in the component: any
    such field of a response model, and of a request model one with a form
    annotation.  A request model whose only field is of such a type and has
    no form annotation skips the field, and its component is registered. *)
Theorem unclassified_type_never_returns (env : TypeEnv) (t : GoType)
    (n : string) (f : StructField) (rest : list StructField)
    (tags : list (string * string)) (fuel : nat) (swagger : Swagger)
    (request isRequest : bool) :
  typeSwitch env (Some t) = CaseDefault -> leafKind (kindOf env t) = true ->
  underlying (env n) = UStruct (f :: rest) -> Typ f = t -> Tag f = Some tags ->
  IsExported f = true ->
  getSchemaByValue env fuel swagger (Some t) request = OutOfFuel
  ∧ (participates isRequest f = true ->
     getComponentByModel env fuel swagger (Some (TNamed n)) isRequest = OutOfFuel)
  ∧ (participates isRequest f = false -> rest = [] ->
     getComponentByModel env (S fuel) swagger (Some (TNamed n)) isRequest
     = Ok (registerComponent (TNamed n) (swagger, openapi3.NewObjectSchema))).
Proof.
  intros Hswitch Hleaf Hdecl Htyp Htag Hexp.
  pose proof (leaf_walk_diverges env t Hswitch Hleaf) as Hwalk.
  destruct (struct_shape env n _ Hdecl) as (Hk & Hd & _ & Hfs & _).
  destruct (leafKind_deref env t Hleaf) as [Hderef Hzero].
  split; [apply (Hwalk fuel) |]. split.
  - intros Hpart. destruct fuel as [|fuel]; [reflexivity |].
    rewrite getComponentByModel_S, Hd. cbn [mbind result_bind].
    rewrite Hk, Hfs. cbn [default from_option id].
    destruct (decide (reflect.Struct = reflect.Struct)); [| congruence].
    cbn [forFields].
    assert (Hskip : bool_decide (tagsGet tags FORM = None) && isRequest = false).
    { unfold participates in Hpart. rewrite Htag in Hpart.
      cbn [mbind option_bind] in Hpart.
      destruct isRequest; [| apply andb_false_r]. cbn [negb orb] in Hpart.
      apply bool_decide_eq_true_1 in Hpart.
      now rewrite bool_decide_eq_false_2. }
    assert (Hbody : ∀ schema,
              componentField env
                (fun swagger t => getSchemaByValue env fuel swagger t isRequest)
                (fun swagger model => getComponentByModel env fuel swagger model isRequest)
                isRequest (swagger, schema) f
              = OutOfFuel).
    { intros schema. unfold componentField, parseTag, derefInterface.
      rewrite Htag, Htyp, Hderef. cbn [mbind result_bind].
      rewrite Hskip, Hexp, Hzero.
      destruct (kindOf env t) eqn:Hkind; try discriminate Hleaf;
        (destruct (decide _); [discriminate |]);
        cbn [mbind result_bind]; now rewrite (proj1 (Hwalk fuel)). }
    now rewrite Hbody.
  - intros Hpart ->.
    rewrite getComponentByModel_S, Hd. cbn [mbind result_bind].
    rewrite Hk, Hfs. cbn [default from_option id].
    destruct (decide (reflect.Struct = reflect.Struct)); [| congruence].
    cbn [forFields].
    unfold participates in Hpart. rewrite Htag in Hpart.
    cbn [mbind option_bind] in Hpart.
    apply orb_false_iff in Hpart as [Hreq Hform].
    apply negb_false_iff in Hreq. subst isRequest.
    apply bool_decide_eq_false_1 in Hform.
    unfold componentField, parseTag. rewrite Htag. cbn [mbind result_bind].
    rewrite bool_decide_eq_true_2; [reflexivity |].
    destruct (tagsGet tags FORM); [exfalso; apply Hform; discriminate | reflexivity].
Qed.

Lemma unclassified_type_never_returns_witness :
  getSchemaByValue userIDEnv 50 emptySwagger (Some (TNamed "UserID")) true = OutOfFuel
  ∧ getComponentByModel userIDEnv 50 emptySwagger (Some (TNamed "User")) true
    = OutOfFuel
  ∧ getComponentByModel userIDEnv 50 emptySwagger (Some (TNamed "User")) false
    = OutOfFuel
  ∧ ∃ swagger',
      getComponentByModel userIDEnv 50 emptySwagger (Some (TNamed "Visitor")) true
        = Ok swagger'
      ∧ is_Some (Schemas swagger' !! "Visitor").
Proof.
  pose proof (unclassified_type_never_returns userIDEnv (TNamed "UserID") "User"
                {| Name := "ID"; Typ := TNamed "UserID";
                   Tag := Some [("form", "id"); ("json", "id")] |}
                [] [("form", "id"); ("json", "id")] 50 emptySwagger true)
    as Huser.
  destruct (Huser true eq_refl eq_refl eq_refl eq_refl eq_refl eq_refl)
    as (Hvalue & Hrequest & _).
  destruct (Huser false eq_refl eq_refl eq_refl eq_refl eq_refl eq_refl)
    as (_ & Hresponse & _).
  destruct (unclassified_type_never_returns userIDEnv (TNamed "UserID") "Visitor"
              {| Name := "ID"; Typ := TNamed "UserID"; Tag := Some [("json", "id")] |}
              [] [("json", "id")] 49 emptySwagger true true
              eq_refl eq_refl eq_refl eq_refl eq_refl eq_refl)
    as (_ & _ & Hvisitor).
  split; [exact Hvalue |]. split; [exact (Hrequest eq_refl) |].
  split; [exact (Hresponse eq_refl) |].
  eexists. split; [exact (Hvisitor eq_refl eq_refl) |]. vm_compute. eauto.
Defined.

(** ** The names of the tags *)

(** The first piece of a split holds no separator. *)
Lemma ContainsByte_firstOf_Split (s : string) (sep : ascii) :
  strings.ContainsByte (firstOf (strings.Split s sep)) sep = false.
Proof.
  unfold firstOf. induction s as [|c s IH]; [reflexivity |]. simpl.
  destruct (Ascii.eqb c sep) eqn:Hc; [reflexivity |].
  destruct (strings.Split s sep) as [|p ps]; simpl in *; now rewrite Hc.
Qed.

Lemma parseTags_commaFree (annotations : list (string * string)) :
  commaFree (parseTags annotations).
Proof.
  unfold commaFree, parseTags. apply Forall_fmap, Forall_forall.
  intros kv _. apply ContainsByte_firstOf_Split.
Qed.

(** The parser keeps the keys: the tag of a key is the name of the first
    annotation of that key. *)
Lemma tagsGet_parseTags (annotations : list (string * string)) (key : string) :
  tagsGet (parseTags annotations) key = tagName <$> tagsGet annotations key.
Proof.
  unfold tagsGet, parseTags.
  induction annotations as [|[k v] l IH]; [reflexivity |]. simpl.
  destruct (String.eqb k key); [reflexivity | exact IH].
Qed.

Lemma tagsGet_commaFree (tags : list (string * string)) (key name : string) :
  commaFree tags -> tagsGet tags key = Some name ->
  strings.ContainsByte name "," = false.
Proof.
  unfold commaFree, tagsGet. intros Hfree Hget.
  destruct (List.find _ tags) as [kv |] eqn:Hfind; [| discriminate].
  injection Hget as <-. apply List.find_some in Hfind as [Hin _].
  rewrite Forall_forall in Hfree. apply Hfree, list_elem_of_In, Hin.
Qed.

(** On the tags the parser returns, the test of the code says whether the
    name of the validate tag is [required]. *)
Lemma isRequiredTags_names (tags : list (string * string)) :
  commaFree tags -> isRequiredTags tags = namesRequired tags.
Proof.
  intros Hfree. unfold isRequiredTags, namesRequired.
  destruct (tagsGet tags VALIDATE) as [name |] eqn:Hget.
  - rewrite (Split_whole _ _ (tagsGet_commaFree _ _ _ Hfree Hget)).
    cbn [existsb]. rewrite orb_false_r.
    destruct (String.eqb_spec "required" name) as [<- | Hne].
    + now rewrite bool_decide_eq_true_2.
    + rewrite bool_decide_eq_false_2; [reflexivity | congruence].
  - now rewrite bool_decide_eq_false_2.
Qed.

Lemma isRequiredTags_field (f : StructField) :
  parsedField f ->
  isRequiredTags (default [] (Tag f)) = namesRequired (default [] (Tag f)).
Proof.
  intros Hf. apply isRequiredTags_names. unfold parsedField in Hf.
  destruct (Tag f) as [tags |]; [now apply Hf | constructor].
Qed.

Lemma omap_pointwise {A B : Type} (g h : A -> option B) (l : list A) :
  Forall (fun x => g x = h x) l -> omap g l = omap h l.
Proof.
  induction 1 as [|x l Hx _ IH]; [reflexivity |].
  change (match g x with Some y => y :: omap g l | None => omap g l end
          = match h x with Some y => y :: omap h l | None => omap h l end).
  now rewrite Hx, IH.
Qed.

Lemma listedName_parsed (isRequest : bool) (fields : list StructField) :
  Forall parsedField fields ->
  omap (listedName isRequest) fields = omap (requiredName isRequest) fields.
Proof.
  intros Hparsed. apply omap_pointwise. eapply Forall_impl; [exact Hparsed |].
  intros f Hf. unfold listedName, requiredName.
  now rewrite (isRequiredTags_field f Hf).
Qed.

Lemma listedJsonName_parsed (fields : list StructField) :
  Forall parsedField fields ->
  omap listedJsonName fields = omap requiredJsonName fields.
Proof.
  intros Hparsed. apply omap_pointwise. eapply Forall_impl; [exact Hparsed |].
  intros f Hf. unfold listedJsonName, requiredJsonName.
  now rewrite (isRequiredTags_field f Hf).
Qed.

(** ** The fields of a component and its required list *)

Lemma componentField_names (env : TypeEnv) (gsv : SchemaWalker)
    (gcm : ComponentWalker) (isRequest : bool) (swagger swagger' : Swagger)
    (schema schema' : Schema) (f : StructField) :
  componentField env gsv gcm isRequest (swagger, schema) f = Ok (swagger', schema') ->
  openapi3.Required schema'
  = openapi3.Required schema ++ option_list (listedName isRequest f)
  ∧ dom (openapi3.Properties schema')
    = dom (openapi3.Properties schema)
      ∪ (if participates isRequest f then {[componentName isRequest f]} else ∅).
Proof.
  unfold componentField, listedName, participates, componentName, parseTag.
  intros H. destruct (Tag f) as [tags |]; [| discriminate].
  cbn [mbind result_bind option_bind default from_option id] in *.
  destruct isRequest; cbn [negb orb andb] in *.
  - destruct (tagsGet tags FORM) as [tagName |] eqn:Hform.
    + rewrite bool_decide_eq_false_2 in H by discriminate.
      rewrite bool_decide_eq_true_2 by discriminate. cbn [andb] in *.
      walk_all;
        repeat match goal with
          | H : Ok _ = Ok _ |- _ => injection H as H; subst
          end;
        destruct (isRequiredTags tags); simpl;
        rewrite ?dom_insert_L, ?app_nil_r; split; (reflexivity || set_solver).
    + rewrite bool_decide_eq_true_2 in H by reflexivity. cbn [andb] in H.
      injection H as _ <-.
      rewrite bool_decide_eq_false_2 by (intros Hne; now apply Hne).
      simpl. rewrite app_nil_r. split; [reflexivity | set_solver].
  - rewrite andb_false_r in H.
    walk_all;
      repeat match goal with
        | H : Ok _ = Ok _ |- _ => injection H as H; subst
        end;
      destruct (isRequiredTags tags); simpl;
      rewrite ?dom_insert_L, ?app_nil_r; split; (reflexivity || set_solver).
Qed.

Lemma componentFields_names (env : TypeEnv) (gsv : SchemaWalker)
    (gcm : ComponentWalker) (isRequest : bool) (fields : list StructField) :
  ∀ swagger swagger' schema schema',
    forFields (componentField env gsv gcm isRequest) fields (swagger, schema)
      = Ok (swagger', schema') ->
    openapi3.Required schema'
    = openapi3.Required schema ++ omap (listedName isRequest) fields
    ∧ dom (openapi3.Properties schema')
      = dom (openapi3.Properties schema)
        ∪ list_to_set (componentName isRequest <$> filter (participates isRequest) fields).
Proof.
  induction fields as [|f fields IH]; intros sw sw' s s' H; simpl in H.
  - injection H as _ <-. simpl. rewrite app_nil_r. split; [reflexivity | set_solver].
  - bind_ok H. destruct a as [sw1 s1].
    destruct (componentField_names _ _ _ _ _ _ _ _ _ Ha) as [Hreq Hdom].
    destruct (IH _ _ _ _ H) as [Hreq' Hdom'].
    rewrite Hreq', Hreq, Hdom', Hdom. split.
    + rewrite <- app_assoc. f_equal. simpl.
      destruct (listedName isRequest f); reflexivity.
    + destruct (participates isRequest f) eqn:Hp.
      * rewrite filter_cons_True by (now rewrite Hp). simpl. set_solver.
      * rewrite filter_cons_False by (now rewrite Hp). set_solver.
Qed.

Lemma listedName_participates (isRequest : bool) (fields : list StructField)
    (x : string) :
  x ∈ omap (listedName isRequest) fields ->
  x ∈ componentName isRequest <$> filter (participates isRequest) fields.
Proof.
  intros (f & Hf & Hx)%list_elem_of_omap. unfold listedName in Hx.
  destruct (participates isRequest f) eqn:Hp; [| discriminate].
  destruct (isRequiredTags (default [] (Tag f))); [| discriminate].
  injection Hx as <-. apply list_elem_of_fmap. exists f. split; [reflexivity |].
  apply list_elem_of_filter. split; [now rewrite Hp | exact Hf].
Qed.

(** X3. The component that [getComponentByModel] registers for a struct has
    one property for each field that takes part (all fields for a response
    model, the fields with a form annotation for a request model).  Its
    required list holds, in the order of the fields, the keys of the fields
    that take part and whose validate tag has the name [required]; the name
    of a tag is the text of the annotation before its first comma, so
    [validate:"required,email"] lists the field and
    [validate:"omitempty,required"] does not.  Every name of the required
    list is the key of a property. *)
Theorem component_fields_and_required (env : TypeEnv) (fuel : nat)
    (swagger swagger' : Swagger) (mt type_ : GoType) (fields : list StructField)
    (isRequest : bool) :
  deref env mt = Ok type_ -> fieldsOf env type_ = Some fields ->
  Forall parsedField fields ->
  getComponentByModel env fuel swagger (Some mt) isRequest = Ok swagger' ->
  ∃ schema,
    Schemas swagger' !! removePackageName (nameOf type_)
      = Some (openapi3.mkSchemaRef EmptyString (Some schema))
    ∧ dom (openapi3.Properties schema)
      = list_to_set (componentName isRequest <$> filter (participates isRequest) fields)
    ∧ openapi3.Required schema = omap (requiredName isRequest) fields
    ∧ ∀ x, x ∈ openapi3.Required schema -> x ∈ dom (openapi3.Properties schema).
Proof.
  intros Hderef Hfields Hparsed H.
  pose proof (fieldsOf_Struct _ _ _ Hfields) as Hkind.
  destruct fuel as [|fuel]; [discriminate |].
  rewrite getComponentByModel_S, Hderef in H. cbn [mbind result_bind] in H.
  rewrite Hkind, Hfields in H. cbn [default from_option id] in H.
  destruct (decide (reflect.Struct = reflect.Struct)); [| congruence].
  bind_ok H. destruct a as [sw1 s1]. injection H as <-.
  destruct (componentFields_names _ _ _ _ _ _ _ _ _ Ha) as [Hreq Hdom].
  eexists. split; [simpl; apply lookup_insert_eq |]. simpl.
  split; [rewrite Hdom; set_solver |].
  split; [rewrite Hreq; simpl; now apply listedName_parsed |].
  intros x Hx. rewrite Hdom, Hreq in *. simpl in Hx.
  apply listedName_participates in Hx. set_solver.
Qed.

Lemma component_fields_and_required_witness :
  ∃ swagger' schema,
    getComponentByModel signupEnv 2 emptySwagger (Some (TNamed "Signup")) true
      = Ok swagger'
    ∧ Schemas swagger' !! "Signup" = Some (openapi3.mkSchemaRef EmptyString (Some schema))
    ∧ dom (openapi3.Properties schema) = {["email"; "nick"]}
    ∧ openapi3.Required schema = ["email"].
Proof.
  assert (Hparsed : Forall parsedField signupFields).
  { unfold signupFields.
    repeat (apply Forall_cons_2;
            [intros tags Htag; cbn [Tag] in Htag; apply (inj Some) in Htag;
             subst tags; apply parseTags_commaFree |]).
    apply Forall_nil_2. }
  destruct (getComponentByModel signupEnv 2 emptySwagger (Some (TNamed "Signup")) true)
    as [swagger' | |] eqn:E; try (vm_compute in E; discriminate).
  destruct (component_fields_and_required signupEnv 2 emptySwagger swagger'
              (TNamed "Signup") (TNamed "Signup") signupFields true
              eq_refl eq_refl Hparsed E)
    as (schema & Hentry & Hdom & Hreq & _).
  exists swagger', schema. split; [reflexivity |]. split; [exact Hentry |].
  split; [rewrite Hdom; vm_compute; reflexivity | rewrite Hreq; reflexivity].
Defined.

(** ** The required list of the schemas of a struct value *)

Lemma requestField_names (env : TypeEnv) (gsv : SchemaWalker)
    (swagger swagger' : Swagger) (schema schema' : Schema) (f : StructField) :
  requestField env gsv (swagger, schema) f = Ok (swagger', schema') ->
  openapi3.Required schema' = openapi3.Required schema
  ∧ dom (openapi3.Properties schema')
    = dom (openapi3.Properties schema) ∪ list_to_set (option_list (formName f)).
Proof.
  unfold requestField, formName, parseTag. intros H.
  destruct (Tag f) as [tags |]; [| discriminate].
  cbn [mbind result_bind option_bind] in *.
  destruct (tagsGet tags FORM) as [tagName |].
  - walk_all. injection H as _ <-. simpl. rewrite dom_insert_L.
    split; [reflexivity | set_solver].
  - injection H as _ <-. split; [reflexivity | set_solver].
Qed.

Lemma requestFields_names (env : TypeEnv) (gsv : SchemaWalker)
    (fields : list StructField) :
  ∀ swagger swagger' schema schema',
    forFields (requestField env gsv) fields (swagger, schema) = Ok (swagger', schema') ->
    openapi3.Required schema' = openapi3.Required schema
    ∧ dom (openapi3.Properties schema')
      = dom (openapi3.Properties schema) ∪ list_to_set (omap formName fields).
Proof.
  induction fields as [|f fields IH]; intros sw sw' s s' H; simpl in H.
  - injection H as _ <-. split; [reflexivity | set_solver].
  - bind_ok H. destruct a as [sw1 s1].
    destruct (requestField_names _ _ _ _ _ _ _ Ha) as [Hreq Hdom].
    destruct (IH _ _ _ _ H) as [Hreq' Hdom'].
    rewrite Hreq', Hreq, Hdom', Hdom. split; [reflexivity |].
    simpl. destruct (formName f); simpl; set_solver.
Qed.

Lemma responseField_required (env : TypeEnv) (gsv : SchemaWalker)
    (swagger swagger' : Swagger) (schema schema' : Schema) (f : StructField) :
  responseField env gsv (swagger, schema) f = Ok (swagger', schema') ->
  openapi3.Required schema'
  = openapi3.Required schema ++ option_list (listedJsonName f).
Proof.
  unfold responseField, listedJsonName, jsonName, parseTag. intros H.
  destruct (IsExported f).
  - bind_ok H. destruct a as [sw [ref s]].
    destruct (Tag f) as [tags |]; [| discriminate].
    cbn [mbind result_bind option_bind default from_option id] in *.
    destruct (tagsGet tags JSON) as [tagName |]; injection H as _ <-;
      destruct (isRequiredTags tags); simpl; now rewrite ?app_nil_r.
  - injection H as _ <-.
    destruct (isRequiredTags _); simpl; now rewrite app_nil_r.
Qed.

Lemma responseFields_required (env : TypeEnv) (gsv : SchemaWalker)
    (fields : list StructField) :
  ∀ swagger swagger' schema schema',
    forFields (responseField env gsv) fields (swagger, schema) = Ok (swagger', schema') ->
    openapi3.Required schema'
    = openapi3.Required schema ++ omap listedJsonName fields.
Proof.
  induction fields as [|f fields IH]; intros sw sw' s s' H; simpl in H.
  - injection H as _ <-. now rewrite app_nil_r.
  - bind_ok H. destruct a as [sw1 s1].
    rewrite (IH _ _ _ _ H), (responseField_required _ _ _ _ _ _ _ Ha), <- app_assoc.
    f_equal. simpl. destruct (listedJsonName f); reflexivity.
Qed.

(** X4. The schema that [getRequestSchemaByModel] returns for a struct has
    one property for each field with a form annotation, never lists a
    required property and comes without a reference, whatever the validate
    annotations of the fields say.  The schema that
    [getResponseSchemaByModel] returns for a struct comes with the reference
    to the name of the type, and its required list holds, in the order of
    the fields, the serialized names of the exported fields whose validate
    tag has the name [required], the name being the text of the annotation
    before its first comma: [validate:"required,email"] lists the field,
    [validate:"omitempty,required"] does not.  Each name of the list is the
    key of a property. *)
Theorem struct_value_required (env : TypeEnv) (fuel : nat)
    (swagger swagger' : Swagger) (mt type_ : GoType) (fields : list StructField)
    (ref : string) (schema : Schema) :
  deref env mt = Ok type_ -> fieldsOf env type_ = Some fields ->
  Forall parsedField fields ->
  (getRequestSchemaByModel env fuel swagger (Some mt) = Ok (swagger', (ref, schema)) ->
   ref = EmptyString
   ∧ openapi3.Required schema = []
   ∧ dom (openapi3.Properties schema) = list_to_set (omap formName fields))
  ∧ (getResponseSchemaByModel env fuel swagger (Some mt) = Ok (swagger', (ref, schema)) ->
     ref = generateRefName (nameOf type_)
     ∧ openapi3.Required schema = omap requiredJsonName fields
     ∧ ∀ x, x ∈ openapi3.Required schema -> x ∈ dom (openapi3.Properties schema)).
Proof.
  intros Hderef Hfields Hparsed. pose proof (fieldsOf_Struct _ _ _ Hfields) as Hkind.
  split; intros H; (destruct fuel as [|fuel]; [discriminate |]).
  - cbn [getRequestSchemaByModel] in H. rewrite Hderef in H.
    cbn [mbind result_bind] in H. rewrite Hkind, Hfields in H.
    cbn [default from_option id] in H. bind_ok H. destruct a as [sw1 s1].
    injection H as _ <- <-.
    destruct (requestFields_names _ _ _ _ _ _ _ Ha) as [Hreq Hdom].
    rewrite Hreq, Hdom. split; [reflexivity |]. split; [reflexivity |].
    simpl. set_solver.
  - cbn [getResponseSchemaByModel] in H. rewrite Hderef in H.
    cbn [mbind result_bind] in H. rewrite Hkind, Hfields in H.
    cbn [default from_option id] in H. bind_ok H. destruct a as [sw1 s1].
    injection H as _ <- <-.
    pose proof (responseFields_required _ _ _ _ _ _ _ Ha) as Hreq.
    pose proof (responseFields_dom _ _ _ _ _ _ _ Ha) as Hdom.
    simpl in Hreq. split; [reflexivity |].
    split; [rewrite Hreq; now apply listedJsonName_parsed |].
    intros x Hx. rewrite Hreq in Hx. rewrite Hdom.
    apply list_elem_of_omap in Hx as (f & Hf & Hx).
    unfold listedJsonName in Hx.
    destruct (isRequiredTags _); [| discriminate].
    apply elem_of_union_r, elem_of_list_to_set, list_elem_of_omap. eauto.
Qed.

Lemma struct_value_required_witness :
  (∃ swagger' schema,
     getRequestSchemaByModel signupEnv 2 emptySwagger (Some (TNamed "Signup"))
       = Ok (swagger', (EmptyString, schema))
     ∧ openapi3.Required schema = []
     ∧ dom (openapi3.Properties schema) = {["email"; "nick"]})
  ∧ ∃ swagger' schema,
      getResponseSchemaByModel signupEnv 2 emptySwagger (Some (TNamed "Signup"))
        = Ok (swagger', ("#/components/schemas/Signup", schema))
      ∧ openapi3.Required schema = ["email"; "source"].
Proof.
  assert (Hparsed : Forall parsedField signupFields).
  { unfold signupFields.
    repeat (apply Forall_cons_2;
            [intros tags Htag; cbn [Tag] in Htag; apply (inj Some) in Htag;
             subst tags; apply parseTags_commaFree |]).
    apply Forall_nil_2. }
  split.
  - destruct (getRequestSchemaByModel signupEnv 2 emptySwagger (Some (TNamed "Signup")))
      as [[swagger' [ref schema]] | |] eqn:E; try (vm_compute in E; discriminate).
    destruct (struct_value_required signupEnv 2 emptySwagger swagger'
                (TNamed "Signup") (TNamed "Signup") signupFields ref schema
                eq_refl eq_refl Hparsed)
      as [Hrequest _].
    destruct (Hrequest E) as (-> & Hreq & Hdom).
    exists swagger', schema. split; [reflexivity |]. split; [exact Hreq |].
    rewrite Hdom. vm_compute. reflexivity.
  - destruct (getResponseSchemaByModel signupEnv 2 emptySwagger (Some (TNamed "Signup")))
      as [[swagger' [ref schema]] | |] eqn:E; try (vm_compute in E; discriminate).
    destruct (struct_value_required signupEnv 2 emptySwagger swagger'
                (TNamed "Signup") (TNamed "Signup") signupFields ref schema
                eq_refl eq_refl Hparsed)
      as [_ Hresponse].
    destruct (Hresponse E) as (-> & Hreq & _).
    exists swagger', schema. split; [reflexivity |]. rewrite Hreq. reflexivity.
Defined.

(** ** The keys of the registry *)

Lemma replay_dom (stores : list (string * SchemaRef)) (m : gmap string SchemaRef) :
  dom m ⊆ dom (replay stores m).
Proof.
  induction stores as [|[k v] stores IH]; simpl; [reflexivity |].
  rewrite dom_insert_L. set_solver.
Qed.

Lemma grows_dom (before after : Swagger) (stores : list (string * SchemaRef)) :
  grows before after stores -> dom (Schemas before) ⊆ dom (Schemas after).
Proof. intros (_ & -> & _). apply replay_dom. Qed.

Lemma getSchemaByValue_dom (env : TypeEnv) (fuel : nat) (request : bool)
    (swagger swagger' : Swagger) (t : option GoType) (x : string * Schema) :
  getSchemaByValue env fuel swagger t request = Ok (swagger', x) ->
  dom (Schemas swagger) ⊆ dom (Schemas swagger').
Proof.
  intros H. destruct (walkers_absorbed env fuel) as (Hv & _).
  destruct (Hv request t _ _ _ H) as (stores & Hgrows & _).
  exact (grows_dom _ _ _ Hgrows).
Qed.

Lemma getComponentByModel_dom (env : TypeEnv) (fuel : nat) (isRequest : bool)
    (swagger swagger' : Swagger) (model : option GoType) :
  getComponentByModel env fuel swagger model isRequest = Ok swagger' ->
  dom (Schemas swagger) ⊆ dom (Schemas swagger').
Proof.
  intros H.
  destruct (getComponentByModel_absorbed env isRequest fuel model _ _ H)
    as (stores & Hgrows & _).
  exact (grows_dom _ _ _ Hgrows).
Qed.

Lemma getParametersByModel_dom (env : TypeEnv) (fuel : nat)
    (swagger swagger' : Swagger) (model : option GoType)
    (parameters : list openapi3.ParameterRef) :
  getParametersByModel env fuel swagger model = Ok (swagger', parameters) ->
  dom (Schemas swagger) ⊆ dom (Schemas swagger').
Proof.
  unfold getParametersByModel. intros H.
  destruct model as [mt |]; [| now injection H as <- _].
  bind_ok H. destruct (fieldsOf env a) as [fields |]; [| discriminate].
  apply (forFields_invariant _
           (fun st => dom (Schemas swagger) ⊆ dom (Schemas (fst st))) fields)
    with (st := (swagger, [])) (st' := (swagger', parameters)) in H;
    [exact H | | reflexivity].
  intros [sw1 ps1] f [sw2 ps2] _ Hst Hbody. simpl in *.
  unfold parameterField in Hbody. walk_all;
    repeat match goal with
      | H : Ok _ = Ok _ |- _ => injection H as H; subst
      end; [exact Hst |].
  match goal with
  | H : getSchemaByValue _ _ _ _ _ = Ok _ |- _ => apply getSchemaByValue_dom in H
  end.
  set_solver.
Qed.

(** X5. A synthesis that returns removes no key from the registry: every
    key the registry had before [getComponentByModel], [getSchemaByValue] or
    [getParametersByModel] it has afterwards (its entry may have been
    replaced).  After [getComponentByModel] on a model that is not nil, the
    title of the type of the model, a pointer being dereferenced, is a key;
    on the nil model the registry is returned as it was. *)
Theorem synthesis_keeps_keys (env : TypeEnv) (fuel : nat) (swagger : Swagger)
    (model : option GoType) (request : bool) :
  (∀ swagger',
     getComponentByModel env fuel swagger model request = Ok swagger' ->
     dom (Schemas swagger) ⊆ dom (Schemas swagger')
     ∧ match model with
       | Some mt =>
           ∃ type_, deref env mt = Ok type_
             ∧ removePackageName (nameOf type_) ∈ dom (Schemas swagger')
       | None => swagger' = swagger
       end)
  ∧ (∀ swagger' x,
       getSchemaByValue env fuel swagger model request = Ok (swagger', x) ->
       dom (Schemas swagger) ⊆ dom (Schemas swagger'))
  ∧ (∀ swagger' parameters,
       getParametersByModel env fuel swagger model = Ok (swagger', parameters) ->
       dom (Schemas swagger) ⊆ dom (Schemas swagger')).
Proof.
  split; [| split].
  - intros swagger' H. split; [exact (getComponentByModel_dom _ _ _ _ _ _ H) |].
    destruct fuel as [|fuel]; [discriminate |].
    destruct model as [mt |]; [| now injection H as <-].
    rewrite getComponentByModel_S in H. bind_ok H. bind_ok H.
    destruct a0 as [sw1 schema]. injection H as <-.
    exists a. split; [exact Ha |]. simpl. rewrite dom_insert_L. set_solver.
  - intros swagger' x. apply getSchemaByValue_dom.
  - intros swagger' parameters. apply getParametersByModel_dom.
Qed.

Lemma synthesis_keeps_keys_witness :
  ∃ swagger',
    getComponentByModel loginEnv 2 emptySwagger (Some (TNamed "Login")) true
      = Ok swagger'
    ∧ "Login" ∈ dom (Schemas swagger').
Proof.
  destruct (getComponentByModel loginEnv 2 emptySwagger (Some (TNamed "Login")) true)
    as [swagger' | |] eqn:E; try (vm_compute in E; discriminate).
  destruct (synthesis_keeps_keys loginEnv 2 emptySwagger (Some (TNamed "Login")) true)
    as [Hcomponent _].
  destruct (Hcomponent swagger' E) as (_ & type_ & Hderef & Hin).
  vm_compute in Hderef. injection Hderef as <-.
  exists swagger'. split; [reflexivity | exact Hin].
Defined.

(** ** References to the components of struct fields *)

Lemma refResolves_mono (a b : Swagger) (r : SchemaRef) :
  dom (Schemas a) ⊆ dom (Schemas b) -> refResolves a r -> refResolves b r.
Proof.
  intros Hdom (n & Hn & Hin). exists n. split; [exact Hn |]. set_solver.
Qed.

Lemma innerResolve_mono (a b : Swagger) (s : Schema) :
  dom (Schemas a) ⊆ dom (Schemas b) -> innerResolve a s -> innerResolve b s.
Proof. intros Hdom H r Hr Hb. exact (refResolves_mono _ _ _ Hdom (H r Hr Hb)). Qed.

Lemma resolves_mono (a b : Swagger) (schema : Schema) :
  dom (Schemas a) ⊆ dom (Schemas b) -> resolves a schema -> resolves b schema.
Proof.
  intros Hdom H key p Hp. specialize (H key p Hp).
  destruct (openapi3.Value p);
    [exact (innerResolve_mono _ _ _ Hdom H) | exact (refResolves_mono _ _ _ Hdom H)].
Qed.

Lemma resolves_properties (swagger : Swagger) (s s' : Schema) :
  openapi3.Properties s' = openapi3.Properties s ->
  resolves swagger s -> resolves swagger s'.
Proof. intros Heq H key p. rewrite Heq. apply H. Qed.

Lemma resolves_empty (swagger : Swagger) (s : Schema) :
  openapi3.Properties s = ∅ -> resolves swagger s.
Proof. intros Heq key p. rewrite Heq, lookup_empty. discriminate. Qed.

Lemma resolves_required (swagger : Swagger) (b : bool) (l : list string) (s : Schema) :
  resolves swagger s ->
  resolves swagger (if b then openapi3.setRequired l s else s).
Proof. destruct b; [apply resolves_properties; reflexivity | trivial]. Qed.

Lemma resolves_setProperty_value (swagger : Swagger) (name ref : string)
    (v s : Schema) :
  innerResolve swagger v -> resolves swagger s ->
  resolves swagger (openapi3.setProperty name (openapi3.NewSchemaRef ref (Some v)) s).
Proof.
  intros Hv H key p. simpl. destruct (decide (name = key)) as [-> | Hne].
  - rewrite lookup_insert_eq. intros [= <-]. exact Hv.
  - rewrite lookup_insert_ne by exact Hne. apply H.
Qed.

Lemma resolves_setProperty_ref (swagger : Swagger) (name n : string) (s : Schema) :
  n ∈ dom (Schemas swagger) ∨ removePackageName n ∈ dom (Schemas swagger) ->
  resolves swagger s ->
  resolves swagger
    (openapi3.setProperty name (openapi3.NewSchemaRef (generateRefName n) None) s).
Proof.
  intros Hn H key p. simpl. destruct (decide (name = key)) as [-> | Hne].
  - rewrite lookup_insert_eq. intros [= <-]. exists n. now split.
  - rewrite lookup_insert_ne by exact Hne. apply H.
Qed.

Lemma inline_innerResolve (swagger : Swagger) (s : Schema) :
  inline s -> innerResolve swagger s.
Proof. intros H r Hr Hb. destruct (H r Hr Hb). Qed.

Lemma inline_shape (s s' : Schema) :
  openapi3.Items s' = openapi3.Items s ->
  openapi3.AdditionalPropertiesSchema s' = openapi3.AdditionalPropertiesSchema s ->
  inline s -> inline s'.
Proof. intros Hi Ha H r. rewrite Hi, Ha. apply H. Qed.

Lemma inline_plain (s : Schema) :
  openapi3.Items s = None -> openapi3.AdditionalPropertiesSchema s = None -> inline s.
Proof. intros Hi Ha r. rewrite Hi, Ha. now intros [[=] | [=]]. Qed.

Lemma inline_items (s v : Schema) (ref : string) :
  openapi3.Items s = Some (openapi3.mkSchemaRef ref (Some v)) ->
  openapi3.AdditionalPropertiesSchema s = None -> inline s.
Proof.
  intros Hi Ha r. rewrite Hi, Ha. intros [[= <-] | [=]] [Hv _]. discriminate.
Qed.

Lemma inline_annotated (tags : list (string * string)) (s : Schema) :
  inline s -> inline (applyDefault tags (applyDescription tags s)).
Proof.
  apply inline_shape; unfold applyDefault, applyDescription;
    destruct (tagsGet tags DEFAULT), (tagsGet tags DESCRIPTION); reflexivity.
Qed.

Lemma inline_default (tags : list (string * string)) (s : Schema) :
  inline s -> inline (applyDefault tags s).
Proof.
  apply inline_shape; unfold applyDefault; destruct (tagsGet tags DEFAULT); reflexivity.
Qed.

Lemma innerResolve_setItems (swagger : Swagger) (r : SchemaRef) (s : Schema) :
  refResolves swagger r -> inline s ->
  innerResolve swagger (openapi3.setItems (Some r) s).
Proof.
  intros Hr Hs r' [Hi | Ha] Hb.
  - simpl in Hi. now injection Hi as <-.
  - simpl in Ha. destruct (Hs r' (or_intror Ha) Hb).
Qed.

Lemma innerResolve_mapField (swagger : Swagger) (has : option bool)
    (ap : option SchemaRef) :
  (∀ r, ap = Some r -> bare r -> refResolves swagger r) ->
  innerResolve swagger (mapFieldSchema has ap).
Proof. intros H r [Hi | Ha] Hb; [discriminate Hi | exact (H r Ha Hb)]. Qed.

Lemma insertsResolved_refl (swagger : Swagger) : insertsResolved swagger swagger.
Proof. split; [reflexivity | intros k r s H _; now left]. Qed.

Lemma insertsResolved_trans (a b c : Swagger) :
  insertsResolved a b -> insertsResolved b c -> insertsResolved a c.
Proof.
  intros [Hab Hb] [Hbc Hc]. split; [set_solver |].
  intros k r s Hk Hv. destruct (Hc k r s Hk Hv) as [Hin | Hres]; [| now right].
  destruct (Hb k r s Hin Hv) as [Hin' | Hres]; [now left | right].
  exact (resolves_mono _ _ _ Hbc Hres).
Qed.

Lemma insertsResolved_registry (a b : Swagger) :
  insertsResolved a b -> registryResolves a -> registryResolves b.
Proof.
  intros [Hdom Hb] Ha k r s Hk Hv. destruct (Hb k r s Hk Hv) as [Hin | Hres].
  - exact (resolves_mono _ _ _ Hdom (Ha k r s Hin Hv)).
  - exact Hres.
Qed.

Lemma insertsResolved_setSchema (swagger : Swagger) (k ref : string) (s : Schema) :
  resolves swagger s ->
  insertsResolved swagger (setSchema k (openapi3.mkSchemaRef ref (Some s)) swagger).
Proof.
  intros Hres. assert (Hdom : dom (Schemas swagger)
                              ⊆ dom (Schemas (setSchema k (openapi3.mkSchemaRef ref (Some s)) swagger))).
  { simpl. rewrite dom_insert_L. set_solver. }
  split; [exact Hdom |]. intros k' r s'. simpl.
  destruct (decide (k = k')) as [-> | Hne].
  - rewrite lookup_insert_eq. intros [= <-] [= <-]. right.
    exact (resolves_mono _ _ _ Hdom Hres).
  - rewrite lookup_insert_ne by exact Hne. now left.
Qed.

(** A loop whose rounds set properties and the required list only. *)
Lemma forFields_resolved (body : Swagger * Schema -> StructField -> result (Swagger * Schema))
    (fields : list StructField) :
  (∀ swagger x f swagger' x',
     body (swagger, x) f = Ok (swagger', x') ->
     insertsResolved swagger swagger'
     ∧ openapi3.Items x' = openapi3.Items x
     ∧ openapi3.AdditionalPropertiesSchema x' = openapi3.AdditionalPropertiesSchema x) ->
  ∀ swagger x swagger' x',
    forFields body fields (swagger, x) = Ok (swagger', x') ->
    insertsResolved swagger swagger'
    ∧ openapi3.Items x' = openapi3.Items x
    ∧ openapi3.AdditionalPropertiesSchema x' = openapi3.AdditionalPropertiesSchema x.
Proof.
  intros Hbody swagger x swagger' x' H.
  apply (forFields_invariant body
           (fun st => insertsResolved swagger (fst st)
                      ∧ openapi3.Items (snd st) = openapi3.Items x
                      ∧ openapi3.AdditionalPropertiesSchema (snd st)
                        = openapi3.AdditionalPropertiesSchema x) fields)
    with (st := (swagger, x)) (st' := (swagger', x')) in H.
  - exact H.
  - intros [sw1 x1] f [sw2 x2] _ (Hst & Hi & Ha) Hb. simpl in *.
    destruct (Hbody _ _ _ _ _ Hb) as (Hins & Hi' & Ha').
    split; [exact (insertsResolved_trans _ _ _ Hst Hins) | split; congruence].
  - simpl. split; [apply insertsResolved_refl | split; reflexivity].
Qed.

Lemma NewEnumSchema_plain (name : string) (kind : reflect.Kind) (s : Schema) :
  NewEnumSchema name kind = Ok s ->
  openapi3.Properties s = ∅ ∧ openapi3.Items s = None
  ∧ openapi3.AdditionalPropertiesSchema s = None.
Proof. destruct kind; simpl; intros [= <-]; repeat split. Qed.

Lemma enumSchema_resolved (env : TypeEnv) (swagger swagger' : Swagger)
    (typ_ : GoType) (valEnums : list (string * Const)) (x : string * Schema) :
  enumSchema env swagger typ_ valEnums = Ok (swagger', x) ->
  insertsResolved swagger swagger' ∧ inline (snd x).
Proof.
  unfold enumSchema. intros H. bind_ok H. injection H as <- <-.
  apply NewEnumSchema_plain in Ha as (Hp & Hi & Hap). split.
  - apply (insertsResolved_setSchema swagger (nameOf typ_) EmptyString).
    apply resolves_empty. exact Hp.
  - now apply inline_plain.
Qed.

Lemma requestField_resolved (env : TypeEnv) (gsv : SchemaWalker) :
  schemaWalkerResolved gsv ->
  ∀ swagger schema f swagger' schema',
    requestField env gsv (swagger, schema) f = Ok (swagger', schema') ->
    insertsResolved swagger swagger'
    ∧ openapi3.Items schema' = openapi3.Items schema
    ∧ openapi3.AdditionalPropertiesSchema schema'
      = openapi3.AdditionalPropertiesSchema schema.
Proof.
  intros Hgsv swagger schema f swagger' schema' H. unfold requestField in H.
  walk H; injection H as <- <-;
    (split; [| split; reflexivity]);
    first [ apply insertsResolved_refl
          | match goal with
            | H : gsv _ _ = Ok _ |- _ => exact (proj1 (Hgsv _ _ _ _ H))
            end ].
Qed.

Lemma responseField_resolved (env : TypeEnv) (gsv : SchemaWalker) :
  schemaWalkerResolved gsv ->
  ∀ swagger schema f swagger' schema',
    responseField env gsv (swagger, schema) f = Ok (swagger', schema') ->
    insertsResolved swagger swagger'
    ∧ openapi3.Items schema' = openapi3.Items schema
    ∧ openapi3.AdditionalPropertiesSchema schema'
      = openapi3.AdditionalPropertiesSchema schema.
Proof.
  intros Hgsv swagger schema f swagger' schema' H. unfold responseField in H.
  walk H; injection H as <- <-;
    (split; [| split; try reflexivity; destruct (isRequiredTags _); reflexivity]);
    first [ apply insertsResolved_refl
          | match goal with
            | H : gsv _ _ = Ok _ |- _ => exact (proj1 (Hgsv _ _ _ _ H))
            end ].
Qed.

Lemma walkers_resolved (env : TypeEnv) (fuel : nat) :
  (∀ request,
     schemaWalkerResolved (fun swagger t => getSchemaByValue env fuel swagger t request))
  ∧ schemaWalkerResolved (getRequestSchemaByModel env fuel)
  ∧ schemaWalkerResolved (getResponseSchemaByModel env fuel).
Proof.
  induction fuel as [|fuel (IHv & IHq & IHp)];
    [repeat split; repeat intro; discriminate |].
  assert (Hq : schemaWalkerResolved (getRequestSchemaByModel env (S fuel))).
  { intros swagger t swagger' x H. cbn [getRequestSchemaByModel] in H.
    destruct t as [mt |];
      [| injection H as <- <-; split;
         [apply insertsResolved_refl | eapply inline_items; reflexivity]].
    bind_ok H.
    destruct (kindOf env a); try exact (IHv true _ _ _ _ H).
    - bind_ok H. bind_ok H. destruct a1 as [sw1 [ref s]]. injection H as <- <-.
      split; [exact (proj1 (IHq _ _ _ _ Ha1)) | eapply inline_items; reflexivity].
    - bind_ok H. bind_ok H. destruct a1 as [sw1 [ref s]]. injection H as <- <-.
      split; [exact (proj1 (IHq _ _ _ _ Ha1)) | eapply inline_items; reflexivity].
    - bind_ok H. destruct a0 as [sw1 s]. injection H as <- <-.
      destruct (forFields_resolved _ _ (requestField_resolved env _ (IHv true))
                  _ _ _ _ Ha0) as (Hins & Hi & Hap).
      split; [exact Hins | now apply inline_plain]. }
  assert (Hp : schemaWalkerResolved (getResponseSchemaByModel env (S fuel))).
  { intros swagger t swagger' x H. cbn [getResponseSchemaByModel] in H.
    destruct t as [mt |];
      [| injection H as <- <-; split;
         [apply insertsResolved_refl | eapply inline_items; reflexivity]].
    bind_ok H.
    destruct (kindOf env a); try exact (IHv false _ _ _ _ H).
    - bind_ok H. bind_ok H. destruct a1 as [sw1 [ref s]]. injection H as <- <-.
      split; [exact (proj1 (IHp _ _ _ _ Ha1)) | eapply inline_items; reflexivity].
    - bind_ok H. bind_ok H. destruct a1 as [sw1 [ref s]]. injection H as <- <-.
      split; [exact (proj1 (IHp _ _ _ _ Ha1)) | eapply inline_items; reflexivity].
    - bind_ok H. destruct a0 as [sw1 s]. injection H as <- <-.
      destruct (forFields_resolved _ _ (responseField_resolved env _ (IHv false))
                  _ _ _ _ Ha0) as (Hins & Hi & Hap).
      split; [exact Hins | now apply inline_plain]. }
  split; [| split; assumption].
  intros request swagger t swagger' x H. cbn [getSchemaByValue] in H.
  destruct (typeSwitch env t);
    try (injection H as <- <-; split;
         [apply insertsResolved_refl
         | first [ apply inline_plain; reflexivity
                 | eapply inline_items; reflexivity ]]);
    try discriminate H.
  - exact (enumSchema_resolved _ _ _ _ _ _ H).
  - destruct request; [exact (IHq _ _ _ _ H) | exact (IHp _ _ _ _ H)].
Qed.

Lemma unlessExists_resolved (env : TypeEnv) (gcm : ComponentWalker)
    (swagger swagger' : Swagger) (name : string) (model : option GoType) :
  componentWalkerResolved env gcm -> keyed swagger ->
  unlessExists gcm swagger name model = Ok swagger' ->
  insertsResolved swagger swagger'.
Proof.
  intros Hgcm Hkeyed H. unfold unlessExists in H.
  destruct (negb (checkSchemaExist swagger name));
    [exact (proj1 (Hgcm _ _ _ Hkeyed H)) |].
  injection H as <-. apply insertsResolved_refl.
Qed.

(** After the check and the walk of a type, the name of the type, a pointer
    being dereferenced, is a key, as it is or normalised. *)
Lemma unlessExists_registers (env : TypeEnv) (gcm : ComponentWalker)
    (swagger swagger' : Swagger) (model type_ : GoType) :
  componentWalkerResolved env gcm -> keyed swagger ->
  deref env model = Ok type_ ->
  unlessExists gcm swagger (nameOf type_) (Some model) = Ok swagger' ->
  nameOf type_ ∈ dom (Schemas swagger')
  ∨ removePackageName (nameOf type_) ∈ dom (Schemas swagger').
Proof.
  intros Hgcm Hkeyed Hderef H. unfold unlessExists in H.
  destruct (checkSchemaExist swagger (nameOf type_)) eqn:Hcheck; simpl in H.
  - injection H as <-. left.
    apply elem_of_dom, (checkSchemaExist_lookup _ _ Hkeyed), Hcheck.
  - right. destruct (Hgcm _ _ _ Hkeyed H) as [_ Hreg].
    destruct (Hreg model eq_refl) as (type' & Hderef' & Hin).
    congruence.
Qed.

Lemma refResolves_name (swagger : Swagger) (n : string) :
  n ∈ dom (Schemas swagger) ∨ removePackageName n ∈ dom (Schemas swagger) ->
  refResolves swagger (openapi3.NewSchemaRef (generateRefName n) None).
Proof. intros H. exists n. now split. Qed.

Lemma zeroOf_Struct (env : TypeEnv) (t : GoType) :
  kindOf env t = reflect.Struct ->
  zeroOf env t = Some t ∧ deref env t = Ok t.
Proof.
  intros Hk. unfold zeroOf, deref. rewrite Hk.
  destruct (decide (reflect.Struct = reflect.Interface)); [discriminate |].
  destruct (decide (reflect.Struct = reflect.Ptr)); [discriminate |]. now split.
Qed.

Lemma componentField_resolved (env : TypeEnv) (gsv : SchemaWalker)
    (gcm : ComponentWalker) (isRequest : bool) :
  schemaWalkerKeyed gsv ->
  schemaWalkerResolved gsv -> componentWalkerResolved env gcm ->
  ∀ swagger schema f swagger' schema',
    keyed swagger -> resolves swagger schema ->
    componentField env gsv gcm isRequest (swagger, schema) f = Ok (swagger', schema') ->
    insertsResolved swagger swagger' ∧ resolves swagger' schema'.
Proof.
  intros Hkv Hgsv Hgcm swagger schema f swagger' schema' Hkeyed Hres H.
  unfold componentField in H.
  walk_all;
    repeat match goal with
      | H : Ok _ = Ok _ |- _ => injection H as H; subst
      end;
    repeat match goal with
      | H : gsv ?a _ = Ok (?b, _) |- _ =>
          assert (keyed b)
            by (eapply insertsKeyed_keyed; [exact (Hkv _ _ _ _ H) | assumption]);
          apply Hgsv in H as [? ?]
      end.
  all: try (split; [apply insertsResolved_refl | assumption]).
  all: match goal with
       | |- insertsResolved ?a ?b ∧ _ =>
           assert (Hins : insertsResolved a b)
             by eauto using insertsResolved_refl, insertsResolved_trans,
                  unlessExists_resolved
       end.
  all: split; [exact Hins |].
  all: simpl in *.
  all: try (apply resolves_setProperty_value;
            [| apply resolves_required, (resolves_mono _ _ _ (proj1 Hins) Hres)]).
  all: try (apply inline_innerResolve;
            first [ assumption | now apply inline_annotated
                  | apply inline_plain; reflexivity
                  | (eapply inline_shape; [| | eassumption]; reflexivity) ]).
  all: try (apply innerResolve_mapField; intros r [= <-] [_ Hne]; now destruct Hne).
  all: try (apply innerResolve_mapField; intros r [=]; fail).
  - (* a map of structs *)
    apply innerResolve_mapField. intros r [= <-] _. apply refResolves_name.
    match goal with
    | Hk : kindOf env ?t = reflect.Struct,
      Hu : unlessExists _ _ _ (zeroOf env ?t) = Ok _ |- _ =>
        destruct (zeroOf_Struct _ _ Hk) as [Hzero Hderef]; rewrite Hzero in Hu;
        exact (unlessExists_registers _ _ _ _ _ _ Hgcm Hkeyed Hderef Hu)
    end.
  - (* a slice of structs, of pointers, of slices or of maps *)
    apply innerResolve_setItems; [apply refResolves_name | assumption].
    match goal with
    | Hd : deref env ?g = Ok ?t,
      Hu : unlessExists _ _ _ (Some ?g) = Ok _ |- _ =>
        eapply (unlessExists_registers _ _ _ _ _ _ Hgcm); [| exact Hd | exact Hu]
    end.
    assumption.
  - (* a struct *)
    apply resolves_setProperty_ref;
      [| apply resolves_required, (resolves_mono _ _ _ (proj1 Hins) Hres)].
    match goal with
    | Hk : kindOf env ?t = reflect.Struct,
      Hu : unlessExists _ _ _ (zeroOf env ?t) = Ok _ |- _ =>
        destruct (zeroOf_Struct _ _ Hk) as [Hzero Hderef]; rewrite Hzero in Hu;
        exact (unlessExists_registers _ _ _ _ _ _ Hgcm Hkeyed Hderef Hu)
    end.
Qed.
Lemma componentFields_resolved (env : TypeEnv) (gsv : SchemaWalker)
    (gcm : ComponentWalker) (isRequest : bool) (fields : list StructField) :
  schemaWalkerKeyed gsv -> componentWalkerKeyed gcm ->
  schemaWalkerResolved gsv -> componentWalkerResolved env gcm ->
  ∀ swagger schema swagger' schema',
    keyed swagger -> resolves swagger schema ->
    forFields (componentField env gsv gcm isRequest) fields (swagger, schema)
      = Ok (swagger', schema') ->
    insertsResolved swagger swagger' ∧ resolves swagger' schema'.
Proof.
  intros Hkv Hkc Hgsv Hgcm.
  induction fields as [|f fields IH]; intros sw s sw' s' Hkeyed Hres H; simpl in H.
  - injection H as <- <-. split; [apply insertsResolved_refl | exact Hres].
  - bind_ok H. destruct a as [sw1 s1].
    destruct (componentField_resolved _ _ _ _ Hkv Hgsv Hgcm _ _ _ _ _ Hkeyed Hres Ha)
      as [Hins1 Hres1].
    assert (Hkeyed1 : keyed sw1).
    { eapply insertsKeyed_keyed; [| exact Hkeyed].
      exact (componentField_keyed _ _ _ _ Hkv Hkc _ _ _ _ _ Ha). }
    destruct (IH _ _ _ _ Hkeyed1 Hres1 H) as [Hins2 Hres2].
    split; [exact (insertsResolved_trans _ _ _ Hins1 Hins2) | exact Hres2].
Qed.

Lemma getComponentByModel_resolved (env : TypeEnv) (isRequest : bool) (fuel : nat) :
  componentWalkerResolved env
    (fun swagger model => getComponentByModel env fuel swagger model isRequest).
Proof.
  induction fuel as [|fuel IH]; intros swagger model swagger' Hkeyed H;
    [discriminate |].
  destruct model as [mt |];
    [| injection H as <-; split; [apply insertsResolved_refl | discriminate]].
  rewrite getComponentByModel_S in H. bind_ok H. bind_ok H.
  destruct a0 as [sw1 schema]. injection H as <-.
  assert (Hloop : insertsResolved swagger sw1 ∧ resolves sw1 schema).
  { destruct (decide (kindOf env a = reflect.Struct)).
    - eapply componentFields_resolved; [.. | exact Ha0];
        [apply (walkers_keyed env fuel) | apply getComponentByModel_keyed
        | apply (walkers_resolved env fuel) | exact IH | exact Hkeyed
        | now apply resolves_empty].
    - injection Ha0 as <- <-.
      split; [apply insertsResolved_refl | now apply resolves_empty]. }
  destruct Hloop as [Hins Hres]. split.
  - eapply insertsResolved_trans; [exact Hins |].
    apply insertsResolved_setSchema. revert Hres. apply resolves_properties.
    reflexivity.
  - intros mt' [= <-]. exists a. split; [exact Ha |].
    simpl. rewrite dom_insert_L. set_solver.
Qed.




(** ** The responses of an operation *)

Lemma contentTypeOr_idem (contentType : string) :
  contentTypeOr (contentTypeOr contentType) = contentTypeOr contentType.
Proof.
  unfold contentTypeOr. destruct (String.eqb contentType EmptyString) eqn:E;
    [reflexivity | now rewrite E].
Qed.

(** The loop of [getResponsesRef] from any state it may be in. *)
Lemma responseRef_skips (response : router.Response) (k : string) :
  ∀ ret contentType,
    (∀ v, (k, v) ∈ response -> router.RModel v = None) ->
    fst (foldl responseRef (ret, contentType) response) !! k = ret !! k.
Proof.
  induction response as [|[k1 v1] response IH]; intros ret ct Hnil; [reflexivity |].
  simpl. destruct (router.RModel v1) as [t |] eqn:Hm.
  - rewrite IH by (intros v Hv; apply Hnil; now right).
    apply lookup_insert_ne. intros ->.
    specialize (Hnil v1 ltac:(left)). congruence.
  - apply IH. intros v Hv. apply Hnil. now right.
Qed.

Lemma responseRef_sets (response : router.Response) (k : string)
    (v : router.ResponseItem) (type_ : GoType) :
  ∀ ret contentType,
    NoDup (fst <$> response) -> (k, v) ∈ response ->
    router.RModel v = Some type_ ->
    fst (foldl responseRef (ret, contentType) response) !! k
    = Some (operation.mkResponse (router.RDescription v)
              (contentOf contentType (nameOf type_)) (router.RHeaders v)).
Proof.
  induction response as [|[k1 v1] response IH]; intros ret ct Hnd Hin Hm;
    [now apply elem_of_nil in Hin |].
  rewrite fmap_cons in Hnd. apply NoDup_cons in Hnd as [Hk1 Hnd].
  apply elem_of_cons in Hin as [[= <- <-] | Hin]; simpl.
  - rewrite Hm. rewrite responseRef_skips.
    + now rewrite lookup_insert_eq.
    + intros v' Hv'. exfalso. apply Hk1, list_elem_of_fmap. now exists (k, v').
  - destruct (router.RModel v1) as [t1 |].
    + rewrite (IH _ _ Hnd Hin Hm). unfold contentOf.
      fold (contentTypeOr ct). now rewrite contentTypeOr_idem.
    + exact (IH _ _ Hnd Hin Hm).
Qed.

(** X7. [getResponsesRef] starts from what [NewResponses()] returns and
    sets, for every entry of the response map whose model is not nil, the
    response of its key: the description and the headers of the entry, and
    one media type, under the content type given or [application/json] when
    none is given, that refers to the component of the name of the type of
    the model.  An entry whose model is nil sets nothing, so its key keeps
    what [NewResponses()] has for it.  The result is therefore the same in
    whatever order [range] visits the map. *)
Theorem getResponsesRef_entries (NewResponses : operation.Responses)
    (response : router.Response) (contentType : string) :
  NoDup (fst <$> response) ->
  (∀ k v type_,
     (k, v) ∈ response -> router.RModel v = Some type_ ->
     getResponsesRef NewResponses response contentType !! k
     = Some (operation.mkResponse (router.RDescription v)
               (contentOf contentType (nameOf type_)) (router.RHeaders v)))
  ∧ (∀ k, (∀ v, (k, v) ∈ response -> router.RModel v = None) ->
       getResponsesRef NewResponses response contentType !! k = NewResponses !! k)
  ∧ (∀ response', response ≡ₚ response' ->
       getResponsesRef NewResponses response' contentType
       = getResponsesRef NewResponses response contentType).
Proof.
  intros Hnd. split; [| split].
  - intros k v t Hin Hm. now apply responseRef_sets.
  - intros k Hnil. now apply responseRef_skips.
  - intros response' Hperm. apply map_eq. intros k. unfold getResponsesRef.
    assert (Hnd' : NoDup (fst <$> response')) by now rewrite <- Hperm.
    destruct (decide (Exists (fun kv => kv.1 = k ∧ is_Some (router.RModel kv.2))
                        response)) as [Hsome | Hnone].
    + apply Exists_exists in Hsome as ([k' v] & Hin & Hk & [t Hm]).
      simpl in Hk, Hm. subst k'.
      rewrite (responseRef_sets _ _ _ _ _ _ Hnd Hin Hm).
      apply responseRef_sets; [exact Hnd' | now rewrite <- Hperm | exact Hm].
    + assert (Hnil : ∀ v, (k, v) ∈ response -> router.RModel v = None).
      { intros v Hv. destruct (router.RModel v) as [t |] eqn:Hm; [| reflexivity].
        exfalso. apply Hnone, Exists_exists. exists (k, v). simpl. eauto. }
      rewrite (responseRef_skips response k _ _ Hnil).
      apply responseRef_skips. intros v Hv. apply Hnil. now rewrite Hperm.
Qed.

Lemma getResponsesRef_entries_witness :
  getResponsesRef defaultResponses okCreated EmptyString !! "201"
  = Some (operation.mkResponse "created"
            (contentOf EmptyString EmptyString) [])
  ∧ getResponsesRef defaultResponses okCreated EmptyString !! "204" = None.
Proof.
  assert (Hnd : NoDup (fst <$> okCreated)).
  { apply (bool_decide_unpack _). vm_compute. exact I. }
  destruct (getResponsesRef_entries defaultResponses okCreated EmptyString Hnd)
    as (Hset & Hskip & _).
  split.
  - apply (Hset "201" (router.mkResponseItem "created" (Some (TPtr (TNamed "Customer"))) [])
             (TPtr (TNamed "Customer"))); [| reflexivity].
    apply list_elem_of_In. simpl. tauto.
  - rewrite (Hskip "204"); [reflexivity |].
    intros v Hv. apply list_elem_of_In in Hv. simpl in Hv.
    destruct Hv as [[=] | [[=] | [[= <-] | []]]]. reflexivity.
Defined.

(** ** The security requirements of an operation *)

Lemma securityRequirement_fold (securities : list security.ISecurity) :
  ∀ components reqs,
    foldl securityRequirement (components, reqs) securities
    = (mkComponents (Registry components)
         (foldl schemeOf (SecuritySchemes components) securities),
       reqs ++ ((operation.Authenticate ∘ security.Provider) <$> securities)).
Proof.
  induction securities as [|s securities IH]; intros [registry schemes] reqs; simpl.
  - now rewrite app_nil_r.
  - rewrite IH. simpl. now rewrite <- app_assoc.
Qed.

Lemma schemeOf_frame (securities : list security.ISecurity) (provider : string) :
  ∀ m, provider ∉ security.Provider <$> securities ->
       foldl schemeOf m securities !! provider = m !! provider.
Proof.
  induction securities as [|s securities IH]; intros m Hnot; [reflexivity |].
  simpl. rewrite fmap_cons, not_elem_of_cons in Hnot. destruct Hnot as [Hne Hnot].
  rewrite (IH _ Hnot). unfold schemeOf. now rewrite lookup_insert_ne.
Qed.

Lemma schemeOf_dom (securities : list security.ISecurity) :
  ∀ m, dom (foldl schemeOf m securities)
       = dom m ∪ list_to_set (security.Provider <$> securities).
Proof.
  induction securities as [|s securities IH]; intros m; simpl; [set_solver |].
  rewrite IH. unfold schemeOf. rewrite dom_insert_L. set_solver.
Qed.

(** X8. [getSecurityRequirements] returns one requirement for each security,
    in their order, each naming the provider of its security and no scope,
    and puts the scheme of each security under its provider: a provider
    that several securities share ends with the scheme of the last of
    them, the schemes of the other providers stay, and the registry of
    schemas is not touched.  Every provider a requirement names has a
    scheme afterwards. *)
Theorem getSecurityRequirements_schemes (components components' : Components)
    (securities : list security.ISecurity)
    (requirements : operation.SecurityRequirements) :
  getSecurityRequirements components securities = (components', requirements) ->
  requirements = (operation.Authenticate ∘ security.Provider) <$> securities
  ∧ Registry components' = Registry components
  ∧ dom (SecuritySchemes components')
    = dom (SecuritySchemes components) ∪ list_to_set (security.Provider <$> securities)
  ∧ securityResolves components' requirements
  ∧ (∀ provider, provider ∉ security.Provider <$> securities ->
       SecuritySchemes components' !! provider = SecuritySchemes components !! provider)
  ∧ (∀ before s after,
       securities = before ++ s :: after ->
       security.Provider s ∉ security.Provider <$> after ->
       SecuritySchemes components' !! security.Provider s = Some (security.Scheme s)).
Proof.
  unfold getSecurityRequirements. rewrite securityRequirement_fold.
  intros [= <- <-]. simpl. repeat split.
  - apply schemeOf_dom.
  - intros req provider Hreq Hp. simpl. rewrite schemeOf_dom.
    apply list_elem_of_fmap in Hreq as (s & -> & Hs). simpl in Hp.
    unfold operation.Authenticate in Hp. rewrite dom_singleton_L in Hp.
    apply elem_of_singleton in Hp as ->.
    apply elem_of_union_r, elem_of_list_to_set, list_elem_of_fmap. eauto.
  - intros provider. apply schemeOf_frame.
  - intros before s after -> Hnot. rewrite foldl_app. simpl.
    rewrite (schemeOf_frame _ _ _ Hnot). unfold schemeOf at 2.
    apply lookup_insert_eq.
Qed.

Lemma getSecurityRequirements_schemes_witness :
  ∃ components',
    getSecurityRequirements (mkComponents emptySwagger ∅)
      [ApiKey "X-Old-Key" "header"; ApiKey "X-Api-Key" "header"]
    = (components', [operation.Authenticate "ApiKeyAuth"; operation.Authenticate "ApiKeyAuth"])
    ∧ SecuritySchemes components' !! "ApiKeyAuth"
      = Some (security.mkSecurityScheme "apiKey" "header" "X-Api-Key").
Proof.
  destruct (getSecurityRequirements (mkComponents emptySwagger ∅)
              [ApiKey "X-Old-Key" "header"; ApiKey "X-Api-Key" "header"]) as [components' requirements] eqn:E.
  destruct (getSecurityRequirements_schemes _ _ _ _ E) as (-> & _ & _ & _ & _ & Hlast).
  exists components'. split; [reflexivity |].
  apply (Hlast [ApiKey "X-Old-Key" "header"] (ApiKey "X-Api-Key" "header") []); [reflexivity |].
  simpl. apply not_elem_of_nil.
Defined.

(** ** The document *)

Lemma forEach_invariant {St X : Type} (body : St -> X -> result St)
    (I : St -> Prop) (l : list X) :
  (∀ st x st', x ∈ l -> I st -> body st x = Ok st' -> I st') ->
  ∀ st st', I st -> forEach body l st = Ok st' -> I st'.
Proof.
  induction l as [|x l IH]; intros Hbody st st' Hst H; simpl in H.
  - now injection H as <-.
  - bind_ok H. eapply IH; [| | exact H].
    + intros ? ? ? ?. apply Hbody. now right.
    + eapply Hbody; [left | exact Hst | exact Ha].
Qed.

Lemma parameterField_resolved (env : TypeEnv) (gsv : SchemaWalker) :
  schemaWalkerResolved gsv ->
  ∀ swagger ps f swagger' ps',
    parameterField env gsv (swagger, ps) f = Ok (swagger', ps') ->
    insertsResolved swagger swagger'.
Proof.
  intros Hgsv swagger ps f swagger' ps' H. unfold parameterField in H.
  walk H; injection H as <- _;
    first [ apply insertsResolved_refl
          | match goal with
            | H : gsv _ _ = Ok _ |- _ => exact (proj1 (Hgsv _ _ _ _ H))
            end ].
Qed.

Lemma getComponentByModel_sound (env : TypeEnv) (fuel : nat) (isRequest : bool)
    (swagger swagger' : Swagger) (model : option GoType) :
  sound swagger ->
  getComponentByModel env fuel swagger model isRequest = Ok swagger' ->
  sound swagger'.
Proof.
  intros [Hkeyed Hres] H. split.
  - exact (insertsKeyed_keyed _ _ (getComponentByModel_keyed env isRequest fuel _ _ _ H)
             Hkeyed).
  - exact (insertsResolved_registry _ _
             (proj1 (getComponentByModel_resolved env isRequest fuel _ _ _ Hkeyed H))
             Hres).
Qed.

Lemma getParametersByModel_sound (env : TypeEnv) (fuel : nat)
    (swagger swagger' : Swagger) (model : option GoType)
    (parameters : list openapi3.ParameterRef) :
  sound swagger ->
  getParametersByModel env fuel swagger model = Ok (swagger', parameters) ->
  sound swagger'.
Proof.
  unfold getParametersByModel. intros [Hkeyed Hres] H.
  destruct model as [mt |]; [| injection H as <- _; now split].
  bind_ok H. destruct (fieldsOf env a) as [fields |]; [| discriminate].
  split.
  - eapply insertsKeyed_keyed; [| exact Hkeyed].
    eapply forFields_keyed; [| exact H].
    apply parameterField_keyed, (walkers_keyed env fuel).
  - eapply insertsResolved_registry; [| exact Hres].
    apply (forFields_invariant _ (fun st => insertsResolved swagger (fst st)) fields)
      with (st := (swagger, [])) (st' := (swagger', parameters)) in H;
      [exact H | | apply insertsResolved_refl].
    intros [sw1 ps1] f [sw2 ps2] _ Hst Hbody. simpl in *.
    eapply insertsResolved_trans; [exact Hst |].
    exact (parameterField_resolved env _ (proj1 (walkers_resolved env fuel) true)
             _ _ _ _ _ Hbody).
Qed.

Lemma getComponentByModel_registers (env : TypeEnv) (fuel : nat) (isRequest : bool)
    (swagger swagger' : Swagger) (mt : GoType) :
  getComponentByModel env fuel swagger (Some mt) isRequest = Ok swagger' ->
  ∃ type_, deref env mt = Ok type_
    ∧ removePackageName (nameOf type_) ∈ dom (Schemas swagger').
Proof.
  intros H. destruct fuel as [|fuel]; [discriminate |].
  rewrite getComponentByModel_S in H. bind_ok H. bind_ok H.
  destruct a0 as [sw1 schema]. injection H as <-.
  exists a. split; [exact Ha |]. simpl. rewrite dom_insert_L. set_solver.
Qed.

(** The loop of [getPaths] over the responses of a router. *)
Lemma responseComponents (env : TypeEnv) (fuel : nat) (response : router.Response) :
  ∀ swagger swagger',
    forEach
      (fun swagger resp =>
         getComponentByModel env fuel swagger (router.RModel (snd resp)) false)
      response swagger = Ok swagger' ->
    (sound swagger -> sound swagger')
    ∧ dom (Schemas swagger) ⊆ dom (Schemas swagger')
    ∧ ∀ k v t, (k, v) ∈ response -> router.RModel v = Some t ->
        ∃ type_, deref env t = Ok type_
          ∧ removePackageName (nameOf type_) ∈ dom (Schemas swagger').
Proof.
  induction response as [|[k1 v1] response IH]; intros sw sw' H; simpl in H.
  - injection H as <-. split; [trivial |]. split; [reflexivity |].
    intros k v t Hin. now apply elem_of_nil in Hin.
  - bind_ok H. destruct (IH _ _ H) as (Hsound & Hdom & Hreg).
    pose proof (getComponentByModel_dom _ _ _ _ _ _ Ha) as Hdom1.
    split; [| split].
    + intros Hs. apply Hsound. exact (getComponentByModel_sound _ _ _ _ _ _ Hs Ha).
    + set_solver.
    + intros k v t Hin Hm. apply elem_of_cons in Hin as [[= -> ->] | Hin]; [| eauto].
      rewrite Hm in Ha.
      destruct (getComponentByModel_registers _ _ _ _ _ _ Ha) as (type_ & Hd & Hk).
      exists type_. split; [exact Hd | set_solver].
Qed.

Lemma getSecurityRequirements_resolves (components components' : Components)
    (securities : list security.ISecurity)
    (requirements : operation.SecurityRequirements) :
  getSecurityRequirements components securities = (components', requirements) ->
  Registry components' = Registry components
  ∧ dom (SecuritySchemes components) ⊆ dom (SecuritySchemes components')
  ∧ securityResolves components' requirements.
Proof.
  unfold getSecurityRequirements. rewrite securityRequirement_fold.
  intros [= <- <-]. simpl. split; [reflexivity |].
  split; [rewrite schemeOf_dom; set_solver |].
  intros req provider Hreq Hp. simpl. rewrite schemeOf_dom.
  apply list_elem_of_fmap in Hreq as (s & -> & Hs). simpl in Hp.
  unfold operation.Authenticate in Hp. rewrite dom_singleton_L in Hp.
  apply elem_of_singleton in Hp as ->.
  apply elem_of_union_r, elem_of_list_to_set, list_elem_of_fmap. eauto.
Qed.

Lemma securityResolves_mono (a b : Components)
    (security : operation.SecurityRequirements) :
  dom (SecuritySchemes a) ⊆ dom (SecuritySchemes b) ->
  securityResolves a security -> securityResolves b security.
Proof. intros Hdom H req provider Hreq Hp. apply Hdom. eauto. Qed.

Lemma itemSound_mono (a b : Components) (item : operation.PathItem) :
  dom (SecuritySchemes a) ⊆ dom (SecuritySchemes b) ->
  itemSound a item -> itemSound b item.
Proof.
  intros Hdom [Hsec Hbody]. split; [| exact Hbody].
  intros o Ho. exact (securityResolves_mono _ _ _ Hdom (Hsec o Ho)).
Qed.

Lemma elem_of_operationsOf (item : operation.PathItem) (o : operation.Operation) :
  o ∈ operationsOf item <-> Some o ∈ slots item.
Proof.
  unfold operationsOf. rewrite list_elem_of_omap. split.
  - intros (x & Hx & Hid). simpl in Hid. now subst x.
  - intros H. now exists (Some o).
Qed.

Lemma setOperation_sound (components : Components) (method : string)
    (o : operation.Operation) (b : option operation.RequestBody)
    (item : operation.PathItem) :
  securityResolves components (operation.Security o) ->
  operation.RequestBody_ o = None ->
  itemSound components item ->
  itemSound components (setOperation method o b item).
Proof.
  intros Hsec Hnone [Hops Hbody].
  assert (Hops' : ∀ o', Some o' ∈ slots item ->
                        securityResolves components (operation.Security o')).
  { intros o' Ho'. now apply Hops, elem_of_operationsOf. }
  clear Hops. unfold bodiless in Hbody. unfold itemSound, bodiless.
  setoid_rewrite elem_of_operationsOf.
  destruct item as [get post delete put patch head options connect trace].
  unfold slots in *. cbn [operation.Get operation.Post operation.Delete operation.Put
    operation.Patch operation.Head operation.Options operation.Connect
    operation.Trace] in *.
  unfold setOperation.
  repeat (destruct (String.eqb method _));
    cbn [operation.Get operation.Post operation.Delete operation.Put
      operation.Patch operation.Head operation.Options operation.Connect
      operation.Trace];
    (split; intros o' Ho';
     repeat (apply elem_of_cons in Ho' as [Ho' | Ho']);
     try (now apply elem_of_nil in Ho');
     try (injection Ho' as ->; first [exact Hsec | exact Hnone]);
     first [ apply Hops' | apply Hbody ]; rewrite Ho';
     repeat first [ apply list_elem_of_here | apply list_elem_of_further ]).
Qed.

Section DocumentProperties.

Variable env : TypeEnv.
Variable JoinPath : string -> string -> option string.
Variable NewResponses : operation.Responses.

Lemma routerOperation_sound (fuel : nat) (components components' : Components)
    (item item' : operation.PathItem) (mr : string * router.Router) :
  sound (Registry components) -> itemSound components item ->
  routerOperation env NewResponses fuel (components, item) mr = Ok (components', item') ->
  sound (Registry components')
  ∧ dom (Schemas (Registry components)) ⊆ dom (Schemas (Registry components'))
  ∧ dom (SecuritySchemes components) ⊆ dom (SecuritySchemes components')
  ∧ itemSound components' item'.
Proof.
  intros Hsound Hitem H. destruct mr as [method r]. unfold routerOperation in H.
  destruct (router.Exclude r).
  { injection H as <- <-.
    split; [exact Hsound | split; [reflexivity | split; [reflexivity | exact Hitem]]]. }
  bind_ok H. bind_ok H. bind_ok H. destruct a1 as [sw3 parameters].
  destruct (getSecurityRequirements _ _) as [c4 security] eqn:Hsecurity.
  injection H as <- <-.
  destruct (getSecurityRequirements_resolves _ _ _ _ Hsecurity)
    as (Hreg & Hschemes & Hres).
  simpl in Hreg, Hschemes.
  destruct (responseComponents _ _ _ _ _ Ha0) as (Hsound2 & Hdom2 & _).
  pose proof (getComponentByModel_dom _ _ _ _ _ _ Ha) as Hdom1.
  pose proof (getParametersByModel_dom _ _ _ _ _ _ Ha1) as Hdom3.
  rewrite Hreg. split; [| split; [set_solver | split; [exact Hschemes |]]].
  - eapply getParametersByModel_sound; [| exact Ha1].
    apply Hsound2. exact (getComponentByModel_sound _ _ _ _ _ _ Hsound Ha).
  - apply setOperation_sound; [exact Hres | reflexivity |].
    exact (itemSound_mono _ _ _ Hschemes Hitem).
Qed.

Lemma routerOperations_sound (fuel : nat) (m : list (string * router.Router))
    (components components' : Components) (item item' : operation.PathItem) :
  sound (Registry components) -> itemSound components item ->
  forEach (routerOperation env NewResponses fuel) m (components, item)
    = Ok (components', item') ->
  sound (Registry components') ∧ extends components components'
  ∧ itemSound components' item'.
Proof.
  intros Hsound Hitem H.
  apply (forEach_invariant _
           (fun st => sound (Registry (fst st)) ∧ extends components (fst st)
                      ∧ itemSound (fst st) (snd st)) m)
    with (st := (components, item)) (st' := (components', item')) in H.
  - exact H.
  - intros [c1 i1] mr [c2 i2] _ (Hs & [Hd1 Hd2] & Hi) Hbody. simpl in *.
    destruct (routerOperation_sound _ _ _ _ _ _ Hs Hi Hbody) as (Hs' & Hr & Hc & Hi').
    split; [exact Hs' | split; [split; set_solver | exact Hi']].
  - simpl. split; [exact Hsound | split; [split; reflexivity | exact Hitem]].
Qed.

Lemma itemSound_empty (components : Components) :
  itemSound components operation.emptyPathItem.
Proof.
  split.
  - intros o Ho. apply elem_of_operationsOf in Ho. simpl in Ho.
    repeat (apply elem_of_cons in Ho as [Ho | Ho]; [discriminate |]).
    now apply elem_of_nil in Ho.
  - intros o Ho. simpl in Ho.
    repeat (apply elem_of_cons in Ho as [Ho | Ho]; [discriminate |]).
    now apply elem_of_nil in Ho.
Qed.

Lemma documentSound_mono (a b : Components) (paths : operation.Paths) :
  sound (Registry b) -> extends a b -> documentSound a paths -> documentSound b paths.
Proof.
  intros Hsound [_ Hschemes] [_ Hpaths]. split; [exact Hsound |].
  intros key item Hk. destruct (Hpaths key item Hk) as [Hseg Hitem].
  split; [exact Hseg | exact (itemSound_mono _ _ _ Hschemes Hitem)].
Qed.

Lemma pathOperations_sound (fuel : nat) (basePath : string)
    (components components' : Components) (paths paths' : operation.Paths)
    (pm : string * list (string * router.Router)) :
  documentSound components paths ->
  pathOperations env JoinPath NewResponses fuel basePath (components, paths) pm
    = Ok (components', paths') ->
  documentSound components' paths' ∧ extends components components'.
Proof.
  intros Hdoc H. destruct pm as [path m]. unfold pathOperations in H.
  destruct (JoinPath basePath path) as [joined |]; [| discriminate].
  bind_ok H. destruct a as [c1 item]. injection H as <- <-.
  destruct (routerOperations_sound _ _ _ _ _ _ (proj1 Hdoc)
              (itemSound_empty components) Ha) as (Hsound & Hext & Hitem).
  split; [| exact Hext].
  destruct (documentSound_mono _ _ _ Hsound Hext Hdoc) as [_ Hpaths].
  split; [exact Hsound |]. intros key item' Hk.
  destruct (decide (fixPath joined = key)) as [<- | Hne].
  - rewrite lookup_insert_eq in Hk. injection Hk as <-. split; [| exact Hitem].
    exact (proj1 (replaceAll_no_segment _ joined (le_n _))).
  - rewrite lookup_insert_ne in Hk by exact Hne. exact (Hpaths key item' Hk).
Qed.

Lemma extends_trans (a b c : Components) : extends a b -> extends b c -> extends a c.
Proof. intros [? ?] [? ?]. split; set_solver. Qed.

Lemma getPaths_sound (fuel : nat) (components components' : Components)
    (routers : list (string * list (string * list (string * router.Router))))
    (paths' : operation.Paths) :
  sound (Registry components) ->
  getPaths env JoinPath NewResponses fuel components routers = Ok (components', paths') ->
  documentSound components' paths' ∧ extends components components'.
Proof.
  intros Hsound H. unfold getPaths in H.
  apply (forEach_invariant _
           (fun st => documentSound (fst st) (snd st) ∧ extends components (fst st))
           routers)
    with (st := (components, ∅)) (st' := (components', paths')) in H.
  - exact H.
  - intros st [basePath group] st' _ Hst Hgroup. simpl in Hgroup.
    apply (forEach_invariant _
             (fun st => documentSound (fst st) (snd st) ∧ extends components (fst st))
             group)
      with (st := st) (st' := st') in Hgroup; [exact Hgroup | | exact Hst].
    intros [c1 p1] pm [c2 p2] _ [Hdoc Hext] Hbody. simpl in *.
    destruct (pathOperations_sound _ _ _ _ _ _ _ Hdoc Hbody) as [Hdoc' Hext'].
    split; [exact Hdoc' | exact (extends_trans _ _ _ Hext Hext')].
  - simpl. split; [| split; reflexivity].
    split; [exact Hsound |]. intros key item Hk. now rewrite lookup_empty in Hk.
Qed.

End DocumentProperties.

Lemma sound_empty (validate : list (GoType * CustomTypeFunc)) :
  sound (mkSwagger ∅ validate []).
Proof.
  split; intros k r; simpl; rewrite lookup_empty; discriminate.
Qed.

(** X9. In every document that [BuildOpenAPI] returns, whatever the routers:
    no key of the paths has a parameter in colon form left; every component
    is stored under its title, and every reference without a value in a
    component (a property, the items or the additional properties of a
    property) names a key of the components, as it is or normalised;
    every provider named by a security requirement of an operation has a
    security scheme; and no operation but those of POST and PUT has a
    request body. *)
Theorem BuildOpenAPI_document (env : TypeEnv)
    (JoinPath : string -> string -> option string)
    (NewResponses : operation.Responses) (fuel : nat) (info : Info)
    (servers : list string) (validate : list (GoType * CustomTypeFunc))
    (routers : list (string * list (string * list (string * router.Router))))
    (doc : T) :
  BuildOpenAPI env JoinPath NewResponses fuel info servers validate routers = Ok doc ->
  keyed (Registry (Components_ doc))
  ∧ registryResolves (Registry (Components_ doc))
  ∧ ∀ key item,
      Paths_ doc !! key = Some item ->
      hasSegment key = false
      ∧ bodiless item
      ∧ ∀ o, o ∈ operationsOf item ->
             securityResolves (Components_ doc) (operation.Security o).
Proof.
  unfold BuildOpenAPI. intros H. bind_ok H. destruct a as [components paths].
  injection H as <-. simpl.
  apply getPaths_sound in Ha as [[[Hkeyed Hres] Hpaths] _];
    [| exact (sound_empty validate)].
  split; [exact Hkeyed | split; [exact Hres |]].
  intros key item Hk. destruct (Hpaths key item Hk) as (Hseg & Hsec & Hbody).
  auto.
Qed.

Lemma BuildOpenAPI_document_witness :
  ∃ doc,
    BuildOpenAPI shopEnv joinPlain defaultResponses 6 shopInfo [] [] shopRouters = Ok doc
    ∧ keyed (Registry (Components_ doc))
    ∧ dom (Paths_ doc) = {["/api/orders/{id}"]}.
Proof.
  destruct (BuildOpenAPI shopEnv joinPlain defaultResponses 6 shopInfo [] [] shopRouters)
    as [doc | |] eqn:E; try (vm_compute in E; discriminate).
  exists doc. split; [reflexivity |].
  split; [exact (proj1 (BuildOpenAPI_document _ _ _ _ _ _ _ _ _ E)) |].
  vm_compute in E. injection E as <-. vm_compute. reflexivity.
Defined.

(** ** The operation of a router *)

Lemma setOperation_known (method : string) (o : operation.Operation)
    (b : option operation.RequestBody) (item : operation.PathItem) :
  method ∈ knownMethods ->
  operationAt method (setOperation method o b item)
  = Some (if takesBody method then operation.setRequestBody b o else o).
Proof.
  intros Hin. destruct item. unfold knownMethods in Hin.
  repeat (apply elem_of_cons in Hin as [-> | Hin]; [reflexivity |]).
  now apply elem_of_nil in Hin.
Qed.

Lemma setOperation_unknown (method : string) (o : operation.Operation)
    (b : option operation.RequestBody) (item : operation.PathItem) :
  method ∉ knownMethods -> setOperation method o b item = item.
Proof.
  intros Hnot. destruct item. unfold setOperation.
  repeat match goal with
    | |- context [String.eqb method ?m] =>
        destruct (String.eqb_spec method m) as [-> | _];
        [exfalso; apply Hnot; unfold knownMethods;
         repeat first [ apply list_elem_of_here | apply list_elem_of_further ] |]
    end.
  reflexivity.
Qed.

(** X10. A router that is not excluded and whose walk returns gets, under
    its method, an operation with the responses of [getResponsesRef] and,
    when the method is POST or PUT and the model is not nil, a required
    request body whose one media type refers to the component of the name
    of the type of the model; under another method the operation has no
    request body, and under a method that [getPaths] has no place for the
    path item stays as it was.  The names that the request body and the
    responses refer to are keys of the registry afterwards when the models
    are not pointers; the type of a pointer has no name, so that the
    reference of a pointer model is to the empty name. *)
Theorem operation_of_router (env : TypeEnv) (NewResponses : operation.Responses)
    (fuel : nat) (components components' : Components)
    (item item' : operation.PathItem) (method : string) (r : router.Router) :
  router.Exclude r = false ->
  routerOperation env NewResponses fuel (components, item) (method, r)
    = Ok (components', item') ->
  (method ∈ knownMethods ->
   ∃ o, operationAt method item' = Some o
     ∧ operation.Responses_ o
       = getResponsesRef NewResponses (router.Response_ r) (router.ResponseContentType r)
     ∧ operation.RequestBody_ o
       = (if takesBody method
          then bodyOf (router.RequestContentType r) <$> router.Model r
          else None))
  ∧ (method ∉ knownMethods -> item' = item)
  ∧ (∀ mt, router.Model r = Some mt ->
       (kindOf env mt ≠ reflect.Ptr ->
        removePackageName (nameOf mt) ∈ dom (Schemas (Registry components')))
       ∧ (∀ e, mt = TPtr e ->
            bodyOf (router.RequestContentType r) mt
            = operation.mkRequestBody true
                (contentOf (router.RequestContentType r) EmptyString)))
  ∧ (∀ k v t, (k, v) ∈ router.Response_ r -> router.RModel v = Some t ->
       kindOf env t ≠ reflect.Ptr ->
       removePackageName (nameOf t) ∈ dom (Schemas (Registry components'))).
Proof.
  intros Hex H. unfold routerOperation in H. rewrite Hex in H.
  bind_ok H. bind_ok H. bind_ok H. destruct a1 as [sw3 parameters].
  destruct (getSecurityRequirements _ _) as [c4 security] eqn:Hsecurity.
  injection H as <- <-.
  destruct (getSecurityRequirements_resolves _ _ _ _ Hsecurity) as (Hreg & _ & _).
  simpl in Hreg. rewrite Hreg.
  destruct (responseComponents _ _ _ _ _ Ha0) as (_ & Hdom2 & Hresp).
  pose proof (getParametersByModel_dom _ _ _ _ _ _ Ha1) as Hdom3.
  assert (Hplain : ∀ t type_, kindOf env t ≠ reflect.Ptr ->
                              deref env t = Ok type_ -> type_ = t).
  { intros t type_ Hk Hd. unfold deref in Hd.
    destruct (decide (kindOf env t = reflect.Ptr)); [contradiction | congruence]. }
  split; [| split; [| split]].
  - intros Hin. rewrite setOperation_known by exact Hin.
    eexists. split; [reflexivity |].
    destruct (takesBody method); simpl; [| split; reflexivity].
    split; [reflexivity |]. now destruct (router.Model r).
  - intros Hnot. now apply setOperation_unknown.
  - intros mt Hm. split.
    + intros Hk. rewrite Hm in Ha.
      destruct (getComponentByModel_registers _ _ _ _ _ _ Ha) as (type_ & Hd & Hin).
      rewrite (Hplain _ _ Hk Hd) in Hin. set_solver.
    + intros e ->. reflexivity.
  - intros k v t Hin Hm Hk.
    destruct (Hresp k v t Hin Hm) as (type_ & Hd & Hkey).
    rewrite (Hplain _ _ Hk Hd) in Hkey. set_solver.
Qed.

Lemma operation_of_router_witness :
  ∃ components' item' o,
    routerOperation shopEnv defaultResponses 6
      (mkComponents emptySwagger ∅, operation.emptyPathItem)
      (http.MethodPost, orderRouter) = Ok (components', item')
    ∧ operation.Post item' = Some o
    ∧ operation.RequestBody_ o = Some (bodyOf EmptyString (TNamed "Login"))
    ∧ "Login" ∈ dom (Schemas (Registry components'))
    ∧ "Order" ∈ dom (Schemas (Registry components')).
Proof.
  destruct (routerOperation shopEnv defaultResponses 6
              (mkComponents emptySwagger ∅, operation.emptyPathItem)
              (http.MethodPost, orderRouter))
    as [[components' item'] | |] eqn:E; try (vm_compute in E; discriminate).
  destruct (operation_of_router shopEnv defaultResponses 6 _ _ _ _
              http.MethodPost orderRouter eq_refl E)
    as (Hknown & _ & Hmodel & Hresponses).
  destruct Hknown as (o & Hat & _ & Hbody).
  { unfold knownMethods. apply list_elem_of_further, list_elem_of_here. }
  exists components', item', o. split; [reflexivity |].
  split; [exact Hat |]. split; [exact Hbody |]. split.
  - apply (Hmodel (TNamed "Login") eq_refl). discriminate.
  - apply (Hresponses "200" (router.mkResponseItem "ok" (Some (TNamed "Order")) [])
             (TNamed "Order")); [| reflexivity | discriminate].
    apply list_elem_of_In. simpl. tauto.
Defined.

(** ** Routers that give no operation *)

Lemma forEach_all_return {St X : Type} (body : St -> X -> result St) (l : list X) :
  ∀ st st', forEach body l st = Ok st' ->
            ∀ x, x ∈ l -> ∃ s s', body s x = Ok s'.
Proof.
  induction l as [|y l IH]; intros st st' H x Hx; [now apply elem_of_nil in Hx |].
  simpl in H. bind_ok H. apply elem_of_cons in Hx as [-> | Hx]; eauto.
Qed.

Lemma forEach_excluded (env : TypeEnv) (NewResponses : operation.Responses)
    (fuel : nat) (m : list (string * router.Router))
    (st : Components * operation.PathItem) :
  Forall (fun mr => router.Exclude (snd mr) = true) m ->
  forEach (routerOperation env NewResponses fuel) m st = Ok st.
Proof.
  destruct st as [components item].
  induction 1 as [|[method r] m Hex _ IH]; [reflexivity |].
  simpl in Hex. cbn [forEach].
  assert (Hbody : routerOperation env NewResponses fuel (components, item) (method, r)
                  = Ok (components, item))
    by (unfold routerOperation; now rewrite Hex).
  rewrite Hbody. exact IH.
Qed.

(** X11. A router that is not excluded and whose model is neither nil nor a
    struct nor a pointer to one, a slice for instance, gives no operation:
    [getParametersByModel] asks the type of the model for its fields and
    panics, after the components of the router have been registered.  So
    [BuildOpenAPI] returns no document when the routers hold such a router,
    wherever it is. *)
Theorem non_struct_model_gives_no_document (env : TypeEnv)
    (JoinPath : string -> string -> option string)
    (NewResponses : operation.Responses) (fuel : nat)
    (r : router.Router) (mt type_ : GoType) :
  router.Exclude r = false -> router.Model r = Some mt ->
  deref env mt = Ok type_ -> fieldsOf env type_ = None ->
  (∀ st method st',
     routerOperation env NewResponses fuel st (method, r) ≠ Ok st')
  ∧ (router.Response_ r = [] ->
     ∀ st method,
       routerOperation env NewResponses (S fuel) st (method, r)
       = Panic "reflect: NumField of non-struct type")
  ∧ (∀ info servers validate routers basePath group path m method doc,
       (basePath, group) ∈ routers -> (path, m) ∈ group -> (method, r) ∈ m ->
       BuildOpenAPI env JoinPath NewResponses fuel info servers validate routers
       ≠ Ok doc).
Proof.
  intros Hex Hm Hderef Hfields.
  assert (Hfails : ∀ st method st',
            routerOperation env NewResponses fuel st (method, r) ≠ Ok st').
  { intros [components item] method st' H. unfold routerOperation in H.
    rewrite Hex in H. bind_ok H. bind_ok H. bind_ok H.
    unfold getParametersByModel in Ha1.
    rewrite Hm, Hderef in Ha1. simpl in Ha1. rewrite Hfields in Ha1. discriminate. }
  split; [exact Hfails | split].
  - intros Hresp [components item] method. unfold routerOperation.
    rewrite Hex, Hresp, Hm, getComponentByModel_S, Hderef.
    cbn [mbind result_bind].
    destruct (decide (kindOf env type_ = reflect.Struct)) as [_ | _];
      rewrite ?Hfields;
      cbn [mbind result_bind forEach forFields default from_option id];
      unfold getParametersByModel;
      rewrite Hderef; cbn [mbind result_bind]; now rewrite Hfields.
  - intros info servers validate routers basePath group path m method doc
      Hgroup Hpath Hmr H.
    unfold BuildOpenAPI in H. bind_ok H. unfold getPaths in Ha.
    destruct (forEach_all_return _ _ _ _ Ha _ Hgroup) as (s1 & s1' & H1).
    simpl in H1.
    destruct (forEach_all_return _ _ _ _ H1 _ Hpath) as ([c2 p2] & s2' & H2).
    unfold pathOperations in H2.
    destruct (JoinPath basePath path); [| discriminate].
    bind_ok H2.
    destruct (forEach_all_return _ _ _ _ Ha0 _ Hmr) as (s3 & s3' & H3).
    exact (Hfails _ _ _ H3).
Qed.

Lemma non_struct_model_gives_no_document_witness :
  routerOperation orderEnv defaultResponses 1
    (mkComponents emptySwagger ∅, operation.emptyPathItem)
    (http.MethodPost, batchRouter)
  = Panic "reflect: NumField of non-struct type".
Proof.
  exact (proj1 (proj2 (non_struct_model_gives_no_document orderEnv joinPlain
                         defaultResponses 0 batchRouter (TSlice (TNamed "Order"))
                         (TSlice (TNamed "Order")) eq_refl eq_refl eq_refl eq_refl))
           eq_refl _ _).
Defined.

(** X12. The routers of a path that are excluded leave the components as
    they are, whatever their models; a path all of whose routers are
    excluded is yet a key of the paths, with an item that has no
    operation. *)
Theorem excluded_routers_leave_an_empty_item (env : TypeEnv)
    (JoinPath : string -> string -> option string)
    (NewResponses : operation.Responses) (fuel : nat)
    (basePath path joined : string) (m : list (string * router.Router))
    (components : Components) (paths : operation.Paths) :
  Forall (fun mr => router.Exclude (snd mr) = true) m ->
  JoinPath basePath path = Some joined ->
  pathOperations env JoinPath NewResponses fuel basePath (components, paths) (path, m)
  = Ok (components, <[fixPath joined := operation.emptyPathItem]> paths).
Proof.
  intros Hex Hjoin. unfold pathOperations. rewrite Hjoin.
  now rewrite (forEach_excluded _ _ _ _ _ Hex).
Qed.

Lemma excluded_routers_leave_an_empty_item_witness :
  pathOperations orderEnv joinPlain defaultResponses 0 "/api"
    (mkComponents emptySwagger ∅, ∅) ("/batch/:id", [(http.MethodGet, hiddenRouter)])
  = Ok (mkComponents emptySwagger ∅,
        <[fixPath "/api/batch/:id" := operation.emptyPathItem]> ∅).
Proof.
  apply excluded_routers_leave_an_empty_item; [| reflexivity].
  repeat constructor.
Defined.

(** ** The registration of the routers *)

Lemma routeAt_Handle (g : SwaGin) (heap : gmap positive router.Router)
    (group group' : positive) (path path' method method' : string) (r : positive) :
  routeAt
    (mkSwaGin (RouterGroup g)
       (<[group := <[path := <[method := r]>
                                (default ∅ (default ∅ (Routers g !! group) !! path))]>
                     (default ∅ (Routers g !! group))]> (Routers g))
       heap) group' path' method'
  = if decide ((group', path', method') = (group, path, method)) then Some r
    else routeAt g group' path' method'.
Proof.
  unfold routeAt. simpl.
  destruct (decide (group' = group)) as [-> | Hg].
  - rewrite lookup_insert_eq. simpl.
    destruct (decide (path' = path)) as [-> | Hp].
    + rewrite lookup_insert_eq. simpl.
      destruct (decide (method' = method)) as [-> | Hm].
      * rewrite lookup_insert_eq. now rewrite decide_True.
      * rewrite lookup_insert_ne by congruence.
        rewrite decide_False by congruence.
        destruct (Routers g !! group) as [byPath |]; simpl; [| reflexivity].
        destruct (byPath !! path); reflexivity.
    + rewrite lookup_insert_ne by congruence.
      rewrite decide_False by congruence.
      destruct (Routers g !! group) as [byPath |]; reflexivity.
  - rewrite lookup_insert_ne by congruence. now rewrite decide_False by congruence.
Qed.

(** X13. [Handle] on a router that is not nil writes the method and the
    path into the router and puts it under the group, the path and the
    method, in a map it makes where there is none: the router is found
    there afterwards, every other route and every other router is as it
    was.  A route that was registered with the same router before still
    leads to it, and so to the method and the path of the latest
    registration.  On a nil router [Handle] panics. *)
Theorem Handle_registers (g : SwaGin) (group : positive) (path method : string)
    (r : positive) :
  (Heap g !! r = None -> ∃ msg, Handle g group path method r = Panic msg)
  ∧ ∀ router,
      Heap g !! r = Some router ->
      ∃ g', Handle g group path method r = Ok g'
        ∧ routerAt g' group path method = Some (setMethodPath method path router)
        ∧ (∀ group' path' method',
             (group', path', method') ≠ (group, path, method) ->
             routeAt g' group' path' method' = routeAt g group' path' method')
        ∧ (∀ r', r' ≠ r -> Heap g' !! r' = Heap g !! r')
        ∧ (∀ group' path' method',
             routeAt g group' path' method' = Some r ->
             routerAt g' group' path' method'
             = Some (setMethodPath method path router)).
Proof.
  unfold Handle. split.
  - intros ->. eauto.
  - intros router ->. eexists. split; [reflexivity |].
    unfold routerAt. setoid_rewrite routeAt_Handle. simpl. repeat split.
    + rewrite decide_True by reflexivity. simpl. apply lookup_insert_eq.
    + intros group' path' method' Hne. now rewrite decide_False.
    + intros r' Hne. now apply lookup_insert_ne.
    + intros group' path' method' Hroute.
      destruct (decide _); [| rewrite Hroute]; simpl; apply lookup_insert_eq.
Qed.

Lemma Handle_registers_witness :
  ∃ g1 g2,
    POST oneRouter "/orders" 7%positive = Ok g1
    ∧ Handle g1 1%positive "/orders/:id" http.MethodPut 7%positive = Ok g2
    ∧ router.Path <$> routerAt g2 1%positive "/orders" http.MethodPost
      = Some "/orders/:id".
Proof.
  destruct (proj2 (Handle_registers oneRouter 1%positive "/orders" http.MethodPost
                     7%positive) orderRouter eq_refl)
    as (g1 & H1 & Hat1 & _).
  assert (Hroute : routeAt g1 1%positive "/orders" http.MethodPost = Some 7%positive).
  { vm_compute in H1. injection H1 as <-. reflexivity. }
  assert (Hheap : Heap g1 !! 7%positive
                  = Some (setMethodPath http.MethodPost "/orders" orderRouter)).
  { vm_compute in H1. injection H1 as <-. reflexivity. }
  destruct (proj2 (Handle_registers g1 1%positive "/orders/:id" http.MethodPut
                     7%positive) _ Hheap)
    as (g2 & H2 & _ & _ & _ & Halias).
  exists g1, g2. split; [exact H1 |]. split; [exact H2 |].
  now rewrite (Halias _ _ _ Hroute).
Defined.

(** ** The tables of kinds *)

(** X14. The four tables of kinds agree.  For a kind for which
    [getBasicSchemaByType] has a schema, the type switch of
    [getSchemaByValue] gives the predeclared type of that kind the same
    schema, without a reference and without touching the registry, so that
    the values of a map and a field of that type are described alike;
    [NewEnumSchema] gives an enumerable type of that kind the same schema
    but for the minimum, which it never sets, also for an unsigned kind;
    [GetEnumVal] converts its values; and [isBuiltinType] holds of the
    kind, so that a slice of that type is described by value.  For every
    other kind
    [getBasicSchemaByType] returns nil where [NewEnumSchema] and
    [GetEnumVal] panic. *)
Theorem kind_tables_agree (gconv : reflect.Kind -> Const -> Const)
    (env : TypeEnv) (k : reflect.Kind) :
  (∀ s, getBasicSchemaByType k = Some s ->
     (∀ fuel swagger request,
        getSchemaByValue env (S fuel) swagger (Some (TPrim k)) request
        = Ok (swagger, (EmptyString, s)))
     ∧ (∀ name, NewEnumSchema name k = Ok (openapi3.setMin None s))
     ∧ (∀ name val, GetEnumVal gconv name k val = Ok (gconv k val))
     ∧ isBuiltinType k = true)
  ∧ (getBasicSchemaByType k = None ->
     ∀ name,
       (∃ msg, NewEnumSchema name k = Panic msg)
       ∧ ∀ val, ∃ msg, GetEnumVal gconv name k val = Panic msg).
Proof.
  split.
  - intros s Hs. destruct k; try discriminate Hs; injection Hs as <-;
      (split; [reflexivity | split; [reflexivity | split; reflexivity]]).
  - intros Hnone name. destruct k; try discriminate Hnone;
      (split; [| intros val]; eexists; reflexivity).
Qed.

Lemma kind_tables_agree_witness :
  NewEnumSchema "Level" reflect.Uint8 = Ok openapi3.NewIntegerSchema
  ∧ getSchemaByValue plainEnv 1 emptySwagger (Some (TPrim reflect.Uint8)) false
    = Ok (emptySwagger,
          (EmptyString, openapi3.setMin (Some 0%Z) openapi3.NewIntegerSchema)).
Proof.
  destruct (proj1 (kind_tables_agree convInt plainEnv reflect.Uint8)
              (openapi3.setMin (Some 0%Z) openapi3.NewIntegerSchema) eq_refl)
    as (Hvalue & Henum & _ & _).
  split; [exact (Henum "Level") | exact (Hvalue 0 emptySwagger false)].
Defined.

(** ** The attributes of a parameter *)

Lemma locate_blank (tags : list (string * string)) :
  openapi3.PDescription (locate tags) = EmptyString
  ∧ openapi3.PRequired (locate tags) = false.
Proof.
  unfold locate.
  destruct (tagsGet tags QUERY), (tagsGet tags URI), (tagsGet tags HEADER),
    (tagsGet tags COOKIE); split; reflexivity.
Qed.

Lemma parameterField_describes (gsv : SchemaWalker) (env : TypeEnv)
    (swagger swagger' : Swagger) (parameters parameters' : list openapi3.ParameterRef)
    (field : StructField) :
  parsedField field ->
  parameterField env gsv (swagger, parameters) field = Ok (swagger', parameters') ->
  (fieldLocation field = None ∧ parameters' = parameters)
  ∨ (is_Some (fieldLocation field)
     ∧ ∃ p, parameters' = parameters ++ [p] ∧ describes field p).
Proof.
  unfold parameterField, fieldLocation, parseTag. intros Hparsed H.
  destruct (Tag field) as [tags |] eqn:Htag; [| discriminate]. simpl in H |- *.
  pose proof (isRequiredTags_names tags (Hparsed tags Htag)) as Hnames.
  pose proof (locate_locationOf tags) as Hloc.
  destruct (locate_blank tags) as [Hdesc Hreq].
  destruct (locationOf tags) as [loc |] eqn:Hlocation.
  - destruct Hloc as [Hloc Hin]. rewrite Hin in H.
    bind_ok H. bind_ok H. destruct a0 as [sw [ref schema]].
    injection H as _ <-. right. split; [eauto |].
    eexists. split; [reflexivity |].
    exists tags, (applyDefault tags schema). split; [exact Htag |].
    unfold parameterLocation. simpl. rewrite Hloc, Hdesc, Hreq, orb_false_r.
    split; [exact Hlocation |]. split; [reflexivity |]. split; [exact Hnames |].
    split; [reflexivity |].
    intros d Hd. unfold applyDefault. now rewrite Hd.
  - rewrite Hloc in H. injection H as _ <-. now left.
Qed.

Lemma parameterFields_describe (gsv : SchemaWalker) (env : TypeEnv)
    (fields : list StructField) :
  Forall parsedField fields ->
  ∀ swagger swagger' parameters parameters',
    forFields (parameterField env gsv) fields (swagger, parameters)
      = Ok (swagger', parameters') ->
    ∃ new, parameters' = parameters ++ new
      ∧ Forall2 describes
          (filter (fun f => is_Some (fieldLocation f)) fields) new.
Proof.
  induction 1 as [|f fields Hf _ IH]; intros sw sw' ps ps' H; simpl in H.
  - injection H as _ <-. exists []. rewrite app_nil_r. split; [reflexivity | constructor].
  - bind_ok H. destruct a as [sw1 ps1].
    destruct (IH _ _ _ _ H) as (new & -> & Hnew).
    destruct (parameterField_describes _ _ _ _ _ _ _ Hf Ha)
      as [[Hnone ->] | [Hsome (p & -> & Hp)]].
    + exists new. split; [reflexivity |].
      rewrite filter_cons_False; [exact Hnew |].
      rewrite Hnone. now intros [? ?].
    + exists (p :: new). rewrite <- app_assoc. split; [reflexivity |].
      rewrite filter_cons_True by exact Hsome. now constructor.
Qed.

(** X15. The parameters that [getParametersByModel] returns are, in the
    order of the fields, those of the fields that have a location
    annotation, and each says what the tags of its field say, the name of a
    tag being the text of its annotation before the first comma: the
    description is the name of the description tag, or empty without one;
    the parameter is required exactly when the name of the validate tag is
    [required], also for a path parameter, so [validate:"required,len=2"]
    makes it required and [validate:"omitempty,required"] does not; and the
    schema is given by value, with the name of the default tag as its
    default. *)
Theorem parameters_describe_fields (env : TypeEnv) (fuel : nat)
    (swagger swagger' : Swagger) (mt type_ : GoType) (fields : list StructField)
    (parameters : list openapi3.ParameterRef) :
  deref env mt = Ok type_ -> fieldsOf env type_ = Some fields ->
  Forall parsedField fields ->
  getParametersByModel env fuel swagger (Some mt) = Ok (swagger', parameters) ->
  Forall2 describes (filter (fun f => is_Some (fieldLocation f)) fields) parameters.
Proof.
  intros Hderef Hfields Hparsed H. unfold getParametersByModel in H.
  rewrite Hderef in H. cbn [mbind result_bind] in H. rewrite Hfields in H.
  destruct (parameterFields_describe _ _ _ Hparsed _ _ _ _ H) as (new & -> & Hnew).
  exact Hnew.
Qed.

Lemma parameters_describe_fields_witness :
  ∃ swagger' id lang page,
    getParametersByModel lookupEnv 1 emptySwagger (Some (TNamed "Lookup"))
      = Ok (swagger', [id; lang; page])
    ∧ Forall2 describes (take 3 lookupFields) [id; lang; page]
    ∧ (openapi3.PRequired ∘ openapi3.PValue) <$> [id; lang; page]
      = [false; true; false].
Proof.
  assert (Hparsed : Forall parsedField lookupFields).
  { unfold lookupFields.
    repeat (apply Forall_cons_2;
            [intros tags Htag; cbn [Tag] in Htag; apply (inj Some) in Htag;
             subst tags; apply parseTags_commaFree |]).
    apply Forall_nil_2. }
  destruct (getParametersByModel lookupEnv 1 emptySwagger (Some (TNamed "Lookup")))
    as [[swagger' parameters] | |] eqn:E; try (vm_compute in E; discriminate).
  pose proof (parameters_describe_fields lookupEnv 1 emptySwagger swagger'
                (TNamed "Lookup") (TNamed "Lookup") lookupFields parameters
                eq_refl eq_refl Hparsed E) as Hdescribes.
  vm_compute in E. injection E as <- <-.
  do 4 eexists. split; [reflexivity |]. split; [exact Hdescribes | reflexivity].
Defined.


(** ** Flat routers *)






Section FlatRouters.

Variable env : TypeEnv.
Variable JoinPath : string -> string -> option string.
Variable NewResponses : operation.Responses.
Variable fuel : nat.




End FlatRouters.



(** ** Unexported fields *)



(** ** Tags that do not parse *)


